(** * SOK-Oran-Security: the graph-construction engine and the master-CSV merge

    A shallow embedding of [graph_scripts/helpers.py], [graph_scripts/mapping.py],
    [graph_scripts/database.py], the node and edge loops of
    [graph_scripts/import_data.py] and [_union_headers] / [_append_to_master] of
    [oran_pipeline.py], followed by the properties of the specification that
    concern them.

    Conventions.
    - A Python [str] is a [string]; each character stands for the code point of
      the same number (0..255).  [str.lower] and [str.strip] are written out
      for that range.
    - A Python [dict] is an insertion-ordered association list ([dict V]).
    - The module-level globals of [mapping.py] and the calls received by the
      Neo4j driver form one record, [store]; a Python function that reads or
      writes them is a computation [M A := store -> outcome A * store], so
      that the store at the moment an exception is raised stays visible. *)

From Stdlib Require Import String Ascii List Bool Arith Lia.
From stdpp Require Import base decidable option list strings gmap.

Local Open Scope string_scope.
Local Open Scope list_scope.

(* ===================================================================== *)
(** ** Python strings                                                    *)
(* ===================================================================== *)

Module Py.

Definition ord (c : ascii) : nat := nat_of_ascii c.

(** [str.isspace] on one character: TAB..CR, FS..US, SPACE, NEL, NBSP. *)
Definition isspace (c : ascii) : bool :=
  let n := ord c in
  (((9 <=? n) && (n <=? 13)) || ((28 <=? n) && (n <=? 32))
   || (n =? 133) || (n =? 160))%nat.

(** [str.lower] on one character: A..Z and the Latin-1 capitals
    (U+00C0..U+00DE without the multiplication sign) move up by 32. *)
Definition lower_char (c : ascii) : ascii :=
  let n := ord c in
  if (((65 <=? n) && (n <=? 90))
      || ((192 <=? n) && (n <=? 222) && negb (n =? 215)))%nat
  then ascii_of_nat (n + 32) else c.

Fixpoint lower (s : string) : string :=
  match s with
  | EmptyString => EmptyString
  | String c s' => String (lower_char c) (lower s')
  end.

Fixpoint lstrip (s : string) : string :=
  match s with
  | EmptyString => EmptyString
  | String c s' => if isspace c then lstrip s' else s
  end.

Fixpoint rstrip (s : string) : string :=
  match s with
  | EmptyString => EmptyString
  | String c s' =>
      match rstrip s' with
      | EmptyString => if isspace c then EmptyString else String c EmptyString
      | r => String c r
      end
  end.

(** [s.strip()] *)
Definition strip (s : string) : string := rstrip (lstrip s).

(** [s.replace(old, new)] for a one-character [old], the only form the
    sources use. *)
Fixpoint replace (old : ascii) (new : string) (s : string) : string :=
  match s with
  | EmptyString => EmptyString
  | String c s' =>
      if Ascii.eqb c old then new +:+ replace old new s'
      else String c (replace old new s')
  end.

(** [c in s] for a one-character [c]. *)
Fixpoint contains (c : ascii) (s : string) : bool :=
  match s with
  | EmptyString => false
  | String c' s' => Ascii.eqb c' c || contains c s'
  end.

(** [s.split(sep)] for a non-empty [sep]: [skip] counts the characters of a
    separator occurrence still to be passed over, [cur] is the field read
    so far. *)
Fixpoint split_go (sep : string) (skip : nat) (cur : string) (s : string)
  : list string :=
  match s with
  | EmptyString => [cur]
  | String c s' =>
      match skip with
      | S k => split_go sep k cur s'
      | O =>
          if String.prefix sep s
          then cur :: split_go sep (String.length sep - 1) EmptyString s'
          else split_go sep 0 (cur +:+ String c EmptyString) s'
      end
  end.

Definition split (sep : string) (s : string) : list string :=
  split_go sep 0 EmptyString s.

End Py.

(* ===================================================================== *)
(** ** Python dictionaries                                               *)
(* ===================================================================== *)

(** Insertion-ordered; [dict_set] overwrites in place or appends. *)
Definition dict (V : Type) : Type := list (string * V).

Section Dict.
Context {V : Type}.

(** [d.get(k)] *)
Fixpoint dict_get (d : dict V) (k : string) : option V :=
  match d with
  | [] => None
  | (k', v) :: d' => if String.eqb k' k then Some v else dict_get d' k
  end.

(** [k in d] *)
Definition dict_in (k : string) (d : dict V) : bool :=
  match dict_get d k with Some _ => true | None => false end.

(** [d[k] = v] *)
Fixpoint dict_set (d : dict V) (k : string) (v : V) : dict V :=
  match d with
  | [] => [(k, v)]
  | (k', v') :: d' =>
      if String.eqb k' k then (k', v) :: d' else (k', v') :: dict_set d' k v
  end.

(** [list(d.keys())] *)
Definition dict_keys (d : dict V) : list string := map fst d.

(** [d.setdefault(k, v)] as a statement. *)
Definition dict_setdefault (d : dict V) (k : string) (v : V) : dict V :=
  if dict_in k d then d else dict_set d k v.

(** [d.update(other)] *)
Definition dict_update (d other : dict V) : dict V :=
  fold_left (fun acc kv => dict_set acc (fst kv) (snd kv)) other d.

End Dict.

(* ===================================================================== *)
(** ** graph_scripts/helpers.py                                          *)
(* ===================================================================== *)

(** A spreadsheet cell: a string, or [None] for pandas' NaN / Python's None. *)
Abbreviation cell := (option string) (only parsing).

Definition cleanup_string (s : string) : string :=
  Py.replace "." "_"
    (Py.replace ")" ""
      (Py.replace "(" ""
        (Py.replace "/" "_"
          (Py.replace ":" ""
            (Py.replace " " "_" (Py.lower s)))))).

(** [{cleanup_string(k): v for k, v in d.items()}] *)
Definition cleanup_key_names (d : dict cell) : dict cell :=
  fold_left (fun acc kv => dict_set acc (cleanup_string (fst kv)) (snd kv)) d [].

(* ===================================================================== *)
(** ** The store: globals of mapping.py and the driver's received calls  *)
(* ===================================================================== *)

(** What the Neo4j driver is asked to run: [tx.run] inside [insert_row] and
    inside [create_relationship], with the arguments of the enclosing call. *)
Inductive write : Type :=
| InsertRow (component_name : string) (row : dict cell)
| CreateRelationship
    (node1_type node1_id_name node1_id
     node2_type node2_id_name node2_id relationship_type : string)
    (metadata : dict bool).

Record store : Type := mkStore {
  TYPES_MAP : dict string;
  NODE_METADATA : dict (dict cell);
  NAMES_MAP : dict string;
  DROP_COMPONENTS : list string;
  EXPANSIONS : dict (list string);
  RELATIONSHIPS : dict (list string);
  GRAPH : list write
}.

(** The exceptions of the modelled code.  The sources raise [ValueError] with
    a message; one constructor per raise site keeps them apart. *)
Inductive exn : Type :=
| ComponentAlreadyRegistered (component : string)
    (* register_nodes: 'Component "..." already registered!' *)
| ComponentNotFound (name : string)
    (* resolve_name_to_type: 'Component "..." not found in component map' *)
| MetadataAlreadySet (node : string)
    (* set_node_metadata: 'Metadata for node ... already set' *)
| LengthMismatch
    (* set_node_metadata: 'Nodes and metadata must be the same length' *)
| HyphenInKey (key : string)
    (* insert_row: 'Keys in the row dict should not contain hyphens' *)
| DuplicateNodesFound
    (* import_data: 'Duplicate nodes found' *)
| KeyError (col : string)
    (* row[col] on a column the table does not have *)
| NoneNotIterable
    (* TypeError: iterating over expansion=None *)
| NullName (col : string)
    (* not an exception of the code: a NaN in a key column, which the code
       would go on with as an entity name.  Names are strings here, so the
       model stops there; see [keyed] *)
| FieldsNotInFieldnames
    (* csv.DictWriter: 'dict contains fields not in fieldnames' *).

Inductive outcome (A : Type) : Type :=
| Return (a : A)
| Raise (e : exn).
Arguments Return {A} a.
Arguments Raise {A} e.

Definition M (A : Type) : Type := store -> outcome A * store.

#[global] Instance M_ret : MRet M := fun A a g => (Return a, g).
#[global] Instance M_bind : MBind M := fun A B k m g =>
  match m g with
  | (Return a, g') => k a g'
  | (Raise e, g') => (Raise e, g')
  end.

Definition raise {A : Type} (e : exn) : M A := fun g => (Raise e, g).
Definition get : M store := fun g => (Return g, g).
Definition modify (f : store -> store) : M unit := fun g => (Return tt, f g).

Definition set_TYPES_MAP (v : dict string) (g : store) : store :=
  mkStore v (NODE_METADATA g) (NAMES_MAP g) (DROP_COMPONENTS g) (EXPANSIONS g)
          (RELATIONSHIPS g) (GRAPH g).
Definition set_NODE_METADATA (v : dict (dict cell)) (g : store) : store :=
  mkStore (TYPES_MAP g) v (NAMES_MAP g) (DROP_COMPONENTS g) (EXPANSIONS g)
          (RELATIONSHIPS g) (GRAPH g).
Definition set_RELATIONSHIPS (v : dict (list string)) (g : store) : store :=
  mkStore (TYPES_MAP g) (NODE_METADATA g) (NAMES_MAP g) (DROP_COMPONENTS g)
          (EXPANSIONS g) v (GRAPH g).
Definition set_GRAPH (v : list write) (g : store) : store :=
  mkStore (TYPES_MAP g) (NODE_METADATA g) (NAMES_MAP g) (DROP_COMPONENTS g)
          (EXPANSIONS g) (RELATIONSHIPS g) v.

(** [tx.run(...)]: the driver receives one more call.  What the driver and
    the database then do with it is not part of the model, and the keyword
    arguments of the call are taken to bind (see [run_parameters]). *)
Definition tx_run (w : write) : M unit :=
  modify (fun g => set_GRAPH (GRAPH g ++ [w]) g).

(* ===================================================================== *)
(** ** graph_scripts/mapping.py                                          *)
(* ===================================================================== *)

Definition shipped_NAMES_MAP : dict string :=
  [ ("E2", "E2 Interface");
    ("xApps", "Near-RT RIC");
    ("xAPPs", "Near-RT RIC");
    ("rApps", "Non-RT RIC");
    ("rAPPs", "Non-RT RIC");
    ("ASSET-C-29", "O-Cloud");
    ("ASSET-C-30", "External Components");
    ("ASSET-C-08", "O-Cloud");
    ("NFO/FOCOM", "O-Cloud");
    ("Database holding data from xApp applications and E2 Node", "Near-RT RIC");
    ("Database holding data from xApp applications and E2", "Near-RT RIC");
    ("ML components deploying machine learning (xApps/rApps)", "O-Cloud");
    ("Training or test data sets collected externally or internally",
     "External Components");
    ("Trained ML model", "External Components");
    ("Near-RT-RIC SW", "Near-RT RIC");
    ("Non-RT-RIC SW", "Non-RT RIC");
    ("O1 interface for streaming data", "O1 Interface");
    ("E2 interface for streaming data", "E2 Interface");
    ("ML prediction results", "External Components");
    ("A1 policies", "A1 Interface");
    ("E2 node data", "Near-RT RIC");
    ("Data transported over the O1 interface", "O1 Interface");
    ("AAL software", "O-Cloud");
    ("Hardware accelerator device firmware", "External Components");
    ("Non-RT-RIC", "Non-RT RIC");
    ("airlink with UE", "Airlink");
    ("E2 Functions", "E2 Interface");
    ("Y1 Functions", "Y1 Interface");
    ("SMO Framework", "SMO");
    ("R1 interface", "R1 Interface");
    ("A1 interface", "A1 Interface");
    ("Apps/VNFs/CNFs", "SMO");
    ("Apps/VNFs/CNFs images", "SMO");
    ("O2", "O2 Interface") ].

(** The globals as [mapping.py] initialises them. *)
Definition initial_store : store :=
  {| TYPES_MAP := [];
     NODE_METADATA := [];
     NAMES_MAP := shipped_NAMES_MAP;
     DROP_COMPONENTS := [];
     EXPANSIONS := [];
     RELATIONSHIPS := [];
     GRAPH := [] |}.

(** A pandas row ([Series]) and table ([DataFrame]). *)
Abbreviation Series := (dict (option string)) (only parsing).
Abbreviation DataFrame := (list (dict (option string))) (only parsing).

(** [row[col]] *)
Definition row_at (row : Series) (col : string) : M cell :=
  match dict_get row col with
  | Some v => mret v
  | None => raise (KeyError col)
  end.

(** [row[col]] where the value is used as an entity name. *)
Definition row_name (row : Series) (col : string) : M string :=
  v ← row_at row col;
  match v with
  | Some s => mret s
  | None => raise (NullName col)
  end.

(** One packaged relationship:
    [(row[src], row[dst], relationship, expansion, reverse)]. *)
Definition rel_tuple : Type :=
  (string * cell * string * option (list string) * bool)%type.

Fixpoint expand_relationship (df : DataFrame) (src dst relationship : string)
    (expansion : option (list string)) (reverse : bool)
  : M (list rel_tuple) :=
  match df with
  | [] => mret []
  | row :: df' =>
      s ← row_name row src;
      d ← row_at row dst;
      rest ← expand_relationship df' src dst relationship expansion reverse;
      mret ((s, d, relationship, expansion, reverse) :: rest)
  end.

(** [dsts = RELATIONSHIPS.get(src_type, set()); dsts.add(...);
     RELATIONSHIPS[src_type] = dsts]; the set is kept as a duplicate-free
    list. *)
Definition set_add (x : string) (l : list string) : list string :=
  if bool_decide (x ∈ l) then l else l ++ [x].

Definition record_relationship (src_type dst_type relationship_type : string)
  : M unit :=
  modify (fun g =>
    let dsts := default [] (dict_get (RELATIONSHIPS g) src_type) in
    let dsts := set_add ("--" +:+ relationship_type +:+ "--> " +:+ dst_type) dsts in
    set_RELATIONSHIPS (dict_set (RELATIONSHIPS g) src_type dsts) g).

(** [EXPANSIONS.get(component, [component])] *)
Definition get_expansions (g : store) (component : string) : list string :=
  default [component] (dict_get (EXPANSIONS g) component).

(** [metadata in data]: a NaN is never a key. *)
Definition cell_in {V : Type} (metadata : cell) (data : dict V) : bool :=
  match metadata with
  | Some s => dict_in s data
  | None => false
  end.

(** The body of the loop of [set_node_metadata]. *)
Definition set_one_metadata (tag : string) (node : string) (metadata : cell)
  : M unit :=
  g ← get;
  let data := default [] (dict_get (NODE_METADATA g) node) in
  if cell_in metadata data then raise (MetadataAlreadySet node)
  else
    let data := dict_set data tag metadata in
    modify (set_NODE_METADATA (dict_set (NODE_METADATA g) node data)).

Fixpoint set_metadata_loop (tag : string) (pairs : list (string * cell))
  : M unit :=
  match pairs with
  | [] => mret tt
  | (node, metadata) :: rest =>
      set_one_metadata tag node metadata;;
      set_metadata_loop tag rest
  end.

Definition set_node_metadata (nodes : list string) (tag : string)
    (metadata_list : list cell) : M unit :=
  if negb (length nodes =? length metadata_list)%nat then raise LengthMismatch
  else set_metadata_loop tag (combine nodes metadata_list).

Definition get_node_metadata (g : store) (node : string) : option (dict cell) :=
  dict_get (NODE_METADATA g) node.

Definition drop_component (g : store) (item : string) : bool :=
  if bool_decide (item ∈ DROP_COMPONENTS g) then true else false.

(** [{col: row[col] for col in metadata_cols}] *)
Fixpoint select_cols (row : Series) (cols : list string) (acc : dict cell)
  : M (dict cell) :=
  match cols with
  | [] => mret acc
  | col :: cols' =>
      v ← row_at row col;
      select_cols row cols' (dict_set acc col v)
  end.

(** The body of the loop of [register_nodes] once [component] and [metadata]
    have been read from the row. *)
Definition register_node (component component_type : string)
    (metadata : dict cell) : M unit :=
  g ← get;
  if dict_in component (TYPES_MAP g)
  then raise (ComponentAlreadyRegistered component)
  else
    (match metadata with
     | [] => mret tt
     | _ :: _ =>
         modify (fun g => set_NODE_METADATA
                            (dict_set (NODE_METADATA g) component metadata) g)
     end);;
    modify (fun g => set_TYPES_MAP
                       (dict_set (TYPES_MAP g) component component_type) g).

Fixpoint register_nodes (df : DataFrame) (key_col component_type : string)
    (metadata_cols : option (list string)) : M unit :=
  match df with
  | [] => mret tt
  | row :: df' =>
      component ← row_name row key_col;
      metadata ← match metadata_cols with
                 | Some ((_ :: _) as cols) => select_cols row cols []
                 | _ => mret []
                 end;
      register_node component component_type metadata;;
      register_nodes df' key_col component_type metadata_cols
  end.

Definition get_registered_nodes (g : store) : list string :=
  dict_keys (TYPES_MAP g).

(** [real_name = NAMES_MAP.get(name)]; [if not real_name: return name]. *)
Definition resolve_name_map (g : store) (name : string) : string :=
  match dict_get (NAMES_MAP g) name with
  | Some real_name => if String.eqb real_name "" then name else real_name
  | None => name
  end.

(** [component_type = TYPES_MAP.get(name)]; [if not component_type: raise]. *)
Definition resolve_name_to_type (name : string) : M string :=
  g ← get;
  match dict_get (TYPES_MAP g) name with
  | Some component_type =>
      if String.eqb component_type "" then raise (ComponentNotFound name)
      else mret component_type
  | None => raise (ComponentNotFound name)
  end.

(* ===================================================================== *)
(** ** graph_scripts/database.py                                         *)
(* ===================================================================== *)

(** [session.run("MATCH (n) DETACH DELETE n")] *)
Definition drop_all_data : M unit := modify (set_GRAPH []).

(** The key check comes first; the [CREATE] is sent only when it passes. *)
Definition insert_row (component_name : string) (row : dict cell) : M unit :=
  match find (Py.contains "-") (dict_keys row) with
  | Some key => raise (HyphenInKey key)
  | None => tx_run (InsertRow component_name row)
  end.

Definition create_relationship
    (node1_type node1_id_name node1_id
     node2_type node2_id_name node2_id relationship_type : string)
    (metadata : dict bool) : M unit :=
  tx_run (CreateRelationship node1_type node1_id_name node1_id
            node2_type node2_id_name node2_id relationship_type metadata).

(* ===================================================================== *)
(** ** graph_scripts/import_data.py                                      *)
(* ===================================================================== *)

(** The [row] the node loop builds for [node] from [get_node_metadata(node)]:
    [cleanup_key_names(node_metadata) if node_metadata else {}], then
    [{"name": node}] updated with it when it is not empty. *)
Definition node_row (node : string) (node_metadata : option (dict cell))
  : dict cell :=
  let node_metadata :=
    match node_metadata with
    | Some ((_ :: _) as md) => cleanup_key_names md
    | _ => []
    end in
  let row := [("name", Some node)] in
  match node_metadata with
  | [] => row
  | _ :: _ => dict_update row node_metadata
  end.

(** The node loop ([DRY_RUN] is [False]). *)
Fixpoint create_nodes (all_nodes : list string) : M unit :=
  match all_nodes with
  | [] => mret tt
  | node :: rest =>
      node_type ← resolve_name_to_type node;
      g ← get;
      insert_row node_type (node_row node (get_node_metadata g node));;
      create_nodes rest
  end.

(** [len(relationships) == 1 and relationships[0].lower() == "all"] *)
Definition is_all (relationships : list string) : bool :=
  match relationships with
  | [r] => String.eqb (Py.lower r) "all"
  | _ => false
  end.

(** The inner loop, [for destination_node in relationships]; it returns
    [mapped_nodes] as the loop leaves it. *)
Fixpoint map_relationships (node node_type relationship_name : string)
    (relationship_metadata : dict bool) (reverse : bool)
    (relationships : list string) (mapped_nodes : list string)
  : M (list string) :=
  match relationships with
  | [] => mret mapped_nodes
  | destination_node :: rest =>
      g ← get;
      if drop_component g destination_node
      then map_relationships node node_type relationship_name
             relationship_metadata reverse rest mapped_nodes
      else
        let destination_node := resolve_name_map g destination_node in
        if bool_decide (destination_node ∈ mapped_nodes)
        then map_relationships node node_type relationship_name
               relationship_metadata reverse rest mapped_nodes
        else
          let mapped_nodes := mapped_nodes ++ [destination_node] in
          destination_node_type ← resolve_name_to_type destination_node;
          let '(src_node, src_node_type, dest_node, dest_node_type) :=
            if reverse
            then (destination_node, destination_node_type, node, node_type)
            else (node, node_type, destination_node, destination_node_type) in
          record_relationship src_node_type dest_node_type relationship_name;;
          create_relationship src_node_type "name" src_node
            dest_node_type "name" dest_node relationship_name
            relationship_metadata;;
          map_relationships node node_type relationship_name
            relationship_metadata reverse rest mapped_nodes
  end.

(** The destination tokens of a non-null cell:
    [[r.strip() for r in relationships.split(", ")]]. *)
Definition tokens (relationships : string) : list string :=
  map Py.strip (Py.split ", " relationships).

(** The body of the edge loop for one packaged relationship. *)
Definition edge_row (rel : rel_tuple) : M unit :=
  let '(node, relationships, relationship_name, expansion, reverse) := rel in
  g ← get;
  let node := resolve_name_map g node in
  node_type ← resolve_name_to_type node;
  match relationships with
  | None => mret tt                                   (* pd.isna: continue *)
  | Some relationships =>
      let relationships := tokens relationships in
      let relationship_metadata := [("all", false)] in
      '(relationships, relationship_metadata) ←
        (if is_all relationships
         then match expansion with
              | Some e => mret (e, dict_set relationship_metadata "all" true)
              | None => raise NoneNotIterable
              end
         else mret (relationships, relationship_metadata));
      g ← get;
      let relationships := flat_map (get_expansions g) relationships in
      map_relationships node node_type relationship_name
        relationship_metadata reverse relationships [];;
      mret tt
  end.

Fixpoint edge_loop (all_relationships : list rel_tuple) : M unit :=
  match all_relationships with
  | [] => mret tt
  | rel :: rest => edge_row rel;; edge_loop rest
  end.

(** One [register_nodes(...)] call and one [expand_relationship(...)] call of
    the script, as data. *)
Record registration : Type := {
  reg_df : DataFrame;
  reg_key_col : string;
  reg_component_type : string;
  reg_metadata_cols : option (list string)
}.

Record expansion_call : Type := {
  exp_df : DataFrame;
  exp_src : string;
  exp_dst : string;
  exp_relationship : string;
  exp_expansion : option (list string);
  exp_reverse : bool
}.

Fixpoint register_all (regs : list registration) : M unit :=
  match regs with
  | [] => mret tt
  | r :: rest =>
      register_nodes (reg_df r) (reg_key_col r) (reg_component_type r)
        (reg_metadata_cols r);;
      register_all rest
  end.

Fixpoint expand_all (calls : list expansion_call) : M (list rel_tuple) :=
  match calls with
  | [] => mret []
  | c :: rest =>
      here ← expand_relationship (exp_df c) (exp_src c) (exp_dst c)
               (exp_relationship c) (exp_expansion c) (exp_reverse c);
      more ← expand_all rest;
      mret (here ++ more)
  end.

(** [len(all_nodes) != len(set(all_nodes))] *)
Definition has_duplicates (all_nodes : list string) : bool :=
  negb (length all_nodes =? size (list_to_set all_nodes : gset string))%nat.

(** The script from the drop of the old graph to the end of the edge loop,
    for any list of registrations and relationship expansions. *)
Definition main (regs : list registration) (calls : list expansion_call)
  : M unit :=
  drop_all_data;;
  register_all regs;;
  g ← get;
  let all_nodes := get_registered_nodes g in
  all_relationships ← expand_all calls;
  if has_duplicates all_nodes then raise DuplicateNodesFound
  else
    create_nodes all_nodes;;
    edge_loop all_relationships.

(* ===================================================================== *)
(** ** oran_pipeline.py                                                  *)
(* ===================================================================== *)

Definition ACADEMIC_COLUMNS : list string :=
  [ "Name"; "Type"; "Description";
    "Target Components / Interfaces"; "Affected Components / Interfaces";
    "Reference" ].

(** [out.remove(x)]: the first occurrence goes. *)
Fixpoint list_remove (x : string) (l : list string) : list string :=
  match l with
  | [] => []
  | y :: l' => if String.eqb y x then l' else y :: list_remove x l'
  end.

(** [for h in incoming: if h not in seen: out.append(h); seen.add(h)] *)
Fixpoint union_loop (incoming : list string) (out : list string)
    (seen : gset string) : list string :=
  match incoming with
  | [] => out
  | h :: rest =>
      if bool_decide (h ∈ seen) then union_loop rest out seen
      else union_loop rest (out ++ [h]) ({[h]} ∪ seen)
  end.

(** [if prov in out: out.remove(prov); out.append(prov)] *)
Definition push_last (prov : string) (out : list string) : list string :=
  if bool_decide (prov ∈ out) then list_remove prov out ++ [prov] else out.

Definition _union_headers (existing incoming : list string) : list string :=
  let out := existing in
  let seen : gset string := list_to_set out in
  let out := union_loop incoming out seen in
  let out := push_last "__source_doc" (push_last "__source_file" out) in
  match out with
  | [] => ACADEMIC_COLUMNS
  | _ :: _ => out
  end.

(** A CSV file as the [csv] module sees it: the first record and the records
    after it.  Writing a record and reading it back gives the same list of
    fields, unless a field is over the reader's size limit: then reading
    raises.  A record without fields is a blank line. *)
Record table : Type := { hdr : list string; recs : list (list string) }.

(** A row dict of [csv.DictReader] / [csv.DictWriter]: the string keys, and
    whether the key [None] is present too ([DictReader] adds it to a record
    longer than the header). *)
Record csvrow : Type := { fields : dict cell; has_restkey : bool }.

(** [r.fieldnames] zipped with the record, missing fields [None]; the last
    of two equal column names wins. *)
Fixpoint zip_fields (fieldnames : list string) (record : list string)
    (acc : dict cell) : dict cell :=
  match fieldnames with
  | [] => acc
  | k :: ks =>
      match record with
      | [] => zip_fields ks [] (dict_set acc k None)
      | v :: vs => zip_fields ks vs (dict_set acc k (Some v))
      end
  end.

(** [csv.field_size_limit()]: the reader raises [csv.Error] ("field larger
    than field limit") at a field with more characters than this; the
    writer has no limit. *)
Definition field_size_limit : N := 131072.

Definition within_limit (field : string) : bool :=
  (N.of_nat (String.length field) <=? field_size_limit)%N.

(** [csv.DictReader(f)], the rows it yields when it reads the file to the
    end: blank lines are skipped. *)
Definition DictReader (t : table) : list csvrow :=
  map (fun record =>
         {| fields := zip_fields (hdr t) record [];
            has_restkey := (length (hdr t) <? length record)%nat |})
      (filter (fun record => negb (length record =? 0)%nat) (recs t)).

(** Whether the reader gets through the whole file: no field over the
    limit, in the header line or after it. *)
Definition readable (t : table) : bool :=
  forallb within_limit (hdr t) && forallb (forallb within_limit) (recs t).

(** [[... for row in csv.DictReader(f)]]: the whole file is read, and a
    field over the limit anywhere in it raises [csv.Error] ([None]). *)
Definition read_rows (t : table) : option (list csvrow) :=
  if readable t then Some (DictReader t) else None.

(** [try: return next(csv.reader(f))] / [except Exception: return []]: only
    the first record is read. *)
Definition _read_header (t : table) : list string :=
  if forallb within_limit (hdr t) then hdr t else [].

(** [{k: (v if v is not None else "") for k, v in row.items()}] *)
Definition none_to_empty (row : csvrow) : csvrow :=
  {| fields := map (fun kv => (fst kv, Some (default "" (snd kv)))) (fields row);
     has_restkey := has_restkey row |}.

(** [(row.get(c, "") or "")] *)
Definition get_or_empty (row : csvrow) (c : string) : string :=
  match dict_get (fields row) c with
  | Some (Some v) => v
  | _ => ""
  end.

Definition _norm_row (row : csvrow) (cols : list string) : list string :=
  map (fun c => Py.strip (get_or_empty row c)) cols.

(** [for k in headers: r.setdefault(k, "")] *)
Definition fill (headers : list string) (r : csvrow) : csvrow :=
  {| fields := fold_left (fun d k => dict_setdefault d k (Some "")) headers (fields r);
     has_restkey := has_restkey r |}.

(** The deduplication loop over [new_rows]; [to_add] and [seen] as the loop
    leaves them. *)
Fixpoint dedup_loop (headers : list string) (new_rows : list csvrow)
    (to_add : list csvrow) (seen : gset (list string))
  : list csvrow * gset (list string) :=
  match new_rows with
  | [] => (to_add, seen)
  | r :: rest =>
      let r := fill headers r in
      let key := _norm_row r headers in
      if bool_decide (key ∈ seen) then dedup_loop headers rest to_add seen
      else dedup_loop headers rest (to_add ++ [r]) ({[key]} ∪ seen)
  end.

(** [w.writerow(row)]: [None] when the row has a key outside [fieldnames]. *)
Definition writerow (fieldnames : list string) (row : csvrow)
  : option (list string) :=
  if has_restkey row
     || existsb (fun k => negb (bool_decide (k ∈ fieldnames)))
                (dict_keys (fields row))
  then None
  else Some (map (get_or_empty row) fieldnames).

(** The rows written one after the other into the reopened file; an exception
    leaves the file with what was written before it. *)
Fixpoint write_rows (fieldnames : list string) (rows : list csvrow)
    (written : table) : outcome unit * table :=
  match rows with
  | [] => (Return tt, written)
  | row :: rest =>
      match writerow fieldnames (fill fieldnames row) with
      | None => (Raise FieldsNotInFieldnames, written)
      | Some record =>
          write_rows fieldnames rest
            {| hdr := hdr written; recs := recs written ++ [record] |}
      end
  end.

(** [master_csv] is [None] when the file does not exist.  When it exists
    and reading its rows raises, the [except] branch goes on with
    [existing_rows = []]. *)
Definition _append_to_master (master_csv : option table)
    (headers : list string) (new_rows : list csvrow)
  : outcome (nat * nat) * option table :=
  let '(headers, existing_rows) :=
    match master_csv with
    | Some t => (_union_headers (_read_header t) headers,
                 match read_rows t with
                 | Some rows => map none_to_empty rows
                 | None => []
                 end)
    | None => (headers, [])
    end in
  let seen : gset (list string) :=
    list_to_set (map (fun r => _norm_row r headers) existing_rows) in
  let '(to_add, _) := dedup_loop headers new_rows [] seen in
  let total_after := (length existing_rows + length to_add)%nat in
  match write_rows headers (existing_rows ++ to_add)
          {| hdr := headers; recs := [] |} with
  | (Return _, t') => (Return (length to_add, total_after), Some t')
  | (Raise e, t') => (Raise e, Some t')
  end.

(* ===================================================================== *)
(** ** Notions used in the statements                                    *)
(* ===================================================================== *)

(** The metadata keys of a node as [get_node_metadata] returns them. *)
Definition metadata_keys (node_metadata : option (dict cell)) : list string :=
  match node_metadata with
  | Some md => dict_keys md
  | None => []
  end.

(** A store in which the node ["O-DU"] already carries the tag ["vendor"]. *)
Definition store_with_vendor : store :=
  set_NODE_METADATA [("O-DU", [("vendor", Some "A")])] initial_store.

(** The steps a run is made of, and the store each leaves behind. *)
Inductive operation : Type :=
| OpDropAllData
| OpRegisterNodes (df : DataFrame) (key_col component_type : string)
    (metadata_cols : option (list string))
| OpSetNodeMetadata (nodes : list string) (tag : string)
    (metadata_list : list cell)
| OpCreateNodes (all_nodes : list string)
| OpEdgeLoop (all_relationships : list rel_tuple).

Definition perform (o : operation) (g : store) : store :=
  match o with
  | OpDropAllData => snd (drop_all_data g)
  | OpRegisterNodes df key_col component_type metadata_cols =>
      snd (register_nodes df key_col component_type metadata_cols g)
  | OpSetNodeMetadata nodes tag metadata_list =>
      snd (set_node_metadata nodes tag metadata_list g)
  | OpCreateNodes all_nodes => snd (create_nodes all_nodes g)
  | OpEdgeLoop all_relationships => snd (edge_loop all_relationships g)
  end.

(** [later g g']: [g'] is the store some steps after [g] in one run; a step
    that raised counts with the store it left. *)
Definition later (g g' : store) : Prop :=
  exists ops : list operation, g' = fold_left (fun g o => perform o g) ops g.

(** [inv I E m]: [m] keeps the store inside [I] and raises only exceptions
    of [E]. *)
Definition inv {A : Type} (I : store -> Prop) (E : exn -> Prop) (m : M A) : Prop :=
  forall g, I g -> I (snd (m g)) /\ forall e, fst (m g) = Raise e -> E e.

(** What an invariant [I] has to survive: a change of [GRAPH], of
    [RELATIONSHIPS], of [NODE_METADATA], a fresh entry of [TYPES_MAP]. *)
Definition graph_free (I : store -> Prop) : Prop :=
  forall g v, I g -> I (set_GRAPH v g).
Definition relationships_free (I : store -> Prop) : Prop :=
  forall g v, I g -> I (set_RELATIONSHIPS v g).
Definition metadata_free (I : store -> Prop) : Prop :=
  forall g v, I g -> I (set_NODE_METADATA v g).
Definition fresh_type_free (I : store -> Prop) : Prop :=
  forall g component component_type,
    I g -> dict_in component (TYPES_MAP g) = false ->
    I (set_TYPES_MAP (dict_set (TYPES_MAP g) component component_type) g).

(** The keys of [TYPES_MAP] are those of a dictionary: each once. *)
Definition unique_keys (g : store) : Prop := NoDup (dict_keys (TYPES_MAP g)).

(** A store with a few registered names. *)
Definition sample_store : store :=
  set_TYPES_MAP [ ("A1 Interface", "Interface"); ("Near-RT RIC", "Component");
                  ("Non-RT RIC", "Component"); ("O-DU", "Component");
                  ("T-O-RAN-01", "Threat") ]
                initial_store.

(** Entries of [TYPES_MAP] present in [g0] are still there, unchanged. *)
Definition grows (g0 g : store) : Prop :=
  forall n t, dict_get (TYPES_MAP g0) n = Some t ->
              dict_get (TYPES_MAP g) n = Some t.

Definition not_duplicate_nodes (e : exn) : Prop := e <> DuplicateNodesFound.


(** The type [resolve_name_to_type] returns for [name], [None] when it
    raises. *)
Definition typed (g : store) (name : string) : option string :=
  match dict_get (TYPES_MAP g) name with
  | Some t => if String.eqb t "" then None else Some t
  | None => None
  end.

(** The [create_relationship] call of the inner loop for the destination
    [c] of type [t]. *)
Definition edge_of (node node_type relationship_name : string)
    (md : dict bool) (reverse : bool) (ct : string * string) : write :=
  if reverse
  then CreateRelationship (snd ct) "name" (fst ct) node_type "name" node
         relationship_name md
  else CreateRelationship node_type "name" node (snd ct) "name" (fst ct)
         relationship_name md.

(** The store after the inner loop has recorded and created that edge. *)
Definition emit (node node_type relationship_name : string)
    (md : dict bool) (reverse : bool) (g : store) (ct : string * string)
  : store :=
  snd ((record_relationship (if reverse then snd ct else node_type)
          (if reverse then node_type else snd ct) relationship_name;;
        tx_run (edge_of node node_type relationship_name md reverse ct)) g).

(** The inner loop without the store: the destinations (name, type) it
    creates an edge for, in order, and the name at which it raises, if any. *)
Fixpoint plan (g : store) (relationships : list string)
    (mapped_nodes : list string) : list (string * string) * option string :=
  match relationships with
  | [] => ([], None)
  | d :: rest =>
      if drop_component g d then plan g rest mapped_nodes
      else
        let c := resolve_name_map g d in
        if bool_decide (c ∈ mapped_nodes) then plan g rest mapped_nodes
        else
          match typed g c with
          | None => ([], Some c)
          | Some t =>
              let '(es, r) := plan g rest (mapped_nodes ++ [c]) in
              ((c, t) :: es, r)
          end
  end.

(** What the edge loop reads but never writes. *)
Definition same_static (g g' : store) : Prop :=
  TYPES_MAP g' = TYPES_MAP g /\ NODE_METADATA g' = NODE_METADATA g
  /\ NAMES_MAP g' = NAMES_MAP g /\ DROP_COMPONENTS g' = DROP_COMPONENTS g
  /\ EXPANSIONS g' = EXPANSIONS g.

(** The end of an edge that came from the destination column. *)
Definition token_end (reverse : bool) (w : write) : string :=
  match w with
  | CreateRelationship _ _ n1 _ _ n2 _ _ => if reverse then n1 else n2
  | InsertRow _ _ => ""
  end.

(** The metadata flag ["all"] of an edge. *)
Definition wildcard_flag (w : write) : option bool :=
  match w with
  | CreateRelationship _ _ _ _ _ _ _ md => dict_get md "all"
  | InsertRow _ _ => None
  end.

(** Specification of the deduplication: every name once, at the place of
    its first occurrence. *)
Fixpoint first_seen (l : list string) : list string :=
  match l with
  | [] => []
  | x :: l' => x :: filter (fun y => y <> x) (first_seen l')
  end.

(** The candidates of a row: the expanded tokens that are not on the drop
    list, resolved through the alias table. *)
Definition candidates (g : store) (relationships : list string) : list string :=
  map (resolve_name_map g)
      (filter (fun d => drop_component g d = false) relationships).

(** The list the inner loop iterates over for a non-null destination cell:
    the tokens, or the expansion base for the wildcard, after
    [get_expansions]. *)
Definition row_relationships (g : store) (relationships : string)
    (expansion : option (list string)) : list string :=
  flat_map (get_expansions g)
    (if is_all (tokens relationships) then default [] expansion
     else tokens relationships).

(** The number of records after the header of the master file. *)
Definition row_count (master_csv : option table) : nat :=
  match master_csv with
  | Some t => length (recs t)
  | None => 0
  end.

(** The header and the existing rows [_append_to_master] works with. *)
Definition merged_header (master_csv : option table) (headers : list string)
  : list string :=
  match master_csv with
  | Some t => _union_headers (_read_header t) headers
  | None => headers
  end.

Definition existing_rows (master_csv : option table) : list csvrow :=
  match master_csv with
  | Some t => match read_rows t with
              | Some rows => map none_to_empty rows
              | None => []
              end
  | None => []
  end.

(** The reader gets through the file, if there is one. *)
Definition can_be_read (master_csv : option table) : Prop :=
  match master_csv with
  | Some t => readable t = true
  | None => True
  end.

(** [c * n] *)
Fixpoint times (c : ascii) (n : nat) : string :=
  match n with
  | 0 => ""
  | S n' => String c (times c n')
  end.

(** A field one character over the reader's limit. *)
Definition long_field : string := times "x" (N.to_nat (field_size_limit + 1)).

(** No record of the file is longer than its header. *)
Definition rectangular (master_csv : option table) : Prop :=
  match master_csv with
  | Some t => forall record, record ∈ recs t -> length record <= length (hdr t)
  | None => True
  end.

(** A master file and a batch as the merge step meets them. *)
Definition sample_master : option table :=
  Some {| hdr := ["Name"; "Type"; "__source_file"];
          recs := [["Jamming"; "Attack"; "a.csv"]] |}.

Definition sample_batch : list csvrow :=
  [ {| fields := [("Name", Some " Jamming "); ("Type", Some "Attack");
                  ("__source_file", Some "a.csv"); ("Reference", Some "")];
       has_restkey := false |};
    {| fields := [("Name", Some "Spoofing"); ("Type", Some "Attack");
                  ("__source_file", Some "b.csv"); ("Reference", Some "[7]")];
       has_restkey := false |};
    {| fields := [("Name", Some "Spoofing "); ("Type", Some "Attack");
                  ("__source_file", Some "b.csv"); ("Reference", Some "[7]")];
       has_restkey := false |} ].

Definition sample_headers : list string :=
  ["Name"; "Type"; "Reference"; "__source_file"].

(** The same edge with its two ends exchanged. *)
Definition mirror (w : write) : write :=
  match w with
  | CreateRelationship t1 k1 n1 t2 k2 n2 rel md =>
      CreateRelationship t2 k2 n2 t1 k1 n1 rel md
  | InsertRow t row => InsertRow t row
  end.

(** The adjacency string [record_relationship] keeps for an edge, and the
    source type it keeps it under. *)
Definition adjacency_of (w : write) : string :=
  match w with
  | CreateRelationship _ _ _ t2 _ _ rel _ => "--" +:+ rel +:+ "--> " +:+ t2
  | InsertRow _ _ => ""
  end.

Definition source_type_of (w : write) : string :=
  match w with
  | CreateRelationship t1 _ _ _ _ _ _ _ => t1
  | InsertRow _ _ => ""
  end.

(** [adjacency] is in the set [RELATIONSHIPS[src_type]]. *)
Definition recorded (g : store) (src_type adjacency : string) : Prop :=
  adjacency ∈ default [] (dict_get (RELATIONSHIPS g) src_type).

(** An edge between two registered names, matched by ["name"], each end with
    the type the registry gives it. *)
Definition edge_ok (g : store) (w : write) : Prop :=
  match w with
  | CreateRelationship t1 k1 n1 t2 k2 n2 _ _ =>
      k1 = "name" /\ k2 = "name"
      /\ typed g n1 = Some t1 /\ typed g n2 = Some t2
  | InsertRow _ _ => False
  end.

(** The two node names of an edge. *)
Definition ends_of (w : write) : list string :=
  match w with
  | CreateRelationship _ _ n1 _ _ n2 _ _ => [n1; n2]
  | InsertRow _ _ => []
  end.

(** The [insert_row] call of the node loop for [node]. *)
Definition insert_of (g : store) (node : string) : write :=
  InsertRow (default "" (typed g node)) (node_row node (get_node_metadata g node)).

(** The node loop without the store: the calls it sends, in order, and the
    exception that stops it, if any. *)
Fixpoint node_plan (g : store) (all_nodes : list string)
  : list string * option exn :=
  match all_nodes with
  | [] => ([], None)
  | node :: rest =>
      match typed g node with
      | None => ([], Some (ComponentNotFound node))
      | Some _ =>
          match find (Py.contains "-")
                  (dict_keys (node_row node (get_node_metadata g node))) with
          | Some key => ([], Some (HyphenInKey key))
          | None =>
              let '(done, r) := node_plan g rest in (node :: done, r)
          end
      end
  end.

(* ===================================================================== *)
(** ** oran_pipeline.py: reading a run directory                         *)
(* ===================================================================== *)

(** A CSV file of the run directory as [csv.DictReader] reads it with each
    of the two delimiters; [None] when opening or reading raises. *)
Record csv_source : Type := {
  as_comma : option table;
  as_semicolon : option table
}.

(** [if r.fieldnames:] for one trial. *)
Definition has_fieldnames (parsed : option table) : option table :=
  match parsed with
  | Some t => match hdr t with [] => None | _ :: _ => Some t end
  | None => None
  end.

(** The reading a file is taken with: the comma one when it has field
    names, else the semicolon one when that has. *)
Definition picked (f : csv_source) : option table :=
  match has_fieldnames (as_comma f) with
  | Some t => Some t
  | None => has_fieldnames (as_semicolon f)
  end.

(** The loop of [_iter_run_rows] over the files [rglob] yields. *)
Fixpoint iter_loop (files : list csv_source) (headers_union : list string)
    (rows : list csvrow) : list string * list csvrow :=
  match files with
  | [] => (headers_union, rows)
  | p :: rest =>
      match picked p with
      | Some t =>
          let header := map Py.strip (hdr t) in
          iter_loop rest (_union_headers headers_union header)
            (rows ++ map none_to_empty (DictReader t))
      | None => iter_loop rest headers_union rows
      end
  end.

Definition _iter_run_rows (files : list csv_source) : list string * list csvrow :=
  let '(headers_union, rows) := iter_loop files [] [] in
  (match headers_union with
   | [] => ACADEMIC_COLUMNS
   | _ :: _ => headers_union
   end, rows).

(** The two provenance columns, and the columns that are neither. *)
Definition plain_column (h : string) : Prop :=
  h <> "__source_file" /\ h <> "__source_doc".

(** The files of a run directory whose headers are trimmed and whose records
    are no longer than their header. *)
Definition tidy (f : csv_source) : Prop :=
  forall t, picked f = Some t ->
    (forall h, h ∈ hdr t -> Py.strip h = h) /\ rectangular (Some t).

(** A run directory with one extraction file whose second column name has a
    leading blank. *)
Definition padded_run : list csv_source :=
  [ {| as_comma := Some {| hdr := ["Name"; " Type"];
                           recs := [["Jamming"; "Attack"]] |};
       as_semicolon := None |} ].

Definition tidy_run : list csv_source :=
  [ {| as_comma := Some {| hdr := ["Name"; "Type"];
                           recs := [["Jamming"; "Attack"]; ["Spoofing"]] |};
       as_semicolon := None |};
    {| as_comma := Some {| hdr := []; recs := [] |};
       as_semicolon := Some {| hdr := ["Name"; "Reference"];
                               recs := [["Jamming"; "[7]"]] |} |} ].

(** Whether a call received by the driver is a node insertion. *)
Definition is_insert (w : write) : bool :=
  match w with
  | InsertRow _ _ => true
  | CreateRelationship _ _ _ _ _ _ _ _ => false
  end.

(** The parameter names of the driver's
    [run(self, query, parameters=None, **kwparameters)].
    [tx.run(query, **row)] passes the keys of the row as keyword arguments; a
    key among these names would be bound to the parameter of [run], not sent
    as a property of the node, and the model does not follow a call with
    such a key. *)
Definition run_parameters : list string := ["self"; "query"; "parameters"].

(** No key of the row is a parameter name of [run]. *)
Definition plain_keys (row : dict cell) : bool :=
  forallb (fun k => negb (bool_decide (k ∈ run_parameters))) (dict_keys row).

(** The column [col] of the table has no null cell.  With a null in a key
    column the code goes on with a NaN as entity name, which the model, whose
    names are strings, does not follow. *)
Definition keyed (df : DataFrame) (col : string) : Prop :=
  Forall (fun row => dict_get row col <> Some None) df.

(* ===================================================================== *)
(** * Properties                                                         *)
(* ===================================================================== *)

(** ** The string primitives on examples *)

Example split_two : Py.split ", " "Non-RT-RIC, Non-RT RIC" = ["Non-RT-RIC"; "Non-RT RIC"].
Proof. reflexivity. Qed.

Example split_empty : Py.split ", " "" = [""].
Proof. reflexivity. Qed.

Example split_tight : Py.split ", " "a,b, ,, c, " = ["a,b"; ","; "c"; ""].
Proof. reflexivity. Qed.

Example strip_both : Py.strip "  O-DU  " = "O-DU".
Proof. reflexivity. Qed.

Example strip_inner : Py.strip " Near-RT RIC" = "Near-RT RIC".
Proof. reflexivity. Qed.

Example lower_all : Py.lower "ALL" = "all" /\ Py.lower "aLl" = "all".
Proof. split; reflexivity. Qed.

Example cleanup_cvss : cleanup_string "CVSS (V3.1)" = "cvss_v3_1".
Proof. reflexivity. Qed.

Example cleanup_spec_issue : cleanup_string "Spec. Issue" = "spec__issue".
Proof. reflexivity. Qed.

(** ** Running a computation *)

Lemma run_bind {A B : Type} (m : M A) (k : A -> M B) (g : store) :
  (m ≫= k) g =
  match m g with
  | (Return a, g') => k a g'
  | (Raise e, g') => (Raise e, g')
  end.
Proof. reflexivity. Qed.

Lemma run_ret {A : Type} (a : A) (g : store) : mret (M := M) a g = (Return a, g).
Proof. reflexivity. Qed.

Ltac run :=
  repeat (rewrite ?run_bind, ?run_ret;
          unfold get, modify, raise, tx_run; simpl).

(** ** Dictionaries *)

Section DictFacts.
Context {V : Type}.
Implicit Types (d : dict V) (k : string) (v : V).

Lemma dict_get_set_eq d k v : dict_get (dict_set d k v) k = Some v.
Proof.
  induction d as [|[k' v'] d IH]; simpl.
  - now rewrite String.eqb_refl.
  - destruct (String.eqb k' k) eqn:E; simpl; now rewrite E.
Qed.

Lemma dict_get_set_ne d k k' v :
  k' <> k -> dict_get (dict_set d k v) k' = dict_get d k'.
Proof.
  intros Hne. induction d as [|[k0 v0] d IH]; simpl.
  - destruct (String.eqb k k') eqn:E; [|reflexivity].
    apply String.eqb_eq in E. congruence.
  - destruct (String.eqb k0 k) eqn:E; simpl.
    + apply String.eqb_eq in E. subst k0.
      destruct (String.eqb k k') eqn:E'; [|reflexivity].
      apply String.eqb_eq in E'. congruence.
    + now rewrite IH.
Qed.

Lemma dict_get_Some_In d k v : dict_get d k = Some v -> In (k, v) d.
Proof.
  induction d as [|[k' v'] d IH]; simpl; [discriminate|].
  destruct (String.eqb k' k) eqn:E.
  - apply String.eqb_eq in E. intros [= ->]. subst. now left.
  - intros H. right. now apply IH.
Qed.

Lemma dict_in_keys d k : dict_in k d = true <-> k ∈ dict_keys d.
Proof.
  unfold dict_in, dict_keys. induction d as [|[k' v'] d IH]; simpl.
  - split; [discriminate|]. intros H. inversion H.
  - destruct (String.eqb k' k) eqn:E.
    + apply String.eqb_eq in E. subst. split; [|reflexivity].
      intros _. constructor.
    + rewrite IH. apply String.eqb_neq in E. split.
      * intros H. now constructor.
      * intros H. inversion H; subst; [congruence|assumption].
Qed.

Lemma dict_keys_set d k v :
  dict_keys (dict_set d k v) =
  if dict_in k d then dict_keys d else dict_keys d ++ [k].
Proof.
  unfold dict_in, dict_keys. induction d as [|[k' v'] d IH]; simpl.
  - reflexivity.
  - destruct (String.eqb k' k) eqn:E; simpl; [reflexivity|].
    rewrite IH. now destruct (dict_get d k).
Qed.

Lemma dict_keys_set_elem d k v k' :
  k' ∈ dict_keys (dict_set d k v) <-> k' = k \/ k' ∈ dict_keys d.
Proof.
  rewrite dict_keys_set. destruct (dict_in k d) eqn:E.
  - apply dict_in_keys in E. split; [now right|].
    intros [->|H]; assumption.
  - rewrite elem_of_app, list_elem_of_singleton. tauto.
Qed.

Lemma dict_keys_set_NoDup d k v :
  NoDup (dict_keys d) -> NoDup (dict_keys (dict_set d k v)).
Proof.
  intros Hnd. rewrite dict_keys_set. destruct (dict_in k d) eqn:E; [assumption|].
  apply NoDup_app. split; [assumption|]. split.
  - intros x Hx Hx'. apply list_elem_of_singleton in Hx'. subst x.
    apply dict_in_keys in Hx. congruence.
  - apply NoDup_singleton.
Qed.

End DictFacts.

(** ** Name Resolver (C8) *)

Lemma shipped_values_are_canonical :
  forallb (fun kv => negb (String.eqb (snd kv) "")
                     && negb (dict_in (snd kv) shipped_NAMES_MAP))
          shipped_NAMES_MAP = true.
Proof. vm_compute. reflexivity. Qed.

Lemma shipped_lookup raw real_name :
  dict_get shipped_NAMES_MAP raw = Some real_name ->
  real_name <> "" /\ dict_get shipped_NAMES_MAP real_name = None.
Proof.
  intros H. apply dict_get_Some_In in H.
  pose proof shipped_values_are_canonical as Hall.
  rewrite forallb_forall in Hall. specialize (Hall _ H). simpl in Hall.
  apply andb_true_iff in Hall as [Hne Hkey].
  apply negb_true_iff in Hne, Hkey. split.
  - now apply String.eqb_neq.
  - unfold dict_in in Hkey. now destruct (dict_get shipped_NAMES_MAP real_name).
Qed.

(** C8.  [resolve_name_map] is a function of the alias table and the name
    alone.  With the alias table of [mapping.py] it returns the mapped
    canonical name when the raw name is a key and the raw name otherwise, and
    resolving twice is the same as resolving once. *)
Theorem C8_resolve_name_map_shipped (g : store) :
  NAMES_MAP g = shipped_NAMES_MAP ->
  (forall raw, resolve_name_map g raw = default raw (dict_get (NAMES_MAP g) raw))
  /\ (forall x, resolve_name_map g (resolve_name_map g x) = resolve_name_map g x).
Proof.
  intros Hg.
  assert (Hlook : forall raw,
            resolve_name_map g raw = default raw (dict_get (NAMES_MAP g) raw)).
  { intros raw. unfold resolve_name_map. rewrite Hg.
    destruct (dict_get shipped_NAMES_MAP raw) as [r|] eqn:E; [|reflexivity].
    apply shipped_lookup in E as [Hne _]. apply String.eqb_neq in Hne.
    now rewrite Hne. }
  split; [exact Hlook|].
  intros x. rewrite (Hlook x), Hg.
  destruct (dict_get shipped_NAMES_MAP x) as [r|] eqn:E; simpl.
  - apply shipped_lookup in E as [_ Hnone].
    rewrite Hlook, Hg, Hnone. reflexivity.
  - rewrite Hlook, Hg, E. reflexivity.
Qed.

Lemma C8_resolve_name_map_shipped_witness :
  resolve_name_map initial_store "Non-RT-RIC" = "Non-RT RIC"
  /\ resolve_name_map initial_store (resolve_name_map initial_store "xApps")
     = resolve_name_map initial_store "xApps".
Proof.
  destruct (C8_resolve_name_map_shipped initial_store eq_refl) as [Hlook Hidem].
  split.
  - rewrite Hlook. reflexivity.
  - apply Hidem.
Defined.

(** An alias table with an empty value: the raw name comes back, not the
    mapped one ([if not real_name]). *)
Example resolve_empty_alias :
  resolve_name_map (mkStore [] [] [("E3", "")] [] [] [] []) "E3" = "E3".
Proof. reflexivity. Qed.

(** ** Attribute keys and the hyphen check (C7) *)

Lemma lower_char_hyphen c :
  Ascii.eqb (Py.lower_char c) "-" = Ascii.eqb c "-".
Proof. destruct c as [[] [] [] [] [] [] [] []]; reflexivity. Qed.

Lemma contains_lower s : Py.contains "-" (Py.lower s) = Py.contains "-" s.
Proof.
  induction s as [|c s IH]; simpl; [reflexivity|].
  now rewrite lower_char_hyphen, IH.
Qed.

Lemma contains_append c s1 s2 :
  Py.contains c (s1 +:+ s2) = Py.contains c s1 || Py.contains c s2.
Proof.
  induction s1 as [|c1 s1 IH]; simpl; [reflexivity|].
  now rewrite IH, orb_assoc.
Qed.

Lemma contains_replace c old new s :
  Ascii.eqb old c = false -> Py.contains c new = false ->
  Py.contains c (Py.replace old new s) = Py.contains c s.
Proof.
  intros Hold Hnew. induction s as [|c0 s IH]; simpl; [reflexivity|].
  destruct (Ascii.eqb c0 old) eqn:E.
  - apply Ascii.eqb_eq in E. subst c0.
    now rewrite contains_append, Hnew, IH, Hold.
  - simpl. now rewrite IH.
Qed.

Lemma cleanup_string_hyphen k :
  Py.contains "-" (cleanup_string k) = Py.contains "-" k.
Proof.
  unfold cleanup_string.
  rewrite !contains_replace by reflexivity. apply contains_lower.
Qed.

Lemma fold_set_keys {A V : Type} (f : A -> string) (h : A -> V)
    (l : list A) (acc : dict V) k :
  k ∈ dict_keys (fold_left (fun acc a => dict_set acc (f a) (h a)) l acc)
  <-> k ∈ dict_keys acc \/ exists a, a ∈ l /\ f a = k.
Proof.
  revert acc. induction l as [|a l IH]; intros acc; simpl.
  - split; [now left|]. intros [H|(a & Ha & _)]; [assumption|inversion Ha].
  - rewrite IH, dict_keys_set_elem. split.
    + intros [[->|H]|(a' & Ha' & Hf)].
      * right. exists a. split; [constructor|reflexivity].
      * now left.
      * right. exists a'. split; [now constructor|assumption].
    + intros [H|(a' & Ha' & Hf)].
      * left. now right.
      * inversion Ha'; subst.
        -- left. now left.
        -- right. exists a'. now split.
Qed.

Lemma node_row_keys node md k :
  k ∈ dict_keys (node_row node md)
  <-> k = "name" \/ exists k0, k0 ∈ metadata_keys md /\ cleanup_string k0 = k.
Proof.
  assert (Hclean : forall d : dict cell,
            k ∈ dict_keys (cleanup_key_names d)
            <-> exists k0, k0 ∈ dict_keys d /\ cleanup_string k0 = k).
  { intros d. unfold cleanup_key_names.
    rewrite (fold_set_keys (fun kv => cleanup_string (fst kv)) snd). split.
    - intros [H|([k0 v] & Hin & Hf)]; [inversion H|].
      exists k0. split; [|assumption].
      unfold dict_keys. apply list_elem_of_fmap. now exists (k0, v).
    - intros (k0 & Hin & Hf). right.
      unfold dict_keys in Hin. apply list_elem_of_fmap in Hin as ([k1 v] & -> & Hin).
      now exists (k1, v). }
  unfold node_row.
  destruct md as [[|kv md]|].
  - simpl. rewrite list_elem_of_singleton. split; [now left|].
    intros [H|(k0 & H & _)]; [assumption|inversion H].
  - destruct (cleanup_key_names (kv :: md)) as [|kv' d'] eqn:E.
    + specialize (Hclean (kv :: md)). rewrite E in Hclean.
      simpl. rewrite list_elem_of_singleton. split; [now left|].
      intros [H|H]; [assumption|]. apply Hclean in H. inversion H.
    + rewrite <- E. unfold dict_update.
      rewrite (fold_set_keys fst snd).
      change (dict_keys [("name", Some node)]) with ["name"].
      change (metadata_keys (Some (kv :: md))) with (dict_keys (kv :: md)).
      rewrite list_elem_of_singleton, <- Hclean. split.
      * intros [H|([k1 v] & Hin & Hf)]; [now left|]. right. simpl in Hf. subst k1.
        unfold dict_keys. apply list_elem_of_fmap. now exists (k, v).
      * intros [H|H]; [now left|]. right.
        unfold dict_keys in H. apply list_elem_of_fmap in H as ([k1 v] & -> & Hin).
        now exists (k1, v).
  - simpl. rewrite list_elem_of_singleton. split; [now left|].
    intros [H|(k0 & H & _)]; [assumption|inversion H].
Qed.

(** C7, as the code has it.  [cleanup_string] lowercases, turns [' '], ['/'],
    ['.'] into ['_'] and deletes [':'], ['('], [')']; it leaves ['-'] alone, so
    the sanitized key contains ['-'] exactly when the input key does, and
    [insert_row] accepts the row of a node exactly when none of the node's
    metadata keys contains ['-']. *)
Theorem C7_cleanup_string_keeps_hyphen :
  (forall k, Py.contains "-" (cleanup_string k) = Py.contains "-" k)
  /\ (forall component_name node md g,
        (forall k, k ∈ metadata_keys md -> Py.contains "-" k = false)
        <-> insert_row component_name (node_row node md) g
            = tx_run (InsertRow component_name (node_row node md)) g).
Proof.
  split; [exact cleanup_string_hyphen|].
  intros component_name node md g. unfold insert_row.
  destruct (find (Py.contains "-") (dict_keys (node_row node md))) as [key|] eqn:E.
  - apply find_some in E as [Hin Hhy].
    apply list_elem_of_In, node_row_keys in Hin as [->|(k0 & Hk0 & <-)];
      [discriminate|].
    rewrite cleanup_string_hyphen in Hhy. split; [|discriminate].
    intros Hall. rewrite (Hall k0 Hk0) in Hhy. discriminate.
  - split; [reflexivity|]. intros _ k Hk.
    pose proof (find_none _ _ E (cleanup_string k)) as Hnone.
    rewrite cleanup_string_hyphen in Hnone. apply Hnone.
    apply list_elem_of_In, node_row_keys. right. now exists k.
Qed.

Lemma C7_cleanup_string_keeps_hyphen_witness :
  Py.contains "-" (cleanup_string "Date Published") = false
  /\ insert_row "CVE"
       (node_row "CVE-2023-40997" (Some [("Date Published", Some "2023-08-28")]))
       initial_store
     = (Return tt,
        set_GRAPH
          [InsertRow "CVE" [("name", Some "CVE-2023-40997");
                            ("date_published", Some "2023-08-28")]]
          initial_store).
Proof.
  destruct C7_cleanup_string_keeps_hyphen as [Hkey Hrow]. split.
  - rewrite Hkey. reflexivity.
  - rewrite (proj1 (Hrow "CVE" "CVE-2023-40997"
                      (Some [("Date Published", Some "2023-08-28")])
                      initial_store)).
    + reflexivity.
    + intros k Hk. simpl in Hk. apply list_elem_of_singleton in Hk. subst k.
      reflexivity.
Defined.

(** C7 as stated fails: a hyphen survives [cleanup_string], and the row of a
    node with such a metadata key is rejected by [insert_row]. *)
Lemma C7_counterexample :
  cleanup_string "Spec-Issue" = "spec-issue"
  /\ Py.contains "-" (cleanup_string "Spec-Issue") = true
  /\ insert_row "GovernmentThreat"
       (node_row "GT-1" (Some [("Spec-Issue", Some "yes")])) initial_store
     = (Raise (HyphenInKey "spec-issue"), initial_store).
Proof. repeat split. Qed.

(** ** Metadata Store (C5) *)

(** C5.  [set_node_metadata] tests [metadata in data], the value against the
    keys, where the tag was meant: setting the tag ["vendor"] of ["O-DU"] a
    second time returns normally and overwrites the stored value. *)
Theorem C5_set_node_metadata_overwrites :
  set_node_metadata ["O-DU"] "vendor" [Some "B"] store_with_vendor
  = (Return tt, set_NODE_METADATA [("O-DU", [("vendor", Some "B")])] initial_store).
Proof. reflexivity. Qed.

(** The same test refuses a fresh tag whose value happens to spell an
    existing key. *)
Example set_node_metadata_spurious :
  set_node_metadata ["O-DU"] "owner" [Some "vendor"] store_with_vendor
  = (Raise (MetadataAlreadySet "O-DU"), store_with_vendor).
Proof. reflexivity. Qed.

(** ** Invariants of computations *)

Section Inv.
Context (I : store -> Prop) (E : exn -> Prop).

Lemma inv_ret {A} (a : A) : inv I E (mret a).
Proof. intros g Hg. split; [assumption|discriminate]. Qed.

Lemma inv_raise {A} e : E e -> inv I E (raise (A := A) e).
Proof. intros He g Hg. split; [assumption|]. now intros e' [= <-]. Qed.

Lemma inv_get : inv I E get.
Proof. intros g Hg. split; [assumption|discriminate]. Qed.

Lemma inv_modify f : (forall g, I g -> I (f g)) -> inv I E (modify f).
Proof. intros Hf g Hg. split; [now apply Hf|discriminate]. Qed.

Lemma inv_bind {A B} (m : M A) (k : A -> M B) :
  inv I E m -> (forall a, inv I E (k a)) -> inv I E (m ≫= k).
Proof.
  intros Hm Hk g Hg. rewrite run_bind.
  destruct (Hm g Hg) as [Hg' He]. destruct (m g) as [[a|e] g']; simpl in *.
  - now apply Hk.
  - split; [assumption|]. intros e' [= <-]. now apply He.
Qed.

End Inv.

(** A step of the structural proof that [m] satisfies [inv I E]; goals about
    [I] under a store update and about [E] at a raise are left. *)
Ltac inv_step :=
  match goal with
  | |- inv _ _ (mret _) => apply inv_ret
  | |- inv _ _ get => apply inv_get
  | |- inv _ _ (raise _) => apply inv_raise
  | |- inv _ _ (modify _) => apply inv_modify
  | |- inv _ _ (tx_run _) => apply inv_modify
  | |- inv _ _ (_ ≫= _) => apply inv_bind; [|intros ?]
  | |- inv _ _ (match ?x with _ => _ end) => destruct x
  | |- inv _ _ (if ?x then _ else _) => destruct x
  | |- inv _ _ (let '(_, _) := ?x in _) => destruct x
  end.

Section Frames.
Context (I : store -> Prop) (E : exn -> Prop).

Lemma inv_row_at row col : E (KeyError col) -> inv I E (row_at row col).
Proof. intros He. unfold row_at. repeat inv_step. assumption. Qed.

Lemma inv_resolve_name_to_type name :
  E (ComponentNotFound name) -> inv I E (resolve_name_to_type name).
Proof. intros He. unfold resolve_name_to_type. repeat inv_step; assumption. Qed.

Lemma inv_drop_all_data : graph_free I -> inv I E drop_all_data.
Proof. intros HG. unfold drop_all_data. inv_step. intros g. apply HG. Qed.

Lemma inv_insert_row t row :
  graph_free I -> (forall k, E (HyphenInKey k)) -> inv I E (insert_row t row).
Proof.
  intros HG He. unfold insert_row. repeat inv_step; [apply He|].
  intros g. apply HG.
Qed.

Lemma inv_create_nodes all_nodes :
  graph_free I -> (forall k, E (HyphenInKey k)) ->
  (forall n, E (ComponentNotFound n)) -> inv I E (create_nodes all_nodes).
Proof.
  intros HG He He'. induction all_nodes as [|node rest IH]; simpl.
  - apply inv_ret.
  - inv_step; [now apply inv_resolve_name_to_type|].
    inv_step; [apply inv_get|]. inv_step; [now apply inv_insert_row|assumption].
Qed.

Lemma inv_map_relationships node node_type rname md reverse rels mapped :
  graph_free I -> relationships_free I -> (forall n, E (ComponentNotFound n)) ->
  inv I E (map_relationships node node_type rname md reverse rels mapped).
Proof.
  intros HG HR He. revert mapped.
  induction rels as [|d rest IH]; intros mapped; simpl.
  - apply inv_ret.
  - inv_step; [apply inv_get|]. inv_step; [apply IH|]. inv_step; [apply IH|].
    inv_step; [now apply inv_resolve_name_to_type|].
    destruct reverse.
    + inv_step; [unfold record_relationship; inv_step; intros g; apply HR|].
      inv_step; [unfold create_relationship; inv_step; intros g; apply HG|].
      apply IH.
    + inv_step; [unfold record_relationship; inv_step; intros g; apply HR|].
      inv_step; [unfold create_relationship; inv_step; intros g; apply HG|].
      apply IH.
Qed.

Lemma inv_edge_row rel :
  graph_free I -> relationships_free I -> (forall n, E (ComponentNotFound n)) ->
  E NoneNotIterable -> inv I E (edge_row rel).
Proof.
  intros HG HR He He'. destruct rel as [[[[node rels] rname] expansion] reverse].
  unfold edge_row.
  apply inv_bind; [apply inv_get|intros g0].
  apply inv_bind; [now apply inv_resolve_name_to_type|intros node_type].
  destruct rels as [rels|]; [|apply inv_ret].
  apply inv_bind; [|intros [rs rmd]].
  - destruct (is_all (tokens rels)); [destruct expansion|];
      repeat inv_step; assumption.
  - apply inv_bind; [apply inv_get|intros g1].
    apply inv_bind; [now apply inv_map_relationships|intros _; apply inv_ret].
Qed.

Lemma inv_edge_loop rels :
  graph_free I -> relationships_free I -> (forall n, E (ComponentNotFound n)) ->
  E NoneNotIterable -> inv I E (edge_loop rels).
Proof.
  intros HG HR He He'. induction rels as [|rel rest IH]; simpl.
  - apply inv_ret.
  - inv_step; [now apply inv_edge_row|assumption].
Qed.

Lemma inv_set_node_metadata nodes tag metadata_list :
  metadata_free I -> (forall n, E (MetadataAlreadySet n)) -> E LengthMismatch ->
  inv I E (set_node_metadata nodes tag metadata_list).
Proof.
  intros HM He He'. unfold set_node_metadata.
  inv_step; [now apply inv_raise|].
  induction (combine nodes metadata_list) as [|[node md] rest IH]; simpl.
  - apply inv_ret.
  - inv_step; [|assumption]. unfold set_one_metadata.
    repeat inv_step; [apply He|]. intros g. apply HM.
Qed.

Lemma inv_expand_relationship df src dst rname expansion reverse :
  (forall c, E (KeyError c)) -> (forall c, E (NullName c)) ->
  inv I E (expand_relationship df src dst rname expansion reverse).
Proof.
  intros He He'. induction df as [|row df IH]; simpl.
  - apply inv_ret.
  - inv_step.
    + unfold row_name. inv_step; [now apply inv_row_at|].
      repeat inv_step. apply He'.
    + inv_step; [now apply inv_row_at|]. inv_step; [assumption|apply inv_ret].
Qed.

Lemma inv_expand_all calls :
  (forall c, E (KeyError c)) -> (forall c, E (NullName c)) ->
  inv I E (expand_all calls).
Proof.
  intros He He'. induction calls as [|c rest IH]; simpl.
  - apply inv_ret.
  - inv_step; [now apply inv_expand_relationship|].
    inv_step; [assumption|apply inv_ret].
Qed.

Lemma inv_register_node component component_type metadata :
  metadata_free I -> fresh_type_free I ->
  E (ComponentAlreadyRegistered component) ->
  inv I E (register_node component component_type metadata).
Proof.
  intros HM HT He. intros g Hg. unfold register_node. run.
  destruct (dict_in component (TYPES_MAP g)) eqn:Hin; simpl.
  - split; [assumption|]. now intros e [= <-].
  - destruct metadata as [|kv md]; run; (split; [|discriminate]).
    + now apply HT.
    + apply (HT (set_NODE_METADATA _ g)); [now apply HM|assumption].
Qed.

Lemma inv_select_cols row cols acc :
  (forall c, E (KeyError c)) -> inv I E (select_cols row cols acc).
Proof.
  intros He. revert acc. induction cols as [|c cols IH]; intros acc; simpl.
  - apply inv_ret.
  - inv_step; [now apply inv_row_at|apply IH].
Qed.

Lemma inv_register_nodes df key_col component_type metadata_cols :
  metadata_free I -> fresh_type_free I ->
  (forall c, E (ComponentAlreadyRegistered c)) ->
  (forall c, E (KeyError c)) -> (forall c, E (NullName c)) ->
  inv I E (register_nodes df key_col component_type metadata_cols).
Proof.
  intros HM HT He1 He2 He3. induction df as [|row df IH]; simpl.
  - apply inv_ret.
  - inv_step.
    + unfold row_name. inv_step; [now apply inv_row_at|].
      repeat inv_step. apply He3.
    + inv_step.
      * destruct metadata_cols as [[|c cols]|]; try apply inv_ret.
        now apply inv_select_cols.
      * inv_step; [now apply inv_register_node|assumption].
Qed.

Lemma inv_register_all regs :
  metadata_free I -> fresh_type_free I ->
  (forall c, E (ComponentAlreadyRegistered c)) ->
  (forall c, E (KeyError c)) -> (forall c, E (NullName c)) ->
  inv I E (register_all regs).
Proof.
  intros HM HT He1 He2 He3. induction regs as [|r regs IH]; simpl.
  - apply inv_ret.
  - inv_step; [now apply inv_register_nodes|assumption].
Qed.

End Frames.

(** ** Type Registry (C2, C10) *)

Lemma grows_fresh g0 : fresh_type_free (grows g0).
Proof.
  intros g c ty Hg Hfresh n t Hn. simpl.
  rewrite dict_get_set_ne; [now apply Hg|].
  intros ->. apply Hg in Hn. unfold dict_in in Hfresh. now rewrite Hn in Hfresh.
Qed.

Lemma perform_grows o g : grows g (perform o g).
Proof.
  assert (H0 : grows g g) by (intros n t H; exact H).
  assert (HG : graph_free (grows g)) by (intros g1 v H; exact H).
  assert (HR : relationships_free (grows g)) by (intros g1 v H; exact H).
  assert (HM : metadata_free (grows g)) by (intros g1 v H; exact H).
  pose proof (grows_fresh g) as HT.
  destruct o; simpl.
  - now apply (inv_drop_all_data (grows g) (fun _ => True)).
  - now apply (inv_register_nodes (grows g) (fun _ => True)).
  - now apply (inv_set_node_metadata (grows g) (fun _ => True)).
  - now apply (inv_create_nodes (grows g) (fun _ => True)).
  - now apply (inv_edge_loop (grows g) (fun _ => True)).
Qed.

Lemma later_grows g g' : later g g' -> grows g g'.
Proof.
  intros [ops ->]. revert g. induction ops as [|o ops IH]; intros g; simpl.
  - intros n t H. exact H.
  - intros n t H. apply IH. now apply perform_grows.
Qed.

Lemma resolve_name_to_type_run name g :
  resolve_name_to_type name g =
  match dict_get (TYPES_MAP g) name with
  | Some t => if String.eqb t "" then (Raise (ComponentNotFound name), g)
              else (Return t, g)
  | None => (Raise (ComponentNotFound name), g)
  end.
Proof.
  unfold resolve_name_to_type. run.
  destruct (dict_get (TYPES_MAP g) name) as [t|]; [|reflexivity].
  now destruct (String.eqb t "").
Qed.

Lemma select_cols_total row cols acc g :
  (forall c, c ∈ cols -> is_Some (dict_get row c)) ->
  exists md, select_cols row cols acc g = (Return md, g).
Proof.
  revert acc. induction cols as [|c cols IH]; intros acc Hcols; simpl.
  - now exists acc.
  - destruct (Hcols c) as [v Hv]; [constructor|].
    rewrite run_bind. unfold row_at. rewrite Hv. run.
    apply IH. intros c' Hc'. apply Hcols. now constructor.
Qed.

(** C2.  A name already in [TYPES_MAP] cannot be registered again: the loop
    body of [register_nodes] raises whatever type and metadata come with it and
    leaves the store as it was, and so does [register_nodes] on a table whose
    first row carries that name.  [resolve_name_to_type] either raises
    [ComponentNotFound] or returns a type, and a type it has returned once is
    the type it returns at every later point of the run. *)
Theorem C2_registration_is_once_only :
  (forall g component component_type metadata,
      dict_in component (TYPES_MAP g) = true ->
      register_node component component_type metadata g
      = (Raise (ComponentAlreadyRegistered component), g))
  /\ (forall g row df key_col component_type metadata_cols component,
        dict_get row key_col = Some (Some component) ->
        (forall c, c ∈ default [] metadata_cols -> is_Some (dict_get row c)) ->
        dict_in component (TYPES_MAP g) = true ->
        register_nodes (row :: df) key_col component_type metadata_cols g
        = (Raise (ComponentAlreadyRegistered component), g))
  /\ (forall g name,
        (exists t, resolve_name_to_type name g = (Return t, g))
        \/ resolve_name_to_type name g = (Raise (ComponentNotFound name), g))
  /\ (forall g g' name t,
        later g g' ->
        resolve_name_to_type name g = (Return t, g) ->
        resolve_name_to_type name g' = (Return t, g')).
Proof.
  assert (Hbody : forall g component component_type metadata,
             dict_in component (TYPES_MAP g) = true ->
             register_node component component_type metadata g
             = (Raise (ComponentAlreadyRegistered component), g)).
  { intros g component component_type metadata Hin.
    unfold register_node. run. now rewrite Hin. }
  split; [exact Hbody|]. split; [|split].
  - intros g row df key_col component_type metadata_cols component Hkey Hcols Hin.
    cbn [register_nodes]. rewrite run_bind. unfold row_name.
    rewrite run_bind. unfold row_at. rewrite Hkey, run_ret, run_ret, run_bind.
    destruct metadata_cols as [[|c cols]|].
    1, 3: now rewrite run_ret, run_bind, (Hbody _ _ _ _ Hin).
    destruct (select_cols_total row (c :: cols) [] g Hcols) as [md Hmd].
    now rewrite Hmd, run_bind, (Hbody _ _ _ _ Hin).
  - intros g name. rewrite resolve_name_to_type_run.
    destruct (dict_get (TYPES_MAP g) name) as [t|]; [|now right].
    destruct (String.eqb t ""); [now right|left; now exists t].
  - intros g g' name t Hlater. rewrite !resolve_name_to_type_run.
    destruct (dict_get (TYPES_MAP g) name) as [t0|] eqn:E; [|discriminate].
    apply (later_grows _ _ Hlater) in E. rewrite E.
    destruct (String.eqb t0 ""); [discriminate|]. now intros [= ->].
Qed.

Lemma C2_registration_is_once_only_witness :
  register_node "O-DU" "Interface" [("vendor", Some "A")] sample_store
  = (Raise (ComponentAlreadyRegistered "O-DU"), sample_store)
  /\ resolve_name_to_type "O-DU"
       (perform (OpRegisterNodes [[("Component", Some "O-RU")]] "Component"
                   "Component" None) sample_store)
     = (Return "Component",
        perform (OpRegisterNodes [[("Component", Some "O-RU")]] "Component"
                   "Component" None) sample_store).
Proof.
  destruct C2_registration_is_once_only as (Hbody & _ & _ & Hlater). split.
  - apply Hbody. reflexivity.
  - apply (Hlater sample_store).
    + exists [OpRegisterNodes [[("Component", Some "O-RU")]] "Component"
                "Component" None]. reflexivity.
    + reflexivity.
Defined.

(** ** The node list and the duplicate check (C10) *)

Lemma has_duplicates_NoDup l : NoDup l -> has_duplicates l = false.
Proof.
  intros Hnd. unfold has_duplicates.
  rewrite (size_list_to_set (C := gset string) l Hnd).
  now rewrite Nat.eqb_refl.
Qed.

Lemma unique_keys_fresh : fresh_type_free unique_keys.
Proof. intros g c ty Hg _. now apply dict_keys_set_NoDup. Qed.

(** C10.  From a registry whose keys are those of a dictionary, the names
    returned by [get_registered_nodes] after registration are exactly the
    keys of [TYPES_MAP], each once; [len(all_nodes) != len(set(all_nodes))] is
    false, and the script never raises "Duplicate nodes found". *)
Theorem C10_duplicate_check_never_fails (regs : list registration)
    (calls : list expansion_call) (g : store) :
  NoDup (dict_keys (TYPES_MAP g)) ->
  let g1 := snd ((drop_all_data;; register_all regs) g) in
  NoDup (get_registered_nodes g1)
  /\ (forall n, n ∈ get_registered_nodes g1 <-> dict_in n (TYPES_MAP g1) = true)
  /\ has_duplicates (get_registered_nodes g1) = false
  /\ fst (main regs calls g) <> Raise DuplicateNodesFound.
Proof.
  intros Hg g1.
  assert (HG : graph_free unique_keys) by (intros g0 v H; exact H).
  assert (HR : relationships_free unique_keys) by (intros g0 v H; exact H).
  assert (HM : metadata_free unique_keys) by (intros g0 v H; exact H).
  assert (Hreg : inv unique_keys not_duplicate_nodes
                   (drop_all_data;; register_all regs)).
  { apply inv_bind; [now apply inv_drop_all_data|intros _].
    apply inv_register_all; try assumption; try (intros c; discriminate).
    apply unique_keys_fresh. }
  destruct (Hreg g Hg) as [Hnd Hexn]. fold g1 in Hnd.
  split; [exact Hnd|]. split; [intros n; symmetry; apply dict_in_keys|].
  split; [now apply has_duplicates_NoDup|].
  assert (Hg1 : unique_keys g1) by exact Hnd.
  change ((drop_all_data;; register_all regs) g)
    with (register_all regs (set_GRAPH [] g)) in g1, Hexn.
  unfold main. rewrite run_bind.
  change (drop_all_data g) with (Return tt, set_GRAPH [] g). cbv beta iota.
  rewrite run_bind. subst g1.
  destruct (register_all regs (set_GRAPH [] g)) as [[[]|e] g1] eqn:Hr;
    cbn [fst snd] in Hexn, Hg1, Hnd |- *;
    [|intros [= ->]; now apply (Hexn _ eq_refl)].
  rewrite run_bind. change (get g1) with (Return g1, g1). cbv beta iota.
  rewrite run_bind.
  pose proof (inv_expand_all unique_keys not_duplicate_nodes calls) as Hexp.
  destruct (Hexp ltac:(intros c; discriminate) ltac:(intros c; discriminate)
              g1 Hg1) as [Hg2 Hexn2].
  destruct (expand_all calls g1) as [[rels|e] g2]; cbn [fst snd] in Hg2, Hexn2 |- *;
    [|intros [= ->]; now apply (Hexn2 _ eq_refl)].
  unfold get_registered_nodes at 1. rewrite (has_duplicates_NoDup _ Hnd).
  assert (Hrest : inv unique_keys not_duplicate_nodes
                    (create_nodes (get_registered_nodes g1);; edge_loop rels)).
  { apply inv_bind; [|intros _].
    - apply inv_create_nodes; try assumption; intros c; discriminate.
    - apply inv_edge_loop; try assumption; try (intros c); discriminate. }
  destruct (Hrest g2 Hg2) as [_ Hexn3]. intros Hbad. now apply (Hexn3 _ Hbad).
Qed.

Lemma C10_duplicate_check_never_fails_witness :
  has_duplicates
    (get_registered_nodes
       (snd ((drop_all_data;;
              register_all
                [ {| reg_df := [[("Component", Some "Near-RT RIC")];
                                [("Component", Some "O-DU")]];
                     reg_key_col := "Component";
                     reg_component_type := "Component";
                     reg_metadata_cols := None |} ]) initial_store))) = false.
Proof.
  refine (proj1 (proj2 (proj2
    (C10_duplicate_check_never_fails _ [] initial_store _)))).
  constructor.
Defined.

(** ** The inner loop of the edge loop *)

Lemma resolve_typed name g :
  resolve_name_to_type name g =
  match typed g name with
  | Some t => (Return t, g)
  | None => (Raise (ComponentNotFound name), g)
  end.
Proof.
  rewrite resolve_name_to_type_run. unfold typed.
  destruct (dict_get (TYPES_MAP g) name) as [t|]; [|reflexivity].
  now destruct (String.eqb t "").
Qed.

Lemma same_static_refl g : same_static g g.
Proof. now repeat split. Qed.

Lemma same_static_trans g1 g2 g3 :
  same_static g1 g2 -> same_static g2 g3 -> same_static g1 g3.
Proof.
  intros (H1 & H2 & H3 & H4 & H5) (K1 & K2 & K3 & K4 & K5).
  repeat split; congruence.
Qed.

Lemma emit_static node node_type rname md reverse g ct :
  same_static g (emit node node_type rname md reverse g ct).
Proof. now repeat split. Qed.

Lemma emit_GRAPH node node_type rname md reverse g ct :
  GRAPH (emit node node_type rname md reverse g ct)
  = GRAPH g ++ [edge_of node node_type rname md reverse ct].
Proof. reflexivity. Qed.

Lemma plan_static g g' rels mapped :
  same_static g g' -> plan g' rels mapped = plan g rels mapped.
Proof.
  intros (H1 & H2 & H3 & H4 & H5). revert mapped.
  induction rels as [|d rest IH]; intros mapped; simpl; [reflexivity|].
  unfold drop_component, resolve_name_map, typed. rewrite H1, H3, H4.
  now rewrite !IH.
Qed.

(** The inner loop is [plan] with the edges emitted one after the other. *)
Lemma map_relationships_run node node_type rname md reverse rels mapped g :
  map_relationships node node_type rname md reverse rels mapped g =
  let '(es, r) := plan g rels mapped in
  (match r with
   | None => Return (mapped ++ map fst es)
   | Some c => Raise (ComponentNotFound c)
   end,
   fold_left (emit node node_type rname md reverse) es g).
Proof.
  revert mapped g. induction rels as [|d rest IH]; intros mapped g.
  - simpl. now rewrite app_nil_r.
  - cbn [map_relationships plan]. rewrite run_bind.
    change (get g) with (Return g, g). cbv beta iota.
    destruct (drop_component g d); [apply IH|].
    destruct (bool_decide (resolve_name_map g d ∈ mapped)); [apply IH|].
    rewrite run_bind, resolve_typed.
    destruct (typed g (resolve_name_map g d)) as [t|]; [|reflexivity].
    set (c := resolve_name_map g d).
    assert (Hstep : forall k : M (list string),
               ((let '(src_node, src_node_type, dest_node, dest_node_type) :=
                   if reverse then (c, t, node, node_type)
                   else (node, node_type, c, t) in
                 record_relationship src_node_type dest_node_type rname;;
                 create_relationship src_node_type "name" src_node
                   dest_node_type "name" dest_node rname md;; k) g)
               = k (emit node node_type rname md reverse g (c, t))).
    { intros k. now destruct reverse. }
    rewrite Hstep, IH, (plan_static g _ _ _ (emit_static _ _ _ _ _ _ _)).
    destruct (plan g rest (mapped ++ [c])) as [es r]. simpl.
    now rewrite <- app_assoc.
Qed.

Lemma fold_emit_static node node_type rname md reverse es g :
  same_static g (fold_left (emit node node_type rname md reverse) es g).
Proof.
  revert g. induction es as [|ct es IH]; intros g; simpl.
  - apply same_static_refl.
  - eapply same_static_trans; [apply emit_static|apply IH].
Qed.

Lemma fold_emit_GRAPH node node_type rname md reverse es g :
  GRAPH (fold_left (emit node node_type rname md reverse) es g)
  = GRAPH g ++ map (edge_of node node_type rname md reverse) es.
Proof.
  revert g. induction es as [|ct es IH]; intros g; simpl.
  - now rewrite app_nil_r.
  - now rewrite IH, emit_GRAPH, <- app_assoc.
Qed.

Lemma token_end_edge_of node node_type rname md reverse ct :
  token_end reverse (edge_of node node_type rname md reverse ct) = fst ct.
Proof. now destruct reverse. Qed.

Lemma wildcard_flag_edge_of node node_type rname md reverse ct :
  wildcard_flag (edge_of node node_type rname md reverse ct) = dict_get md "all".
Proof. now destruct reverse. Qed.

(** Where [plan] stops: the tokens before the failing one are planned in
    full, the failing one is neither dropped nor a repetition, and its name
    has no type. *)
Lemma plan_stops g rels mapped es c :
  plan g rels mapped = (es, Some c) ->
  exists pre t post,
    rels = pre ++ t :: post
    /\ plan g pre mapped = (es, None)
    /\ drop_component g t = false
    /\ resolve_name_map g t = c
    /\ (c ∉ mapped ++ map fst es)
    /\ typed g c = None.
Proof.
  revert mapped es. induction rels as [|d rest IH]; intros mapped es; simpl;
    [discriminate|].
  destruct (drop_component g d) eqn:Hdrop.
  { intros H. destruct (IH _ _ H) as (pre & t & post & -> & Hpre & Hrest).
    exists (d :: pre), t, post. simpl. rewrite Hdrop. now split. }
  destruct (bool_decide (resolve_name_map g d ∈ mapped)) eqn:Hseen.
  { intros H. destruct (IH _ _ H) as (pre & t & post & -> & Hpre & Hrest).
    exists (d :: pre), t, post. simpl. rewrite Hdrop, Hseen. now split. }
  destruct (typed g (resolve_name_map g d)) as [ty|] eqn:Hty.
  - destruct (plan g rest (mapped ++ [resolve_name_map g d])) as [es' r] eqn:Hp.
    intros [= <- ->].
    destruct (IH _ _ Hp) as (pre & t & post & -> & Hpre & Hd & Hc & Hnot & Hnone).
    exists (d :: pre), t, post. simpl. rewrite Hdrop, Hseen, Hty, Hpre.
    repeat split; try assumption. now rewrite <- app_assoc in Hnot.
  - intros [= <- <-]. exists [], d, rest. simpl.
    apply bool_decide_eq_false in Hseen. rewrite app_nil_r. now repeat split.
Qed.

(** The accumulator of the loop against the specification. *)
Lemma plan_first_seen g rels mapped es :
  plan g rels mapped = (es, None) ->
  map fst es = filter (fun x => x ∉ mapped) (first_seen (candidates g rels)).
Proof.
  revert mapped es. induction rels as [|d rest IH]; intros mapped es; simpl.
  - now intros [= <-].
  - unfold candidates. rewrite filter_cons.
    destruct (drop_component g d) eqn:Hdrop.
    { rewrite decide_False by discriminate. apply IH. }
    rewrite decide_True by reflexivity. cbn [map first_seen].
    fold (candidates g rest). rewrite filter_cons, list_filter_filter.
    destruct (bool_decide (resolve_name_map g d ∈ mapped)) eqn:Hseen.
    + apply bool_decide_eq_true in Hseen. rewrite decide_False by tauto.
      intros H. rewrite (IH _ _ H). apply list_filter_iff.
      intros x. split; [|tauto]. intros Hx. split; [assumption|]. congruence.
    + apply bool_decide_eq_false in Hseen. rewrite decide_True by assumption.
      destruct (typed g (resolve_name_map g d)) as [ty|]; [|discriminate].
      destruct (plan g rest (mapped ++ [resolve_name_map g d])) as [es' r] eqn:Hp.
      intros [= <- ->]. simpl. f_equal. rewrite (IH _ _ Hp).
      apply list_filter_iff. intros x.
      rewrite elem_of_app, list_elem_of_singleton. tauto.
Qed.

Lemma first_seen_elem l x : x ∈ first_seen l <-> x ∈ l.
Proof.
  induction l as [|y l IH]; simpl; [reflexivity|].
  rewrite !elem_of_cons, list_elem_of_filter, IH.
  destruct (decide (x = y)); tauto.
Qed.

Lemma first_seen_NoDup l : NoDup (first_seen l).
Proof.
  induction l as [|y l IH]; simpl; [constructor|].
  constructor.
  - rewrite list_elem_of_filter. tauto.
  - now apply NoDup_filter.
Qed.

Lemma filter_not_in_nil (l : list string) :
  filter (fun x => x ∉ @nil string) l = l.
Proof.
  induction l as [|y l IH]; [reflexivity|].
  rewrite filter_cons, decide_True by apply not_elem_of_nil. now rewrite IH.
Qed.

Lemma filter_absent (l : list string) x :
  x ∉ l -> filter (fun y => y = x) l = [].
Proof.
  induction l as [|y l IH]; intros Hx; [reflexivity|].
  rewrite not_elem_of_cons in Hx. destruct Hx as [Hne Hx].
  rewrite filter_cons, decide_False by congruence. now apply IH.
Qed.

Lemma count_NoDup (l : list string) x :
  NoDup l -> x ∈ l -> length (filter (fun y => y = x) l) = 1.
Proof.
  induction 1 as [|y l Hy Hnd IH]; intros Hx; [inversion Hx|].
  rewrite filter_cons. destruct (decide (y = x)) as [->|Hne].
  - simpl. now rewrite filter_absent.
  - apply IH. inversion Hx; subst; [contradiction|assumption].
Qed.

Lemma filter_map_length {A : Type} (f : A -> string) x (l : list A) :
  length (filter (fun a => f a = x) l)
  = length (filter (fun y => y = x) (map f l)).
Proof.
  induction l as [|a l IH]; simpl; [reflexivity|].
  rewrite !filter_cons. destruct (decide (f a = x)); simpl; now rewrite IH.
Qed.

(** ** The edge loop, one row (C1, C3, C4, C6) *)

Lemma edge_row_run node d rname expansion reverse g :
  edge_row (node, Some d, rname, expansion, reverse) g =
  match typed g (resolve_name_map g node) with
  | None => (Raise (ComponentNotFound (resolve_name_map g node)), g)
  | Some node_type =>
      if is_all (tokens d) && negb (bool_decide (is_Some expansion))
      then (Raise NoneNotIterable, g)
      else
        (map_relationships (resolve_name_map g node) node_type rname
           [("all", is_all (tokens d))] reverse
           (row_relationships g d expansion) [];; mret tt) g
  end.
Proof.
  unfold edge_row. rewrite run_bind. change (get g) with (Return g, g).
  cbv beta iota. rewrite run_bind, resolve_typed.
  destruct (typed g (resolve_name_map g node)) as [node_type|]; [|reflexivity].
  unfold row_relationships. rewrite run_bind.
  destruct (is_all (tokens d)); [destruct expansion as [e|]|]; reflexivity.
Qed.

(** What a row with a non-null destination cell leaves behind. *)
Lemma edge_row_edges node d rname expansion reverse g o g' :
  edge_row (node, Some d, rname, expansion, reverse) g = (o, g') ->
  same_static g g'
  /\ exists es,
      GRAPH g' = GRAPH g ++ es
      /\ (forall w, w ∈ es -> wildcard_flag w = Some (is_all (tokens d)))
      /\ (o = Return tt ->
          map (token_end reverse) es
          = first_seen (candidates g (row_relationships g d expansion))).
Proof.
  rewrite edge_row_run.
  destruct (typed g (resolve_name_map g node)) as [node_type|].
  2: { intros [= <- <-]. split; [apply same_static_refl|]. exists [].
       rewrite app_nil_r. repeat split; [|discriminate].
       intros w Hw. inversion Hw. }
  destruct (is_all (tokens d) && negb (bool_decide (is_Some expansion))).
  { intros [= <- <-]. split; [apply same_static_refl|]. exists [].
    rewrite app_nil_r. repeat split; [|discriminate].
    intros w Hw. inversion Hw. }
  rewrite run_bind, map_relationships_run.
  destruct (plan g (row_relationships g d expansion) []) as [es r] eqn:Hplan.
  set (node' := resolve_name_map g node).
  set (md := [("all", is_all (tokens d))]).
  intros Hrun.
  assert (Hg' : g' = fold_left (emit node' node_type rname md reverse) es g).
  { destruct r; now inversion Hrun. }
  subst g'. split; [apply fold_emit_static|].
  exists (map (edge_of node' node_type rname md reverse) es).
  split; [apply fold_emit_GRAPH|]. split.
  - intros w Hw. apply list_elem_of_fmap in Hw as (ct & -> & _).
    rewrite wildcard_flag_edge_of. reflexivity.
  - intros ->. destruct r as [c|]; [discriminate|].
    apply plan_first_seen in Hplan.
    rewrite filter_not_in_nil in Hplan.
    rewrite <- Hplan, map_map. apply map_ext. intros ct.
    apply token_end_edge_of.
Qed.

(** C1, as the code has it.  When the edge loop raises [ComponentNotFound]
    for a destination of a row, the tokens of the row before the failing one
    have been processed as if the row ended there: their edges are with the
    driver and stay there, and no edge exists for the failing name. *)
Theorem C1_edges_before_the_failure_are_kept
    (g g' : store) (node d rname : string) (expansion : option (list string))
    (reverse : bool) (node_type c : string) :
  resolve_name_to_type (resolve_name_map g node) g = (Return node_type, g) ->
  edge_row (node, Some d, rname, expansion, reverse) g
  = (Raise (ComponentNotFound c), g') ->
  exists pre t post mapped es,
    row_relationships g d expansion = pre ++ t :: post
    /\ drop_component g t = false
    /\ resolve_name_map g t = c
    /\ resolve_name_to_type c g = (Raise (ComponentNotFound c), g)
    /\ map_relationships (resolve_name_map g node) node_type rname
         [("all", is_all (tokens d))] reverse pre [] g = (Return mapped, g')
    /\ GRAPH g' = GRAPH g ++ es
    /\ map (token_end reverse) es = mapped
    /\ c ∉ mapped.
Proof.
  intros Hsrc. rewrite resolve_typed in Hsrc. rewrite edge_row_run.
  destruct (typed g (resolve_name_map g node)) as [nt|]; [|discriminate].
  injection Hsrc as ->.
  destruct (is_all (tokens d) && negb (bool_decide (is_Some expansion)));
    [discriminate|].
  rewrite run_bind, map_relationships_run.
  destruct (plan g (row_relationships g d expansion) []) as [es r] eqn:Hplan.
  destruct r as [c'|]; [|discriminate]. intros [= -> <-].
  destruct (plan_stops _ _ _ _ _ Hplan)
    as (pre & t & post & Hrels & Hpre & Hdrop & Hres & Hnot & Hnone).
  exists pre, t, post, (map fst es),
    (map (edge_of (resolve_name_map g node) node_type rname
            [("all", is_all (tokens d))] reverse) es).
  repeat split; try assumption.
  - rewrite resolve_typed, Hnone. reflexivity.
  - rewrite map_relationships_run, Hpre. reflexivity.
  - apply fold_emit_GRAPH.
  - rewrite map_map. apply map_ext. intros ct. apply token_end_edge_of.
Qed.

Lemma C1_edges_before_the_failure_are_kept_witness :
  exists pre t post mapped es,
    row_relationships sample_store "Near-RT RIC, Ghost, O-DU" None
    = pre ++ t :: post
    /\ drop_component sample_store t = false
    /\ resolve_name_map sample_store t = "Ghost"
    /\ resolve_name_to_type "Ghost" sample_store
       = (Raise (ComponentNotFound "Ghost"), sample_store)
    /\ map_relationships (resolve_name_map sample_store "A1 Interface")
         "Interface" "CONNECTS"
         [("all", is_all (tokens "Near-RT RIC, Ghost, O-DU"))] false pre []
         sample_store
       = (Return mapped,
          snd (edge_row ("A1 Interface", Some "Near-RT RIC, Ghost, O-DU",
                         "CONNECTS", None, false) sample_store))
    /\ GRAPH (snd (edge_row ("A1 Interface", Some "Near-RT RIC, Ghost, O-DU",
                             "CONNECTS", None, false) sample_store))
       = GRAPH sample_store ++ es
    /\ map (token_end false) es = mapped
    /\ "Ghost" ∉ mapped.
Proof.
  apply (C1_edges_before_the_failure_are_kept sample_store); reflexivity.
Defined.

(** C1 as stated fails: the row raises at its second token, and the edge of
    its first token has been created all the same. *)
Lemma C1_counterexample :
  edge_row ("A1 Interface", Some "Near-RT RIC, Ghost", "CONNECTS", None, false)
    sample_store
  = (Raise (ComponentNotFound "Ghost"),
     set_RELATIONSHIPS [("Interface", ["--CONNECTS--> Component"])]
       (set_GRAPH
          [CreateRelationship "Interface" "name" "A1 Interface"
             "Component" "name" "Near-RT RIC" "CONNECTS" [("all", false)]]
          sample_store)).
Proof. reflexivity. Qed.

(** C3.  A row whose destination cell splits into the single token "all", in
    any case, is materialised as the inner loop over the expansion base with
    the flag ["all"] true: every edge it creates carries the flag, and when
    the row completes the destinations are those of the base after
    [get_expansions], the drop list, the alias table and deduplication, in
    that order.  For every other destination cell every edge carries the
    flag false.  (The base may also be empty.) *)
Theorem C3_wildcard_row :
  (forall g node d t rname base reverse,
      tokens d = [t] -> Py.lower t = "all" ->
      edge_row (node, Some d, rname, Some base, reverse) g
      = (node_type ← resolve_name_to_type (resolve_name_map g node);
         map_relationships (resolve_name_map g node) node_type rname
           [("all", true)] reverse (flat_map (get_expansions g) base) [];;
         mret tt) g
      /\ forall o g',
          edge_row (node, Some d, rname, Some base, reverse) g = (o, g') ->
          exists es,
            GRAPH g' = GRAPH g ++ es
            /\ (forall w, w ∈ es -> wildcard_flag w = Some true)
            /\ (o = Return tt ->
                map (token_end reverse) es
                = first_seen (candidates g (flat_map (get_expansions g) base))))
  /\ (forall g node d rname expansion reverse o g',
        ~ (exists t, tokens d = [t] /\ Py.lower t = "all") ->
        edge_row (node, Some d, rname, expansion, reverse) g = (o, g') ->
        exists es,
          GRAPH g' = GRAPH g ++ es
          /\ forall w, w ∈ es -> wildcard_flag w = Some false).
Proof.
  split.
  - intros g node d t rname base reverse Htok Hall.
    assert (His : is_all (tokens d) = true).
    { rewrite Htok. simpl. rewrite Hall. reflexivity. }
    assert (Hrels : row_relationships g d (Some base)
                    = flat_map (get_expansions g) base).
    { unfold row_relationships. now rewrite His. }
    split.
    + rewrite edge_row_run, run_bind, resolve_typed, His, Hrels.
      destruct (typed g (resolve_name_map g node)); reflexivity.
    + intros o g' Hrun.
      destruct (edge_row_edges _ _ _ _ _ _ _ _ Hrun) as (_ & es & HG & Hflag & Hds).
      rewrite His in Hflag. rewrite Hrels in Hds. now exists es.
  - intros g node d rname expansion reverse o g' Hnot Hrun.
    assert (His : is_all (tokens d) = false).
    { unfold is_all. destruct (tokens d) as [|t [|t' l]]; try reflexivity.
      destruct (String.eqb (Py.lower t) "all") eqn:E; [|reflexivity].
      exfalso. apply Hnot. exists t. apply String.eqb_eq in E. now split. }
    destruct (edge_row_edges _ _ _ _ _ _ _ _ Hrun) as (_ & es & HG & Hflag & _).
    rewrite His in Hflag. now exists es.
Qed.

Lemma C3_wildcard_row_witness :
  exists es,
    GRAPH (snd (edge_row ("T-O-RAN-01", Some " ALL", "TARGETS",
                          Some ["Near-RT RIC"; "Non-RT-RIC"; "Non-RT RIC"], false)
                  sample_store))
    = GRAPH sample_store ++ es
    /\ (forall w, w ∈ es -> wildcard_flag w = Some true)
    /\ (Return tt = Return tt ->
        map (token_end false) es
        = first_seen (candidates sample_store
                        (flat_map (get_expansions sample_store)
                           ["Near-RT RIC"; "Non-RT-RIC"; "Non-RT RIC"]))).
Proof.
  refine (proj2 (proj1 C3_wildcard_row sample_store "T-O-RAN-01" " ALL" "ALL"
                   "TARGETS" ["Near-RT RIC"; "Non-RT-RIC"; "Non-RT RIC"] false
                   _ _) (Return tt) _ _); reflexivity.
Defined.

(** C4.  When a row completes, the destinations of its edges are the
    candidates of the row (tokens off the drop list, resolved), each once and
    at the place of its first occurrence; so two different spellings in the
    row that resolve to one canonical name, one of them at least off the drop
    list, give exactly one edge to that name. *)
Theorem C4_one_edge_per_canonical_name
    (g g' : store) (node d rname : string) (expansion : option (list string))
    (reverse : bool) (t1 t2 : string) :
  edge_row (node, Some d, rname, expansion, reverse) g = (Return tt, g') ->
  t1 ∈ row_relationships g d expansion ->
  t2 ∈ row_relationships g d expansion ->
  t1 <> t2 ->
  resolve_name_map g t1 = resolve_name_map g t2 ->
  drop_component g t1 = false \/ drop_component g t2 = false ->
  exists es,
    GRAPH g' = GRAPH g ++ es
    /\ map (token_end reverse) es
       = first_seen (candidates g (row_relationships g d expansion))
    /\ length (filter (fun w => token_end reverse w = resolve_name_map g t1) es)
       = 1.
Proof.
  intros Hrun Ht1 Ht2 _ Hsame Hdrop.
  destruct (edge_row_edges _ _ _ _ _ _ _ _ Hrun) as (_ & es & HG & _ & Hds).
  specialize (Hds eq_refl). exists es. repeat split; try assumption.
  rewrite filter_map_length, Hds.
  apply count_NoDup; [apply first_seen_NoDup|].
  apply first_seen_elem. unfold candidates.
  destruct Hdrop as [Hd|Hd].
  - apply list_elem_of_fmap. exists t1. split; [reflexivity|].
    apply list_elem_of_filter. now split.
  - rewrite Hsame. apply list_elem_of_fmap. exists t2. split; [reflexivity|].
    apply list_elem_of_filter. now split.
Qed.

Lemma C4_one_edge_per_canonical_name_witness :
  exists es,
    GRAPH (snd (edge_row ("T-O-RAN-01", Some "Non-RT-RIC, O-DU, Non-RT RIC",
                          "TARGETS", None, false) sample_store))
    = GRAPH sample_store ++ es
    /\ map (token_end false) es
       = first_seen (candidates sample_store
                       (row_relationships sample_store
                          "Non-RT-RIC, O-DU, Non-RT RIC" None))
    /\ length (filter (fun w => token_end false w
                                = resolve_name_map sample_store "Non-RT-RIC") es)
       = 1.
Proof.
  apply (C4_one_edge_per_canonical_name sample_store _ "T-O-RAN-01"
           "Non-RT-RIC, O-DU, Non-RT RIC" "TARGETS" None false
           "Non-RT-RIC" "Non-RT RIC").
  - reflexivity.
  - apply list_elem_of_In. simpl. tauto.
  - apply list_elem_of_In. simpl. tauto.
  - discriminate.
  - reflexivity.
  - left. reflexivity.
Defined.

Example two_spellings_one_edge :
  GRAPH (snd (edge_row ("T-O-RAN-01", Some "Non-RT-RIC, O-DU, Non-RT RIC",
                        "TARGETS", None, false) sample_store))
  = [ CreateRelationship "Threat" "name" "T-O-RAN-01" "Component" "name"
        "Non-RT RIC" "TARGETS" [("all", false)];
      CreateRelationship "Threat" "name" "T-O-RAN-01" "Component" "name"
        "O-DU" "TARGETS" [("all", false)] ].
Proof. reflexivity. Qed.

(** C6, as the code has it.  A row whose destination cell is null ([pd.isna])
    and whose source name, once resolved, is registered is skipped: nothing
    is raised, the store is untouched, and the loop goes on with the rows
    that follow. *)
Theorem C6_null_destination_is_skipped
    (g : store) (node rname : string) (expansion : option (list string))
    (reverse : bool) (node_type : string) (rest : list rel_tuple) :
  resolve_name_to_type (resolve_name_map g node) g = (Return node_type, g) ->
  edge_row (node, None, rname, expansion, reverse) g = (Return tt, g)
  /\ edge_loop ((node, None, rname, expansion, reverse) :: rest) g
     = edge_loop rest g.
Proof.
  intros Hsrc.
  assert (Hrow : edge_row (node, None, rname, expansion, reverse) g
                 = (Return tt, g)).
  { unfold edge_row. rewrite run_bind. change (get g) with (Return g, g).
    cbv beta iota. now rewrite run_bind, Hsrc. }
  split; [exact Hrow|]. cbn [edge_loop]. now rewrite run_bind, Hrow.
Qed.

Lemma C6_null_destination_is_skipped_witness :
  edge_row ("T-O-RAN-01", None, "TARGETS", None, false) sample_store
  = (Return tt, sample_store)
  /\ edge_loop [("T-O-RAN-01", None, "TARGETS", None, false);
                ("A1 Interface", Some "Near-RT RIC", "CONNECTS", None, false)]
       sample_store
     = edge_loop [("A1 Interface", Some "Near-RT RIC", "CONNECTS", None, false)]
         sample_store.
Proof.
  apply (C6_null_destination_is_skipped sample_store "T-O-RAN-01" "TARGETS"
           None false "Threat"). reflexivity.
Defined.

(** C6 as stated fails twice: an empty destination cell is not null, it is
    split into one empty token, which has no type; and a null destination
    cell does not keep the source name from being resolved first. *)
Lemma C6_counterexample :
  edge_row ("A1 Interface", Some "", "CONNECTS", None, false) sample_store
  = (Raise (ComponentNotFound ""), sample_store)
  /\ edge_row ("Ghost", None, "CONNECTS", None, false) sample_store
     = (Raise (ComponentNotFound "Ghost"), sample_store).
Proof. split; reflexivity. Qed.

(** ** The master CSV (C9) *)

(** *** Header union *)

Lemma list_remove_elem p l x :
  p ∈ l -> (x ∈ list_remove p l ++ [p] <-> x ∈ l).
Proof.
  induction l as [|y l IH]; intros Hp; [inversion Hp|]. simpl.
  destruct (String.eqb y p) eqn:E.
  - apply String.eqb_eq in E. subst y.
    rewrite elem_of_app, list_elem_of_singleton, elem_of_cons. tauto.
  - apply String.eqb_neq in E.
    assert (Hp' : p ∈ l) by (inversion Hp; subst; [congruence|assumption]).
    specialize (IH Hp'). simpl. rewrite !elem_of_cons, IH. tauto.
Qed.

Lemma push_last_elem p out x : x ∈ push_last p out <-> x ∈ out.
Proof.
  unfold push_last. destruct (bool_decide (p ∈ out)) eqn:E; [|reflexivity].
  apply bool_decide_eq_true in E. now apply list_remove_elem.
Qed.

Lemma union_loop_elem incoming out (seen : gset string) x :
  (forall y, y ∈ seen <-> y ∈ out) ->
  (x ∈ union_loop incoming out seen <-> x ∈ out \/ x ∈ incoming).
Proof.
  revert out seen. induction incoming as [|h rest IH]; intros out seen Hseen; simpl.
  - rewrite elem_of_nil. tauto.
  - destruct (bool_decide (h ∈ seen)) eqn:E.
    + apply bool_decide_eq_true, Hseen in E.
      rewrite (IH out seen Hseen), elem_of_cons.
      split; [tauto|]. intros [H|[->|H]]; tauto.
    + rewrite (IH (out ++ [h]) ({[h]} ∪ seen)).
      * rewrite elem_of_app, list_elem_of_singleton, elem_of_cons. tauto.
      * intros y. rewrite elem_of_union, elem_of_singleton, elem_of_app,
          list_elem_of_singleton, Hseen. tauto.
Qed.

(** Unless both lists are empty, the union has the columns of the two lists
    and no other. *)
Lemma union_headers_elem existing incoming x :
  existing ++ incoming <> [] ->
  (x ∈ _union_headers existing incoming <-> x ∈ existing \/ x ∈ incoming).
Proof.
  intros Hne. unfold _union_headers.
  set (out := push_last "__source_doc"
                (push_last "__source_file"
                   (union_loop incoming existing (list_to_set existing)))).
  assert (Hout : forall y, y ∈ out <-> y ∈ existing \/ y ∈ incoming).
  { intros y. unfold out. rewrite !push_last_elem. apply union_loop_elem.
    intros z. apply elem_of_list_to_set. }
  destruct out as [|o out'] eqn:E.
  - exfalso. destruct existing as [|e ex].
    + destruct incoming as [|i inc]; [now apply Hne|].
      assert (H : i ∈ @nil string) by (apply Hout; right; constructor).
      inversion H.
    + assert (H : e ∈ @nil string) by (apply Hout; left; constructor).
      inversion H.
  - apply Hout.
Qed.

(** *** Row dictionaries *)

Lemma get_or_empty_fill headers r c :
  get_or_empty (fill headers r) c = get_or_empty r c.
Proof.
  unfold get_or_empty, fill. simpl. generalize (fields r) as d.
  induction headers as [|k ks IH]; intros d; simpl; [reflexivity|].
  rewrite IH. unfold dict_setdefault, dict_in.
  destruct (dict_get d k) as [v|] eqn:E; [reflexivity|].
  destruct (String.eqb k c) eqn:Ekc.
  - apply String.eqb_eq in Ekc. subst c. now rewrite dict_get_set_eq, E.
  - apply String.eqb_neq in Ekc. rewrite dict_get_set_ne by congruence.
    reflexivity.
Qed.

Lemma norm_row_fill headers r cols :
  _norm_row (fill headers r) cols = _norm_row r cols.
Proof.
  unfold _norm_row. apply map_ext. intros c. now rewrite get_or_empty_fill.
Qed.

Lemma fill_keys headers r k :
  k ∈ dict_keys (fields (fill headers r))
  <-> k ∈ dict_keys (fields r) \/ k ∈ headers.
Proof.
  unfold fill. simpl. generalize (fields r) as d.
  induction headers as [|h hs IH]; intros d; simpl.
  - rewrite elem_of_nil. tauto.
  - rewrite IH, elem_of_cons. unfold dict_setdefault.
    destruct (dict_in h d) eqn:E.
    + apply dict_in_keys in E. split; [tauto|]. intros [H|[->|H]]; tauto.
    + rewrite dict_keys_set_elem. tauto.
Qed.

Lemma zip_fields_get (f : string -> string) ks acc c :
  dict_get (zip_fields ks (map f ks) acc) c
  = if bool_decide (c ∈ ks) then Some (Some (f c)) else dict_get acc c.
Proof.
  revert acc. induction ks as [|k ks IH]; intros acc; [reflexivity|].
  cbn [map zip_fields]. rewrite IH.
  destruct (bool_decide (c ∈ ks)) eqn:E.
  - apply bool_decide_eq_true in E.
    rewrite bool_decide_eq_true_2 by (now constructor). reflexivity.
  - apply bool_decide_eq_false in E. destruct (decide (c = k)) as [->|Hne].
    + rewrite bool_decide_eq_true_2 by constructor. apply dict_get_set_eq.
    + rewrite bool_decide_eq_false_2.
      * now apply dict_get_set_ne.
      * rewrite elem_of_cons. tauto.
Qed.

Lemma zip_fields_keys ks vs acc k :
  k ∈ dict_keys (zip_fields ks vs acc) <-> k ∈ dict_keys acc \/ k ∈ ks.
Proof.
  revert vs acc. induction ks as [|h ks IH]; intros vs acc; simpl.
  - rewrite elem_of_nil. tauto.
  - destruct vs as [|v vs]; rewrite IH, dict_keys_set_elem, elem_of_cons; tauto.
Qed.

Lemma none_to_empty_get r c :
  get_or_empty (none_to_empty r) c = get_or_empty r c.
Proof.
  unfold get_or_empty, none_to_empty. simpl.
  induction (fields r) as [|[k v] d IH]; simpl; [reflexivity|].
  destruct (String.eqb k c); [|exact IH]. now destruct v.
Qed.

Lemma none_to_empty_keys r :
  dict_keys (fields (none_to_empty r)) = dict_keys (fields r).
Proof.
  unfold none_to_empty, dict_keys. simpl. rewrite map_map. reflexivity.
Qed.

(** *** Writing and reading back *)

(** The record [csv.DictWriter] writes for a row it accepts. *)
Lemma writerow_fill fieldnames row :
  has_restkey row = false ->
  (forall k, k ∈ dict_keys (fields row) -> k ∈ fieldnames) ->
  writerow fieldnames (fill fieldnames row)
  = Some (map (get_or_empty row) fieldnames).
Proof.
  intros Hrest Hkeys. unfold writerow.
  replace (has_restkey (fill fieldnames row)) with false by (now rewrite <- Hrest).
  rewrite orb_false_l.
  destruct (existsb _ (dict_keys (fields (fill fieldnames row)))) eqn:E.
  - apply existsb_exists in E as (k & Hk & Hbad).
    apply negb_true_iff, bool_decide_eq_false in Hbad.
    apply list_elem_of_In, fill_keys in Hk. exfalso. apply Hbad.
    destruct Hk as [Hk|Hk]; [now apply Hkeys|assumption].
  - f_equal. apply map_ext. intros c. apply get_or_empty_fill.
Qed.

Lemma writerow_Some fieldnames row record :
  writerow fieldnames (fill fieldnames row) = Some record ->
  record = map (get_or_empty row) fieldnames.
Proof.
  unfold writerow.
  destruct (has_restkey (fill fieldnames row) || _); [discriminate|].
  intros [= <-]. apply map_ext. intros c. apply get_or_empty_fill.
Qed.

Lemma write_rows_Return fieldnames rows written t' :
  write_rows fieldnames rows written = (Return tt, t') ->
  t' = {| hdr := hdr written;
          recs := recs written
                  ++ map (fun row => map (get_or_empty row) fieldnames) rows |}.
Proof.
  revert written. induction rows as [|row rows IH]; intros written; simpl.
  - intros [= <-]. rewrite app_nil_r. now destruct written.
  - destruct (writerow fieldnames (fill fieldnames row)) as [record|] eqn:E;
      [|discriminate].
    intros H. apply IH in H. simpl in H. rewrite <- app_assoc in H. simpl in H.
    now rewrite (writerow_Some _ _ _ E) in H.
Qed.

Lemma write_rows_accepts fieldnames rows written :
  (forall row, row ∈ rows ->
     has_restkey row = false
     /\ forall k, k ∈ dict_keys (fields row) -> k ∈ fieldnames) ->
  write_rows fieldnames rows written
  = (Return tt,
     {| hdr := hdr written;
        recs := recs written
                ++ map (fun row => map (get_or_empty row) fieldnames) rows |}).
Proof.
  revert written. induction rows as [|row rows IH]; intros written Hrows; simpl.
  - rewrite app_nil_r. now destruct written.
  - destruct (Hrows row) as [Hrest Hkeys]; [constructor|].
    rewrite (writerow_fill _ _ Hrest Hkeys), IH.
    + simpl. now rewrite <- app_assoc.
    + intros r Hr. apply Hrows. now constructor.
Qed.

Lemma DictReader_written h rows :
  h <> [] ->
  DictReader {| hdr := h;
                recs := map (fun row => map (get_or_empty row) h) rows |}
  = map (fun row => {| fields := zip_fields h (map (get_or_empty row) h) [];
                       has_restkey := false |}) rows.
Proof.
  intros Hh. unfold DictReader. simpl.
  induction rows as [|row rows IH]; [reflexivity|].
  cbn [map]. rewrite filter_cons, decide_True.
  - cbn [map]. rewrite IH. f_equal. f_equal.
    rewrite length_map. apply Nat.ltb_irrefl.
  - rewrite length_map. destruct h; [contradiction|reflexivity].
Qed.

(** A row read back has, in every column of the header, the value that was
    written there. *)
Lemma read_back_get h row c :
  c ∈ h ->
  get_or_empty
    (none_to_empty {| fields := zip_fields h (map (get_or_empty row) h) [];
                      has_restkey := false |}) c
  = get_or_empty row c.
Proof.
  intros Hc. rewrite none_to_empty_get. unfold get_or_empty at 1. simpl.
  now rewrite zip_fields_get, bool_decide_eq_true_2.
Qed.

(** *** The deduplication loop *)

Lemma dedup_loop_covers headers (E : list csvrow) new_rows to_add seen :
  (forall key, key ∈ seen
     <-> exists r0, r0 ∈ E ++ to_add /\ _norm_row r0 headers = key) ->
  exists more,
    fst (dedup_loop headers new_rows to_add seen) = to_add ++ more
    /\ (forall r, r ∈ more -> exists r', r' ∈ new_rows /\ r = fill headers r')
    /\ (forall r, r ∈ new_rows ->
          exists r0, r0 ∈ E ++ to_add ++ more
                     /\ _norm_row r0 headers = _norm_row r headers).
Proof.
  revert to_add seen. induction new_rows as [|r rest IH]; intros to_add seen Hseen.
  - exists []. simpl. rewrite app_nil_r. repeat split.
    + intros r Hr. inversion Hr.
    + intros r Hr. inversion Hr.
  - cbn [dedup_loop].
    destruct (bool_decide (_norm_row (fill headers r) headers ∈ seen)) eqn:Hin.
    + apply bool_decide_eq_true, Hseen in Hin as (r0 & Hr0 & Hnorm).
      rewrite norm_row_fill in Hnorm.
      destruct (IH to_add seen Hseen) as (more & Hfst & Hmore & Hcov).
      exists more. split; [exact Hfst|]. split.
      * intros x Hx. destruct (Hmore x Hx) as (r' & Hr' & ->).
        exists r'. split; [now constructor|reflexivity].
      * intros x Hx. inversion Hx; subst; [|now apply Hcov].
        exists r0. split; [|assumption].
        rewrite elem_of_app in Hr0. rewrite !elem_of_app. tauto.
    + destruct (IH (to_add ++ [fill headers r])
                  ({[_norm_row (fill headers r) headers]} ∪ seen))
        as (more & Hfst & Hmore & Hcov).
      { intros key. rewrite elem_of_union, elem_of_singleton, Hseen. split.
        - intros [->|(r0 & Hr0 & Hnorm)].
          + exists (fill headers r). split; [|reflexivity].
            rewrite !elem_of_app, list_elem_of_singleton. tauto.
          + exists r0. split; [|assumption].
            rewrite elem_of_app in Hr0. rewrite !elem_of_app. tauto.
        - intros (r0 & Hr0 & Hnorm).
          rewrite !elem_of_app, list_elem_of_singleton in Hr0.
          destruct Hr0 as [H|[H| ->]].
          + right. exists r0. split; [|assumption]. rewrite elem_of_app. tauto.
          + right. exists r0. split; [|assumption]. rewrite elem_of_app. tauto.
          + now left. }
      exists (fill headers r :: more). rewrite Hfst, <- app_assoc. split;
        [reflexivity|]. split.
      * intros x Hx. inversion Hx; subst.
        -- exists r. split; [constructor|reflexivity].
        -- destruct (Hmore x) as (r' & Hr' & ->); [assumption|].
           exists r'. split; [now constructor|reflexivity].
      * intros x Hx. inversion Hx; subst.
        -- exists (fill headers r). rewrite norm_row_fill. split; [|reflexivity].
           rewrite !elem_of_app, elem_of_cons. tauto.
        -- destruct (Hcov x) as (r0 & Hr0 & Hnorm); [assumption|].
           exists r0. split; [|assumption].
           rewrite <- app_assoc in Hr0. exact Hr0.
Qed.

Lemma dedup_loop_nothing (headers : list string) (new_rows to_add : list csvrow)
    (seen : gset (list string)) :
  (forall r, r ∈ new_rows -> _norm_row r headers ∈ seen) ->
  dedup_loop headers new_rows to_add seen = (to_add, seen).
Proof.
  induction new_rows as [|r rest IH]; intros Hall; [reflexivity|].
  cbn [dedup_loop]. rewrite bool_decide_eq_true_2.
  - apply IH. intros x Hx. apply Hall. now constructor.
  - rewrite norm_row_fill. apply Hall. constructor.
Qed.

Lemma norm_row_agree (r r0 : csvrow) (cols cols' : list string) :
  _norm_row r0 cols = _norm_row r cols ->
  (forall c, c ∈ cols' -> c ∈ cols) ->
  forall c, c ∈ cols' ->
    Py.strip (get_or_empty r0 c) = Py.strip (get_or_empty r c).
Proof.
  intros Hnorm Hsub c Hc. apply Hsub in Hc. clear Hsub. unfold _norm_row in Hnorm.
  induction cols as [|k ks IH]; [inversion Hc|].
  injection Hnorm as Hk Hks. inversion Hc; subst; [assumption|now apply IH].
Qed.

(** The header and the existing rows [_append_to_master] works with. *)
Lemma append_unfold master_csv headers new_rows :
  _append_to_master master_csv headers new_rows
  = let h1 := merged_header master_csv headers in
    let E1 := existing_rows master_csv in
    let '(to_add, _) :=
      dedup_loop h1 new_rows []
        (list_to_set (map (fun r => _norm_row r h1) E1) : gset (list string)) in
    match write_rows h1 (E1 ++ to_add) {| hdr := h1; recs := [] |} with
    | (Return _, t') => (Return (length to_add, length E1 + length to_add), Some t')
    | (Raise e, t') => (Raise e, Some t')
    end.
Proof. unfold _append_to_master. now destruct master_csv. Qed.

Lemma read_header_elem t c : c ∈ _read_header t -> c ∈ hdr t.
Proof.
  unfold _read_header. destruct (forallb within_limit (hdr t)); [easy|].
  intros H. inversion H.
Qed.

Lemma readable_header t : readable t = true -> _read_header t = hdr t.
Proof.
  unfold readable, _read_header. intros H.
  apply andb_true_iff in H as [H _]. now rewrite H.
Qed.

Lemma readable_rows t :
  readable t = true -> existing_rows (Some t) = map none_to_empty (DictReader t).
Proof. intros H. unfold existing_rows, read_rows. now rewrite H. Qed.

(** The existing rows are rows of [DictReader], and there are some only when
    the header line could be read as well. *)
Lemma existing_rows_elem t r :
  r ∈ existing_rows (Some t) ->
  _read_header t = hdr t /\ r ∈ map none_to_empty (DictReader t).
Proof.
  unfold existing_rows, read_rows. destruct (readable t) eqn:E.
  - intros H. split; [now apply readable_header|exact H].
  - intros H. inversion H.
Qed.

Lemma merged_header_covers master_csv headers :
  headers <> [] ->
  merged_header master_csv headers <> []
  /\ forall c, c ∈ headers -> c ∈ merged_header master_csv headers.
Proof.
  intros Hne.
  assert (Hsub : forall c, c ∈ headers -> c ∈ merged_header master_csv headers).
  { intros c Hc. unfold merged_header. destruct master_csv as [t|]; [|assumption].
    apply union_headers_elem; [|now right].
    intros H. apply app_eq_nil in H as [_ H]. contradiction. }
  split; [|exact Hsub].
  destruct headers as [|c cs]; [contradiction|].
  intros H. specialize (Hsub c ltac:(constructor)). rewrite H in Hsub.
  inversion Hsub.
Qed.

Lemma within_limit_times c n :
  within_limit (times c n) = (N.of_nat n <=? field_size_limit)%N.
Proof.
  unfold within_limit. f_equal. f_equal.
  induction n as [|n IH]; [reflexivity|]. cbn [times String.length]. now rewrite IH.
Qed.

Lemma long_field_over_limit : within_limit long_field = false.
Proof. unfold long_field. rewrite within_limit_times, N2Nat.id. reflexivity. Qed.

(** A master file that cannot be read to the end counts as a file without
    rows: what is left of it is the header line, if that could be read. *)
Lemma append_unreadable t headers new_rows :
  readable t = false ->
  _append_to_master (Some t) headers new_rows
  = _append_to_master (Some {| hdr := _read_header t; recs := [] |})
      headers new_rows.
Proof.
  intros Hbad. rewrite !append_unfold.
  assert (Hh : _read_header {| hdr := _read_header t; recs := [] |}
               = _read_header t).
  { unfold _read_header at 1. cbn [hdr]. unfold _read_header.
    destruct (forallb within_limit (hdr t)) eqn:E; [now rewrite E|reflexivity]. }
  assert (HE : existing_rows (Some {| hdr := _read_header t; recs := [] |}) = []).
  { unfold existing_rows, read_rows.
    destruct (readable {| hdr := _read_header t; recs := [] |}); reflexivity. }
  unfold merged_header. rewrite Hh, HE.
  unfold existing_rows, read_rows. now rewrite Hbad.
Qed.

(** C9, as the code has it.  With a non-empty header list, as
    [_iter_run_rows] always supplies, an append that has completed and has
    left a file the reader gets through (no field over the limit of 131072
    characters) can be repeated with the same rows: the second append
    completes, adds no row and reports the same total, which is the number
    of records of the master file after either append. *)
Theorem C9_append_twice_adds_nothing
    (master_csv : option table) (headers : list string)
    (new_rows : list csvrow) (added total : nat) (master1 : option table) :
  headers <> [] ->
  _append_to_master master_csv headers new_rows
  = (Return (added, total), master1) ->
  can_be_read master1 ->
  exists master2,
    _append_to_master master1 headers new_rows = (Return (0, total), master2)
    /\ row_count master1 = total
    /\ row_count master2 = total.
Proof.
  intros Hne. rewrite append_unfold.
  destruct (merged_header_covers master_csv headers Hne) as [Hh1 Hsub].
  set (h1 := merged_header master_csv headers) in *.
  set (E1 := existing_rows master_csv).
  cbv zeta.
  set (seen1 := list_to_set (map (fun r => _norm_row r h1) E1) : gset (list string)).
  destruct (dedup_loop_covers h1 E1 new_rows [] seen1)
    as (more & Hfst & _ & Hcov).
  { intros key. unfold seen1. rewrite elem_of_list_to_set, app_nil_r.
    rewrite list_elem_of_fmap. split; intros (r0 & H1 & H2); exists r0; now split. }
  destruct (dedup_loop h1 new_rows [] seen1) as [A1 s1]. simpl in Hfst. subst A1.
  simpl in Hcov.
  destruct (write_rows h1 (E1 ++ more) {| hdr := h1; recs := [] |})
    as [[[]|e] t1] eqn:Hw; [|discriminate].
  intros [= <- <- <-] Hread. apply write_rows_Return in Hw. simpl in Hw. subst t1.
  (* the second append *)
  cbn [can_be_read] in Hread.
  rewrite append_unfold. unfold merged_header.
  rewrite (readable_rows _ Hread), (readable_header _ Hread). cbn [hdr].
  rewrite (DictReader_written h1 (E1 ++ more) Hh1).
  set (back := fun row => {| fields := zip_fields h1 (map (get_or_empty row) h1) [];
                             has_restkey := false |}).
  set (h2 := _union_headers h1 headers).
  set (E2 := map none_to_empty (map back (E1 ++ more))).
  cbv zeta.
  assert (Hh2 : forall c, c ∈ h2 <-> c ∈ h1).
  { intros c. unfold h2. rewrite union_headers_elem.
    - split; [|tauto]. intros [H|H]; [assumption|now apply Hsub].
    - intros H. apply app_eq_nil in H as [H _]. contradiction. }
  assert (HlenE2 : length E2 = length E1 + length more).
  { unfold E2. now rewrite !length_map, length_app. }
  rewrite dedup_loop_nothing.
  2: { intros r Hr. destruct (Hcov r Hr) as (r0 & Hr0 & Hnorm).
       apply elem_of_list_to_set, list_elem_of_fmap.
       exists (none_to_empty (back r0)). split.
       - unfold _norm_row. apply map_ext_in. intros c Hc.
         apply list_elem_of_In, Hh2 in Hc. unfold back.
         rewrite (read_back_get h1 r0 c Hc). symmetry.
         apply (norm_row_agree r r0 h1 h1 Hnorm); [tauto|assumption].
       - unfold E2. apply list_elem_of_fmap. exists (back r0).
         split; [reflexivity|]. apply list_elem_of_fmap. now exists r0. }
  rewrite app_nil_r, write_rows_accepts.
  2: { intros row Hrow. unfold E2 in Hrow.
       apply list_elem_of_fmap in Hrow as (b & -> & Hb).
       apply list_elem_of_fmap in Hb as (r0 & -> & _). split; [reflexivity|].
       intros k Hk. rewrite none_to_empty_keys in Hk. unfold back in Hk.
       simpl in Hk. apply zip_fields_keys in Hk as [Hk|Hk]; [inversion Hk|].
       now apply Hh2. }
  eexists. split; [|split].
  - simpl. now rewrite Nat.add_0_r, HlenE2.
  - simpl. now rewrite length_map, length_app.
  - simpl. now rewrite length_map.
Qed.

Lemma C9_append_twice_adds_nothing_witness :
  exists master2,
    _append_to_master
      (snd (_append_to_master sample_master sample_headers sample_batch))
      sample_headers sample_batch
    = (Return (0, 2), master2)
    /\ row_count (snd (_append_to_master sample_master sample_headers sample_batch))
       = 2
    /\ row_count master2 = 2.
Proof.
  apply (C9_append_twice_adds_nothing sample_master sample_headers sample_batch 1).
  - discriminate.
  - vm_compute. reflexivity.
  - vm_compute. reflexivity.
Defined.

Example append_first_run :
  _append_to_master sample_master sample_headers sample_batch
  = (Return (1, 2),
     Some {| hdr := ["Name"; "Type"; "Reference"; "__source_file"];
             recs := [["Jamming"; "Attack"; ""; "a.csv"];
                      ["Spoofing"; "Attack"; "[7]"; "b.csv"]] |}).
Proof. vm_compute. reflexivity. Qed.

(** One row with one column, appended to a master file that does not exist
    or holds the header line only. *)
Lemma append_one_row (master_csv : option table) (s : string) :
  master_csv = None \/ master_csv = Some {| hdr := ["Name"]; recs := [] |} ->
  _append_to_master master_csv ["Name"]
    [ {| fields := [("Name", Some s)]; has_restkey := false |} ]
  = (Return (1, 1), Some {| hdr := ["Name"]; recs := [[s]] |}).
Proof.
  intros Hm. rewrite append_unfold.
  assert (Hh : merged_header master_csv ["Name"] = ["Name"])
    by (destruct Hm as [-> | ->]; reflexivity).
  assert (HE : existing_rows master_csv = [])
    by (destruct Hm as [-> | ->]; reflexivity).
  rewrite Hh, HE. cbv zeta. cbn [map dedup_loop].
  rewrite bool_decide_eq_false_2 by (rewrite elem_of_list_to_set; inversion 1).
  cbn [dedup_loop app].
  rewrite write_rows_accepts.
  - cbn [hdr recs app map length]. reflexivity.
  - intros row Hrow. apply list_elem_of_singleton in Hrow. subst row.
    split; [reflexivity|]. intros k Hk. apply fill_keys in Hk as [Hk|Hk];
      [exact Hk|exact Hk].
Qed.

(** C9 as stated fails: a row with a field of 131073 characters is written
    by the first append; the second append cannot read the file back, takes
    it to have no rows, and adds the row again. *)
Lemma C9_counterexample :
  let batch := [ {| fields := [("Name", Some long_field)];
                    has_restkey := false |} ] in
  let first := _append_to_master None ["Name"] batch in
  first = (Return (1, 1), Some {| hdr := ["Name"]; recs := [[long_field]] |})
  /\ within_limit long_field = false
  /\ _append_to_master (snd first) ["Name"] batch
     = (Return (1, 1), Some {| hdr := ["Name"]; recs := [[long_field]] |}).
Proof.
  cbv zeta. rewrite (append_one_row None long_field) by now left.
  split; [reflexivity|]. split; [exact long_field_over_limit|].
  cbn [snd]. rewrite append_unreadable.
  - apply append_one_row. right. reflexivity.
  - unfold readable. cbn [hdr recs forallb].
    rewrite long_field_over_limit. reflexivity.
Qed.

(** Without a header the second append does add a row: the empty row was
    written as a blank line, which the reader skips. *)
Example append_without_header :
  let batch := [ {| fields := []; has_restkey := false |} ] in
  let first := _append_to_master None [] batch in
  fst first = Return (1, 1)
  /\ fst (_append_to_master (snd first) [] batch) = Return (1, 1).
Proof. vm_compute. split; reflexivity. Qed.

(** An append completes when no record of the master file is longer than
    its header and every new row has its keys among the headers. *)
Lemma append_to_master_returns master_csv headers new_rows :
  headers <> [] ->
  rectangular master_csv ->
  (forall r, r ∈ new_rows ->
     has_restkey r = false
     /\ forall k, k ∈ dict_keys (fields r) -> k ∈ headers) ->
  exists added total master1,
    _append_to_master master_csv headers new_rows
    = (Return (added, total), master1).
Proof.
  intros Hne Hrect Hrows. rewrite append_unfold.
  destruct (merged_header_covers master_csv headers Hne) as [Hh1 Hsub].
  set (h1 := merged_header master_csv headers) in *.
  set (E1 := existing_rows master_csv).
  cbv zeta.
  set (seen1 := list_to_set (map (fun r => _norm_row r h1) E1) : gset (list string)).
  destruct (dedup_loop_covers h1 E1 new_rows [] seen1)
    as (more & Hfst & Hmore & _).
  { intros key. unfold seen1. rewrite elem_of_list_to_set, app_nil_r.
    rewrite list_elem_of_fmap. split; intros (r0 & H1 & H2); exists r0; now split. }
  destruct (dedup_loop h1 new_rows [] seen1) as [A1 s1]. simpl in Hfst. subst A1.
  rewrite write_rows_accepts; [now eexists _, _, _|].
  intros row Hrow. apply elem_of_app in Hrow as [Hrow|Hrow].
  - unfold E1 in Hrow. destruct master_csv as [t|]; [|inversion Hrow].
    apply existing_rows_elem in Hrow as [Hhdr Hrow].
    apply list_elem_of_fmap in Hrow as (r0 & -> & Hr0). unfold DictReader in Hr0.
    apply list_elem_of_fmap in Hr0 as (record & -> & Hrec).
    apply list_elem_of_filter in Hrec as [_ Hrec]. split.
    + simpl. apply Nat.ltb_ge. now apply Hrect.
    + intros k Hk. rewrite none_to_empty_keys in Hk. simpl in Hk.
      apply zip_fields_keys in Hk as [Hk|Hk]; [inversion Hk|].
      unfold h1, merged_header. rewrite Hhdr.
      apply union_headers_elem; [|now left].
      intros H. apply app_eq_nil in H as [_ H]. contradiction.
  - destruct (Hmore row Hrow) as (r' & Hr' & ->).
    destruct (Hrows r' Hr') as [Hrest Hkeys]. split; [exact Hrest|].
    intros k Hk. apply fill_keys in Hk as [Hk|Hk]; [|assumption].
    apply Hsub. now apply Hkeys.
Qed.

(** ** The whole script on a small input *)

Example end_to_end :
  main
    [ {| reg_df := [[("Component", Some "A1 Interface")];
                    [("Component", Some "Near-RT RIC")]];
         reg_key_col := "Component";
         reg_component_type := "Component";
         reg_metadata_cols := None |} ]
    [ {| exp_df := [[("Interface", Some "A1 Interface");
                     ("Connects", Some "Near-RT RIC")]];
         exp_src := "Interface";
         exp_dst := "Connects";
         exp_relationship := "CONNECTS";
         exp_expansion := None;
         exp_reverse := false |} ]
    initial_store
  = (Return tt,
     {| TYPES_MAP := [("A1 Interface", "Component"); ("Near-RT RIC", "Component")];
        NODE_METADATA := [];
        NAMES_MAP := shipped_NAMES_MAP;
        DROP_COMPONENTS := [];
        EXPANSIONS := [];
        RELATIONSHIPS := [("Component", ["--CONNECTS--> Component"])];
        GRAPH :=
          [ InsertRow "Component" [("name", Some "A1 Interface")];
            InsertRow "Component" [("name", Some "Near-RT RIC")];
            CreateRelationship "Component" "name" "A1 Interface"
              "Component" "name" "Near-RT RIC" "CONNECTS" [("all", false)] ] |}).
Proof. vm_compute. reflexivity. Qed.

(* ===================================================================== *)
(** * More of helpers.py and of the node loop                            *)
(* ===================================================================== *)

(** ** [cleanup_string] *)

Lemma lower_char_idem c : Py.lower_char (Py.lower_char c) = Py.lower_char c.
Proof. destruct c as [[] [] [] [] [] [] [] []]; reflexivity. Qed.

Lemma lower_idem s : Py.lower (Py.lower s) = Py.lower s.
Proof.
  induction s as [|c s IH]; simpl; [reflexivity|].
  now rewrite lower_char_idem, IH.
Qed.

Lemma lower_append s1 s2 : Py.lower (s1 +:+ s2) = Py.lower s1 +:+ Py.lower s2.
Proof. induction s1 as [|c s1 IH]; simpl; [reflexivity|]. now rewrite IH. Qed.

(** Replacing by a lower-case string keeps a lower-case string lower-case. *)
Lemma lower_replace old new s :
  Py.lower new = new -> Py.lower s = s ->
  Py.lower (Py.replace old new s) = Py.replace old new s.
Proof.
  intros Hnew. induction s as [|c s IH]; simpl; [reflexivity|].
  intros [= Hc Hs]. destruct (Ascii.eqb c old).
  - now rewrite lower_append, Hnew, IH.
  - simpl. now rewrite Hc, IH.
Qed.

Lemma contains_replace_self old new s :
  Py.contains old new = false -> Py.contains old (Py.replace old new s) = false.
Proof.
  intros Hnew. induction s as [|c s IH]; simpl; [reflexivity|].
  destruct (Ascii.eqb c old) eqn:E.
  - now rewrite contains_append, Hnew, IH.
  - simpl. now rewrite E, IH.
Qed.

Lemma replace_absent old new s :
  Py.contains old s = false -> Py.replace old new s = s.
Proof.
  induction s as [|c s IH]; simpl; [reflexivity|].
  intros H. apply orb_false_iff in H as [Hc Hs]. now rewrite Hc, IH.
Qed.

(** X1.  The result of [cleanup_string] is lower-case and holds none of the
    characters [' '], [':'], ['/'], ['('], [')'], ['.']; sanitising a sanitised
    key changes nothing. *)
Theorem cleanup_string_is_clean_and_idempotent (s : string) :
  Py.lower (cleanup_string s) = cleanup_string s
  /\ Py.contains " " (cleanup_string s) = false
  /\ Py.contains ":" (cleanup_string s) = false
  /\ Py.contains "/" (cleanup_string s) = false
  /\ Py.contains "(" (cleanup_string s) = false
  /\ Py.contains ")" (cleanup_string s) = false
  /\ Py.contains "." (cleanup_string s) = false
  /\ cleanup_string (cleanup_string s) = cleanup_string s.
Proof.
  assert (Hlow : Py.lower (cleanup_string s) = cleanup_string s).
  { unfold cleanup_string.
    repeat (apply lower_replace; [reflexivity|]). apply lower_idem. }
  assert (H1 : Py.contains " " (cleanup_string s) = false).
  { unfold cleanup_string. rewrite !contains_replace by reflexivity.
    now apply contains_replace_self. }
  assert (H2 : Py.contains ":" (cleanup_string s) = false).
  { unfold cleanup_string. rewrite !contains_replace by reflexivity.
    now apply contains_replace_self. }
  assert (H3 : Py.contains "/" (cleanup_string s) = false).
  { unfold cleanup_string. rewrite !contains_replace by reflexivity.
    now apply contains_replace_self. }
  assert (H4 : Py.contains "(" (cleanup_string s) = false).
  { unfold cleanup_string. rewrite !contains_replace by reflexivity.
    now apply contains_replace_self. }
  assert (H5 : Py.contains ")" (cleanup_string s) = false).
  { unfold cleanup_string. rewrite !contains_replace by reflexivity.
    now apply contains_replace_self. }
  assert (H6 : Py.contains "." (cleanup_string s) = false).
  { unfold cleanup_string. now apply contains_replace_self. }
  repeat split; try assumption.
  unfold cleanup_string at 1. rewrite Hlow.
  now rewrite (replace_absent " " _ _ H1), (replace_absent ":" _ _ H2),
    (replace_absent "/" _ _ H3), (replace_absent "(" _ _ H4),
    (replace_absent ")" _ _ H5), (replace_absent "." _ _ H6).
Qed.

(** ** [cleanup_key_names] and the row of a node *)

Lemma find_app_last {A : Type} (P : A -> bool) (l : list A) (a : A) :
  find P (l ++ [a])
  = match find P l with
    | Some x => Some x
    | None => if P a then Some a else None
    end.
Proof.
  induction l as [|x l IH]; simpl; [reflexivity|].
  destruct (P x); [reflexivity|exact IH].
Qed.

(** A dictionary built by successive assignments: the last assignment to a
    key decides its value. *)
Lemma fold_set_get {A V : Type} (f : A -> string) (h : A -> V)
    (l : list A) (acc : dict V) (k : string) :
  dict_get (fold_left (fun acc a => dict_set acc (f a) (h a)) l acc) k
  = match find (fun a => String.eqb (f a) k) (rev l) with
    | Some a => Some (h a)
    | None => dict_get acc k
    end.
Proof.
  revert acc. induction l as [|a l IH]; intros acc; [reflexivity|].
  cbn [fold_left]. rewrite IH. cbn [rev]. rewrite find_app_last.
  destruct (find (fun a0 => String.eqb (f a0) k) (rev l)); [reflexivity|].
  destruct (String.eqb (f a) k) eqn:E.
  - apply String.eqb_eq in E. subst k. apply dict_get_set_eq.
  - apply String.eqb_neq in E. apply dict_get_set_ne. congruence.
Qed.

Lemma fold_set_NoDup {A V : Type} (f : A -> string) (h : A -> V)
    (l : list A) (acc : dict V) :
  NoDup (dict_keys acc) ->
  NoDup (dict_keys (fold_left (fun acc a => dict_set acc (f a) (h a)) l acc)).
Proof.
  revert acc. induction l as [|a l IH]; intros acc Hacc; [exact Hacc|].
  cbn [fold_left]. apply IH. now apply dict_keys_set_NoDup.
Qed.

(** X2.  [cleanup_key_names] keeps one entry per sanitised key: when several
    keys of the input sanitise to the same key, the value of the last of them
    is the one that stays; a sanitised key that no input key gives is
    absent. *)
Theorem cleanup_key_names_last_wins (d : dict (option string)) (k : string) :
  NoDup (dict_keys (cleanup_key_names d))
  /\ dict_get (cleanup_key_names d) k
     = match find (fun kv => String.eqb (cleanup_string (fst kv)) k) (rev d) with
       | Some kv => Some (snd kv)
       | None => None
       end.
Proof.
  split.
  - unfold cleanup_key_names.
    apply (fold_set_NoDup (fun kv => cleanup_string (fst kv)) snd). constructor.
  - unfold cleanup_key_names.
    now rewrite (fold_set_get (fun kv => cleanup_string (fst kv)) snd).
Qed.

Example cleanup_key_names_collision :
  cleanup_key_names [("Spec. Issue", Some "a"); ("URL", Some "u");
                     ("spec  issue", Some "b")]
  = [("spec__issue", Some "b"); ("url", Some "u")].
Proof. reflexivity. Qed.

Lemma cleanup_key_names_get_None (d : dict (option string)) (k : string) :
  (forall k0, k0 ∈ dict_keys d -> cleanup_string k0 <> k) ->
  dict_get (cleanup_key_names d) k = None.
Proof.
  intros Hno. unfold cleanup_key_names.
  rewrite (fold_set_get (fun kv => cleanup_string (fst kv)) snd).
  destruct (find _ (rev d)) as [[k0 v]|] eqn:E; [|reflexivity].
  apply find_some in E as [Hin Heq]. simpl in Heq. apply String.eqb_eq in Heq.
  exfalso. apply (Hno k0); [|assumption].
  apply in_rev, list_elem_of_In in Hin. unfold dict_keys.
  apply list_elem_of_fmap. now exists (k0, v).
Qed.

Lemma find_rev_NoDup {V : Type} (d : dict V) (k : string) :
  NoDup (dict_keys d) ->
  match find (fun a => String.eqb (fst a) k) (rev d) with
  | Some a => Some (snd a)
  | None => None
  end = dict_get d k.
Proof.
  induction d as [|[k0 v0] d IH]; intros Hnd; [reflexivity|].
  apply NoDup_cons in Hnd as [Hk0 Hnd]. cbn [rev dict_get].
  rewrite find_app_last. simpl fst. destruct (String.eqb k0 k) eqn:E.
  - apply String.eqb_eq in E. subst k0.
    destruct (find (fun a => String.eqb (fst a) k) (rev d)) as [[k1 v1]|] eqn:F;
      [|reflexivity].
    apply find_some in F as [Hin Heq]. simpl in Heq. apply String.eqb_eq in Heq.
    subst k1. exfalso. apply Hk0. apply in_rev, list_elem_of_In in Hin.
    unfold dict_keys. apply list_elem_of_fmap. now exists (k, v1).
  - rewrite <- (IH Hnd).
    now destruct (find (fun a => String.eqb (fst a) k) (rev d)).
Qed.

(** X3.  The row built for a node always has the key ["name"].  Its value is
    the node's name unless a metadata key sanitises to ["name"]: then
    [row.update] has replaced the name by that metadata value. *)
Theorem node_row_name (node : string) (md : option (dict (option string))) :
  is_Some (dict_get (node_row node md) "name")
  /\ ((forall k, k ∈ metadata_keys md -> cleanup_string k <> "name") ->
      dict_get (node_row node md) "name" = Some (Some node))
  /\ (forall d v, md = Some d ->
        dict_get (cleanup_key_names d) "name" = Some v ->
        dict_get (node_row node md) "name" = Some v).
Proof.
  assert (Hrow : forall d,
            dict_get (node_row node (Some d)) "name"
            = match dict_get (cleanup_key_names d) "name" with
              | Some v => Some v
              | None => Some (Some node)
              end).
  { intros d. unfold node_row. destruct d as [|kv d]; [reflexivity|].
    assert (Hnd : NoDup (dict_keys (cleanup_key_names (kv :: d)))).
    { unfold cleanup_key_names.
      apply (fold_set_NoDup (fun kv => cleanup_string (fst kv)) snd).
      constructor. }
    destruct (cleanup_key_names (kv :: d)) as [|kv' d'] eqn:E; [reflexivity|].
    unfold dict_update. rewrite (fold_set_get fst snd).
    rewrite <- (find_rev_NoDup (kv' :: d') "name" Hnd).
    now destruct (find _ (rev (kv' :: d'))). }
  split; [|split].
  - destruct md as [d|]; [|now eexists].
    rewrite Hrow. destruct (dict_get (cleanup_key_names d) "name"); now eexists.
  - intros Hno. destruct md as [d|]; [|reflexivity].
    rewrite Hrow, cleanup_key_names_get_None; [reflexivity|exact Hno].
  - intros d v -> Hv. now rewrite Hrow, Hv.
Qed.

Lemma node_row_name_witness :
  dict_get (node_row "O-DU" (Some [("Vendor", Some "A")])) "name"
  = Some (Some "O-DU").
Proof.
  apply (proj1 (proj2 (node_row_name "O-DU" (Some [("Vendor", Some "A")])))).
  intros k Hk. simpl in Hk. apply list_elem_of_singleton in Hk. subst k.
  discriminate.
Defined.

(** A metadata column called "Name" takes the place of the node's name. *)
Example node_row_name_overwritten :
  node_row "T-01" (Some [("Name", Some "Jamming"); ("Owner", Some "x")])
  = [("name", Some "Jamming"); ("owner", Some "x")].
Proof. reflexivity. Qed.

(** ** The tokens of a destination cell *)

Lemma lstrip_cases s :
  Py.lstrip s = EmptyString
  \/ exists c t, Py.lstrip s = String c t /\ Py.isspace c = false.
Proof.
  induction s as [|c s IH]; simpl; [now left|].
  destruct (Py.isspace c) eqn:E; [exact IH|]. right. now exists c, s.
Qed.

Lemma rstrip_head c t :
  Py.isspace c = false -> exists r, Py.rstrip (String c t) = String c r.
Proof.
  intros Hc. simpl. destruct (Py.rstrip t) as [|c' r'].
  - rewrite Hc. now exists EmptyString.
  - now exists (String c' r').
Qed.

Lemma rstrip_idem s : Py.rstrip (Py.rstrip s) = Py.rstrip s.
Proof.
  induction s as [|c s IH]; [reflexivity|]. simpl.
  destruct (Py.rstrip s) as [|c' r'] eqn:E.
  - destruct (Py.isspace c) eqn:Hc; [reflexivity|]. simpl. now rewrite Hc.
  - change (Py.rstrip (String c (String c' r')))
      with (match Py.rstrip (String c' r') with
            | EmptyString =>
                if Py.isspace c then EmptyString else String c EmptyString
            | String a r => String c (String a r)
            end).
    now rewrite IH.
Qed.

Lemma strip_idem s : Py.strip (Py.strip s) = Py.strip s.
Proof.
  unfold Py.strip. destruct (lstrip_cases s) as [H|(c & t & H & Hc)]; rewrite H.
  - reflexivity.
  - destruct (rstrip_head c t Hc) as [r Hr]. rewrite Hr.
    cbn [Py.lstrip]. rewrite Hc.
    pose proof (rstrip_idem (String c t)) as Hidem. now rewrite Hr in Hidem.
Qed.

Lemma split_go_nonempty sep skip cur s : Py.split_go sep skip cur s <> [].
Proof.
  revert skip cur. induction s as [|c s IH]; intros skip cur;
    cbn [Py.split_go]; [discriminate|].
  destruct skip; [|apply IH].
  destruct (String.prefix sep (String c s)); [discriminate|apply IH].
Qed.

(** X4.  A destination cell always gives at least one token (the empty cell
    gives one empty token), and every token is trimmed: stripping it again
    changes nothing. *)
Theorem tokens_nonempty_and_trimmed (relationships : string) :
  tokens relationships <> []
  /\ forall t, t ∈ tokens relationships -> Py.strip t = t.
Proof.
  unfold tokens. split.
  - intros H. apply map_eq_nil in H. revert H. apply split_go_nonempty.
  - intros t Ht. apply list_elem_of_fmap in Ht as (r & -> & _). apply strip_idem.
Qed.

(* ===================================================================== *)
(** * More of the node loop and of the edge loop                         *)
(* ===================================================================== *)

(** ** The node loop *)

Lemma node_plan_static g g' nodes :
  same_static g g' -> node_plan g' nodes = node_plan g nodes.
Proof.
  intros (H1 & H2 & _). induction nodes as [|n rest IH]; [reflexivity|].
  cbn [node_plan]. unfold typed, get_node_metadata. rewrite H1, H2.
  now rewrite IH.
Qed.

Lemma insert_of_static g g' n :
  same_static g g' -> insert_of g' n = insert_of g n.
Proof.
  intros (H1 & H2 & _). unfold insert_of, typed, get_node_metadata.
  now rewrite H1, H2.
Qed.

(** The node loop is [node_plan] with the rows sent one after the other. *)
Lemma create_nodes_run nodes g :
  create_nodes nodes g =
  let '(done, r) := node_plan g nodes in
  (match r with None => Return tt | Some e => Raise e end,
   set_GRAPH (GRAPH g ++ map (insert_of g) done) g).
Proof.
  revert g. induction nodes as [|n rest IH]; intros g.
  - simpl. rewrite app_nil_r. now destruct g.
  - cbn [create_nodes node_plan]. rewrite run_bind, resolve_typed.
    destruct (typed g n) as [t|] eqn:Ht.
    2: { simpl. rewrite app_nil_r. now destruct g. }
    rewrite run_bind. change (get g) with (Return g, g). cbv beta iota.
    rewrite run_bind. unfold insert_row.
    destruct (find (Py.contains "-")
                (dict_keys (node_row n (get_node_metadata g n)))) as [key|].
    { simpl. rewrite app_nil_r. now destruct g. }
    change (tx_run (InsertRow t (node_row n (get_node_metadata g n))) g)
      with (Return tt,
            set_GRAPH (GRAPH g ++ [InsertRow t (node_row n (get_node_metadata g n))]) g).
    cbv beta iota. rewrite IH.
    set (g1 := set_GRAPH _ g).
    assert (Hs : same_static g g1) by (now repeat split).
    rewrite (node_plan_static g g1 rest Hs).
    destruct (node_plan g rest) as [done r]. f_equal.
    assert (Hm : map (insert_of g1) done = map (insert_of g) done).
    { apply map_ext. intros m. now apply insert_of_static. }
    assert (Hx : InsertRow t (node_row n (get_node_metadata g n)) = insert_of g n).
    { unfold insert_of. now rewrite Ht. }
    rewrite Hm. unfold g1. rewrite Hx. cbn [map]. simpl GRAPH.
    now rewrite <- app_assoc.
Qed.

Lemma node_plan_prefix g nodes :
  exists rest,
    nodes = fst (node_plan g nodes) ++ rest
    /\ (snd (node_plan g nodes) = None <-> rest = [])
    /\ Forall (fun n => is_Some (typed g n)
                        /\ find (Py.contains "-")
                             (dict_keys (node_row n (get_node_metadata g n)))
                           = None)
         (fst (node_plan g nodes)).
Proof.
  induction nodes as [|n nodes IH]; [now exists []|].
  cbn [node_plan]. destruct (typed g n) as [t|] eqn:Ht.
  2: { exists (n :: nodes). repeat split; try discriminate. constructor. }
  destruct (find _ _) as [key|] eqn:Hf.
  { exists (n :: nodes). repeat split; try discriminate. constructor. }
  destruct IH as (rest & Hnodes & Hnone & Hall).
  destruct (node_plan g nodes) as [done r]. simpl in *.
  exists rest. split; [now f_equal|]. split; [exact Hnone|].
  constructor; [|exact Hall]. split; [now exists t|assumption].
Qed.

Lemma node_plan_split g nodes :
  exists rest,
    nodes = fst (node_plan g nodes) ++ rest
    /\ Forall (fun n => is_Some (typed g n)
                        /\ forall k,
                             k ∈ dict_keys (node_row n (get_node_metadata g n)) ->
                             Py.contains "-" k = false)
         (fst (node_plan g nodes))
    /\ match rest with
       | [] => snd (node_plan g nodes) = None
       | n :: _ =>
           match typed g n with
           | None => snd (node_plan g nodes) = Some (ComponentNotFound n)
           | Some _ =>
               exists key,
                 find (Py.contains "-")
                   (dict_keys (node_row n (get_node_metadata g n))) = Some key
                 /\ snd (node_plan g nodes) = Some (HyphenInKey key)
           end
       end.
Proof.
  induction nodes as [|n nodes IH]; [exists []; now repeat split|].
  cbn [node_plan]. destruct (typed g n) as [t|] eqn:Ht.
  2: { exists (n :: nodes). cbn [fst snd app]. rewrite Ht.
       repeat split. constructor. }
  destruct (find _ _) as [key|] eqn:Hf.
  { exists (n :: nodes). cbn [fst snd app]. rewrite Ht, Hf.
    split; [reflexivity|]. split; [constructor|]. now exists key. }
  destruct IH as (rest & Hnodes & Hall & Hstop).
  destruct (node_plan g nodes) as [done r]. cbn [fst snd] in *.
  exists rest. split; [cbn [app]; now f_equal|]. split; [|exact Hstop].
  constructor; [|exact Hall]. split; [now exists t|].
  intros k Hk. apply list_elem_of_In in Hk.
  destruct (Py.contains "-" k) eqn:E; [|reflexivity].
  now rewrite (find_none _ _ Hf k Hk) in E.
Qed.

(** X5.  The node loop on nodes whose rows have no key that is a parameter
    name of [run].  It sends one [insert_row] per node, in the order of the
    list and labelled with the node's registered type, for every node up to
    the first one that has no type or whose row has a key with a hyphen: the
    nodes sent all have a type and no such key, and the loop stops at that
    first node with the error of its case, "not found" for the node or the
    hyphen error for the first such key of its row.  It returns normally
    when no node stops it, and it changes nothing of the store but the calls
    received by the driver. *)
Theorem create_nodes_sends_one_row_per_node (all_nodes : list string) (g : store) :
  Forall (fun n => plain_keys (node_row n (get_node_metadata g n)) = true)
    all_nodes ->
  exists done rest,
    all_nodes = done ++ rest
    /\ snd (create_nodes all_nodes g)
       = set_GRAPH (GRAPH g ++ map (insert_of g) done) g
    /\ Forall (fun n => is_Some (typed g n)
                        /\ forall k,
                             k ∈ dict_keys (node_row n (get_node_metadata g n)) ->
                             Py.contains "-" k = false)
         done
    /\ match rest with
       | [] => fst (create_nodes all_nodes g) = Return tt
       | n :: _ =>
           match typed g n with
           | None =>
               fst (create_nodes all_nodes g) = Raise (ComponentNotFound n)
           | Some _ =>
               exists key,
                 find (Py.contains "-")
                   (dict_keys (node_row n (get_node_metadata g n))) = Some key
                 /\ fst (create_nodes all_nodes g) = Raise (HyphenInKey key)
           end
       end.
Proof.
  intros _.
  destruct (node_plan_split g all_nodes) as (rest & Hnodes & Hall & Hstop).
  exists (fst (node_plan g all_nodes)), rest.
  rewrite create_nodes_run. destruct (node_plan g all_nodes) as [done r].
  cbn [fst snd] in *. split; [exact Hnodes|]. split; [reflexivity|].
  split; [exact Hall|].
  destruct rest as [|n rest]; [now rewrite Hstop|].
  destruct (typed g n); [|now rewrite Hstop].
  destruct Hstop as (key & Hf & ->). now exists key.
Qed.

(** A registry with a node whose metadata has a key with a hyphen: the node
    before it is sent, the loop stops at it and the node after it is not
    reached. *)
Lemma create_nodes_sends_one_row_per_node_witness :
  let g := set_NODE_METADATA [("O-DU", [("Spec-Issue", Some "yes")])] sample_store in
  exists done rest,
    ["Near-RT RIC"; "O-DU"; "A1 Interface"] = done ++ rest
    /\ snd (create_nodes ["Near-RT RIC"; "O-DU"; "A1 Interface"] g)
       = set_GRAPH (GRAPH g ++ map (insert_of g) done) g
    /\ Forall (fun n => is_Some (typed g n)
                        /\ forall k,
                             k ∈ dict_keys (node_row n (get_node_metadata g n)) ->
                             Py.contains "-" k = false)
         done
    /\ match rest with
       | [] => fst (create_nodes ["Near-RT RIC"; "O-DU"; "A1 Interface"] g)
               = Return tt
       | n :: _ =>
           match typed g n with
           | None =>
               fst (create_nodes ["Near-RT RIC"; "O-DU"; "A1 Interface"] g)
               = Raise (ComponentNotFound n)
           | Some _ =>
               exists key,
                 find (Py.contains "-")
                   (dict_keys (node_row n (get_node_metadata g n))) = Some key
                 /\ fst (create_nodes ["Near-RT RIC"; "O-DU"; "A1 Interface"] g)
                    = Raise (HyphenInKey key)
           end
       end.
Proof.
  apply (create_nodes_sends_one_row_per_node
           ["Near-RT RIC"; "O-DU"; "A1 Interface"]
           (set_NODE_METADATA [("O-DU", [("Spec-Issue", Some "yes")])] sample_store)).
  repeat constructor.
Defined.

Example create_nodes_stops_at_hyphen :
  let g := set_NODE_METADATA [("O-DU", [("Spec-Issue", Some "yes")])] sample_store in
  create_nodes ["Near-RT RIC"; "O-DU"; "A1 Interface"] g
  = (Raise (HyphenInKey "spec-issue"),
     set_GRAPH (GRAPH g ++ [insert_of g "Near-RT RIC"]) g).
Proof. vm_compute. reflexivity. Qed.

(** ** What the edge loop leaves behind *)

Lemma plan_typed g rels mapped :
  Forall (fun ct => typed g (fst ct) = Some (snd ct)) (fst (plan g rels mapped)).
Proof.
  revert mapped. induction rels as [|d rest IH]; intros mapped; [constructor|].
  cbn [plan]. destruct (drop_component g d); [apply IH|].
  destruct (bool_decide _); [apply IH|].
  destruct (typed g (resolve_name_map g d)) as [t|] eqn:Ht; [|constructor].
  specialize (IH (mapped ++ [resolve_name_map g d])).
  destruct (plan g rest _) as [es r]. simpl in *. now constructor.
Qed.

Lemma edge_of_ok g node node_type rname md reverse ct :
  typed g node = Some node_type -> typed g (fst ct) = Some (snd ct) ->
  edge_ok g (edge_of node node_type rname md reverse ct).
Proof. intros Hn Hc. unfold edge_of. destruct reverse; simpl; tauto. Qed.

Lemma edge_ok_static g g' w : same_static g g' -> edge_ok g w -> edge_ok g' w.
Proof.
  intros (H1 & _). destruct w; [exact (fun H => H)|].
  unfold edge_ok, typed. now rewrite H1.
Qed.

Lemma set_add_elem x a l : x ∈ set_add a l <-> x = a \/ x ∈ l.
Proof.
  unfold set_add. destruct (bool_decide (a ∈ l)) eqn:E.
  - apply bool_decide_eq_true in E. split; [tauto|]. now intros [->|H].
  - rewrite elem_of_app, list_elem_of_singleton. tauto.
Qed.

Lemma emit_recorded node node_type rname md reverse g ct :
  recorded (emit node node_type rname md reverse g ct)
    (source_type_of (edge_of node node_type rname md reverse ct))
    (adjacency_of (edge_of node node_type rname md reverse ct))
  /\ forall s a, recorded g s a ->
                 recorded (emit node node_type rname md reverse g ct) s a.
Proof.
  unfold recorded, emit, edge_of. split.
  - destruct reverse; simpl; rewrite dict_get_set_eq; simpl;
      apply set_add_elem; now left.
  - intros s a Ha.
    set (src := if reverse then snd ct else node_type).
    set (dst := if reverse then node_type else snd ct).
    assert (Hr : RELATIONSHIPS
                   (snd ((record_relationship src dst rname;;
                          tx_run (if reverse
                                  then CreateRelationship (snd ct) "name" (fst ct)
                                         node_type "name" node rname md
                                  else CreateRelationship node_type "name" node
                                         (snd ct) "name" (fst ct) rname md)) g))
                 = dict_set (RELATIONSHIPS g) src
                     (set_add ("--" +:+ rname +:+ "--> " +:+ dst)
                        (default [] (dict_get (RELATIONSHIPS g) src))))
      by reflexivity.
    rewrite Hr. destruct (decide (s = src)) as [->|Hne].
    + rewrite dict_get_set_eq. simpl. apply set_add_elem. now right.
    + now rewrite dict_get_set_ne.
Qed.

Lemma fold_emit_recorded node node_type rname md reverse es g :
  (forall ct, ct ∈ es ->
     recorded (fold_left (emit node node_type rname md reverse) es g)
       (source_type_of (edge_of node node_type rname md reverse ct))
       (adjacency_of (edge_of node node_type rname md reverse ct)))
  /\ forall s a, recorded g s a ->
       recorded (fold_left (emit node node_type rname md reverse) es g) s a.
Proof.
  revert g. induction es as [|ct es IH]; intros g.
  - split; [intros ct Hct; inversion Hct|now intros].
  - cbn [fold_left].
    destruct (IH (emit node node_type rname md reverse g ct)) as [Hes Hmono].
    destruct (emit_recorded node node_type rname md reverse g ct) as [Hct Hkeep].
    split.
    + intros ct' Hin. inversion Hin; subst; [now apply Hmono|now apply Hes].
    + intros s a Ha. now apply Hmono, Hkeep.
Qed.

(** Everything a row of the edge loop does to the store. *)
Lemma edge_row_effect rel g :
  same_static g (snd (edge_row rel g))
  /\ (forall s a, recorded g s a -> recorded (snd (edge_row rel g)) s a)
  /\ exists es,
      GRAPH (snd (edge_row rel g)) = GRAPH g ++ es
      /\ Forall (edge_ok g) es
      /\ forall w, w ∈ es ->
           recorded (snd (edge_row rel g)) (source_type_of w) (adjacency_of w).
Proof.
  assert (Hnothing : forall o, 
            same_static g (snd (o, g))
            /\ (forall s a, recorded g s a -> recorded (snd (o : outcome unit, g)) s a)
            /\ exists es, GRAPH (snd (o, g)) = GRAPH g ++ es
                          /\ Forall (edge_ok g) es
                          /\ forall w, w ∈ es ->
                               recorded (snd (o, g)) (source_type_of w)
                                 (adjacency_of w)).
  { intros o. split; [apply same_static_refl|]. split; [now intros|].
    exists []. rewrite app_nil_r. repeat split; [constructor|].
    intros w Hw. inversion Hw. }
  destruct rel as [[[[node [d|]] rname] expansion] reverse].
  2: { unfold edge_row. rewrite run_bind. change (get g) with (Return g, g).
       cbv beta iota. rewrite run_bind, resolve_typed.
       destruct (typed g (resolve_name_map g node)); apply Hnothing. }
  rewrite edge_row_run.
  destruct (typed g (resolve_name_map g node)) as [node_type|] eqn:Hn;
    [|apply Hnothing].
  destruct (is_all (tokens d) && negb (bool_decide (is_Some expansion)));
    [apply Hnothing|].
  rewrite run_bind, map_relationships_run.
  pose proof (plan_typed g (row_relationships g d expansion) []) as Hty.
  destruct (plan g (row_relationships g d expansion) []) as [es r].
  set (node' := resolve_name_map g node) in *.
  set (md := [("all", is_all (tokens d))]).
  simpl in Hty.
  assert (Hsnd : forall (o : outcome (list string)) (g1 : store),
            snd (let (o', g') := (o, g1) in
                 match o' with
                 | Return _ => mret (M := M) tt g'
                 | Raise e => (Raise e, g')
                 end) = g1)
    by (now intros [l|e] g1).
  rewrite Hsnd.
  destruct (fold_emit_recorded node' node_type rname md reverse es g)
    as [Hrec Hmono].
  split; [apply fold_emit_static|]. split; [exact Hmono|].
  exists (map (edge_of node' node_type rname md reverse) es).
  split; [apply fold_emit_GRAPH|]. split.
  - apply Forall_forall. intros w Hw.
    apply list_elem_of_fmap in Hw as (ct & -> & Hct).
    apply edge_of_ok; [exact Hn|].
    rewrite Forall_forall in Hty. now apply Hty.
  - intros w Hw. apply list_elem_of_fmap in Hw as (ct & -> & Hct).
    now apply Hrec.
Qed.

Lemma edge_loop_effect rels g :
  same_static g (snd (edge_loop rels g))
  /\ (forall s a, recorded g s a -> recorded (snd (edge_loop rels g)) s a)
  /\ exists es,
      GRAPH (snd (edge_loop rels g)) = GRAPH g ++ es
      /\ Forall (edge_ok g) es
      /\ forall w, w ∈ es ->
           recorded (snd (edge_loop rels g)) (source_type_of w) (adjacency_of w).
Proof.
  revert g. induction rels as [|rel rest IH]; intros g.
  - simpl. split; [apply same_static_refl|]. split; [now intros|].
    exists []. rewrite app_nil_r. repeat split; [constructor|].
    intros w Hw. inversion Hw.
  - cbn [edge_loop]. rewrite run_bind.
    destruct (edge_row_effect rel g) as (Hs1 & Hm1 & es1 & HG1 & Hok1 & Hrec1).
    destruct (edge_row rel g) as [[[]|e] g1]; simpl in Hs1, Hm1, HG1, Hrec1.
    + destruct (IH g1) as (Hs2 & Hm2 & es2 & HG2 & Hok2 & Hrec2).
      split; [eapply same_static_trans; eassumption|].
      split; [intros s a Ha; now apply Hm2, Hm1|].
      exists (es1 ++ es2). split; [now rewrite HG2, HG1, app_assoc|]. split.
      * apply Forall_app. split; [exact Hok1|].
        eapply Forall_impl; [exact Hok2|]. intros w Hw.
        apply (edge_ok_static g1 g); [|exact Hw].
        destruct Hs1 as (H1 & H2 & H3 & H4 & H5). now repeat split.
      * intros w Hw. apply elem_of_app in Hw as [Hw|Hw];
          [now apply Hm2, Hrec1|now apply Hrec2].
    + simpl. split; [exact Hs1|]. split; [exact Hm1|]. now exists es1.
Qed.

(** X6.  The edge loop only adds to the calls received by the driver, and
    what it adds are edges between registered names: both ends matched by
    ["name"], each under the type the registry gives it.  The registry, the
    metadata and the alias, drop and expansion tables are left as they
    were, whether the loop returns or raises. *)
Theorem edge_loop_adds_only_typed_edges (all_relationships : list rel_tuple)
    (g : store) :
  same_static g (snd (edge_loop all_relationships g))
  /\ exists es,
      GRAPH (snd (edge_loop all_relationships g)) = GRAPH g ++ es
      /\ Forall (edge_ok g) es.
Proof.
  destruct (edge_loop_effect all_relationships g) as (Hs & _ & es & HG & Hok & _).
  split; [exact Hs|]. now exists es.
Qed.

(** X7.  Every edge the edge loop creates is in the schema summary: its
    adjacency string ["--TYPE--> dst_type"] is in the set kept in
    [RELATIONSHIPS] under its source type, also when the loop raises later;
    and nothing recorded before is lost. *)
Theorem edge_loop_records_every_edge (all_relationships : list rel_tuple)
    (g : store) :
  (forall s a, recorded g s a ->
               recorded (snd (edge_loop all_relationships g)) s a)
  /\ exists es,
      GRAPH (snd (edge_loop all_relationships g)) = GRAPH g ++ es
      /\ forall w, w ∈ es ->
           recorded (snd (edge_loop all_relationships g))
             (source_type_of w) (adjacency_of w).
Proof.
  destruct (edge_loop_effect all_relationships g) as (_ & Hm & es & HG & _ & Hrec).
  split; [exact Hm|]. now exists es.
Qed.

Lemma edge_of_mirror node node_type rname md ct :
  edge_of node node_type rname md true ct
  = mirror (edge_of node node_type rname md false ct).
Proof. reflexivity. Qed.

(** X8.  [reverse] changes nothing but the direction: a row with
    [reverse=True] returns or raises as the same row with [reverse=False]
    does, and creates the same edges with their two ends exchanged. *)
Theorem reverse_mirrors_the_edges (g : store) (node : string)
    (relationships : option string) (rname : string)
    (expansion : option (list string)) :
  fst (edge_row (node, relationships, rname, expansion, true) g)
  = fst (edge_row (node, relationships, rname, expansion, false) g)
  /\ exists es,
      GRAPH (snd (edge_row (node, relationships, rname, expansion, false) g))
      = GRAPH g ++ es
      /\ GRAPH (snd (edge_row (node, relationships, rname, expansion, true) g))
         = GRAPH g ++ map mirror es.
Proof.
  destruct relationships as [d|].
  2: { assert (H : forall reverse,
                 edge_row (node, None, rname, expansion, reverse) g
                 = edge_row (node, None, rname, expansion, false) g)
         by (intros []; reflexivity).
       rewrite (H true). split; [reflexivity|].
       assert (HG : GRAPH (snd (edge_row (node, None, rname, expansion, false) g))
                    = GRAPH g).
       { unfold edge_row. rewrite run_bind. change (get g) with (Return g, g).
         cbv beta iota. rewrite run_bind, resolve_typed.
         now destruct (typed g (resolve_name_map g node)). }
       exists []. cbn [map]. rewrite app_nil_r. now split. }
  rewrite !edge_row_run.
  destruct (typed g (resolve_name_map g node)) as [node_type|].
  2: { split; [reflexivity|]. exists []. simpl. now rewrite app_nil_r. }
  destruct (is_all (tokens d) && negb (bool_decide (is_Some expansion))).
  { split; [reflexivity|]. exists []. simpl. now rewrite app_nil_r. }
  rewrite !run_bind, !map_relationships_run.
  destruct (plan g (row_relationships g d expansion) []) as [es r].
  split; [now destruct r|].
  exists (map (edge_of (resolve_name_map g node) node_type rname
                 [("all", is_all (tokens d))] false) es).
  split.
  - destruct r; simpl; apply fold_emit_GRAPH.
  - rewrite map_map.
    replace (map (fun ct => mirror (edge_of (resolve_name_map g node) node_type
                                      rname [("all", is_all (tokens d))] false ct))
               es)
      with (map (edge_of (resolve_name_map g node) node_type rname
                   [("all", is_all (tokens d))] true) es)
      by (apply map_ext; intros ct; apply edge_of_mirror).
    destruct r; simpl; apply fold_emit_GRAPH.
Qed.

(** ** The whole script *)

Lemma typed_registered g n t : typed g n = Some t -> n ∈ get_registered_nodes g.
Proof.
  unfold typed, get_registered_nodes. intros H. apply dict_in_keys.
  unfold dict_in. now destruct (dict_get (TYPES_MAP g) n).
Qed.

Lemma edge_ok_ends g w n : edge_ok g w -> n ∈ ends_of w -> n ∈ get_registered_nodes g.
Proof.
  destruct w as [|t1 k1 n1 t2 k2 n2 rel md]; [intros []|].
  intros (_ & _ & H1 & H2) Hn. simpl in Hn.
  apply elem_of_cons in Hn as [->|Hn]; [now apply (typed_registered g n1 t1)|].
  apply list_elem_of_singleton in Hn. subst n.
  now apply (typed_registered g n2 t2).
Qed.

Lemma register_all_keeps_GRAPH regs g :
  GRAPH (snd (register_all regs g)) = GRAPH g.
Proof.
  pose proof (inv_register_all (fun g1 => GRAPH g1 = GRAPH g) (fun _ => True) regs)
    as H.
  apply H; try (intros; exact I0); try reflexivity; try (now intros).
Qed.

Lemma expand_all_keeps_store calls g : snd (expand_all calls g) = g.
Proof.
  pose proof (inv_expand_all (fun g1 => g1 = g) (fun _ => True) calls) as H.
  apply H; try reflexivity; now intros.
Qed.

(** X9.  Whatever the script is given and wherever it stops, the calls the
    driver has received are node insertions followed by edge creations: the
    insertions are those of registered nodes, in registry order, each with
    its registered type; every edge joins two registered names under their
    registered types, and both its ends are among the nodes inserted before
    it. *)
Theorem main_inserts_nodes_before_typed_edges (regs : list registration)
    (calls : list expansion_call) (g : store) :
  exists nodes rest edges,
    get_registered_nodes (snd (main regs calls g)) = nodes ++ rest
    /\ GRAPH (snd (main regs calls g))
       = map (insert_of (snd (main regs calls g))) nodes ++ edges
    /\ Forall (edge_ok (snd (main regs calls g))) edges
    /\ (forall w n, w ∈ edges -> n ∈ ends_of w -> n ∈ nodes).
Proof.
  assert (Hempty : forall g1 : store,
            GRAPH g1 = [] ->
            exists nodes rest edges,
              get_registered_nodes g1 = nodes ++ rest
              /\ GRAPH g1 = map (insert_of g1) nodes ++ edges
              /\ Forall (edge_ok g1) edges
              /\ (forall w n, w ∈ edges -> n ∈ ends_of w -> n ∈ nodes)).
  { intros g1 HG. exists [], (get_registered_nodes g1), [].
    repeat split; [exact HG|constructor|]. intros w n Hw. inversion Hw. }
  unfold main. rewrite run_bind.
  change (drop_all_data g) with (Return tt, set_GRAPH [] g). cbv beta iota.
  rewrite run_bind.
  pose proof (register_all_keeps_GRAPH regs (set_GRAPH [] g)) as HG1.
  destruct (register_all regs (set_GRAPH [] g)) as [[[]|e] g1]; cbn [snd] in HG1;
    change (GRAPH (set_GRAPH [] g)) with (@nil write) in HG1.
  2: { now apply Hempty. }
  rewrite run_bind. change (get g1) with (Return g1, g1). cbv beta iota.
  rewrite run_bind.
  pose proof (expand_all_keeps_store calls g1) as HG2.
  destruct (expand_all calls g1) as [[rels|e] g2]; cbn [snd] in HG2; subst g2.
  2: { now apply Hempty. }
  destruct (has_duplicates (get_registered_nodes g1)).
  { now apply Hempty. }
  rewrite run_bind, create_nodes_run.
  destruct (node_plan_prefix g1 (get_registered_nodes g1))
    as (rest & Hnodes & Hnone & _).
  destruct (node_plan g1 (get_registered_nodes g1)) as [done r].
  cbn [fst snd] in Hnodes, Hnone. rewrite HG1. cbn [app].
  set (g3 := set_GRAPH (map (insert_of g1) done) g1).
  assert (Hs3 : same_static g1 g3) by (now repeat split).
  destruct r as [e|].
  { exists done, rest, []. cbn [snd]. rewrite app_nil_r.
    split; [exact Hnodes|]. split.
    - simpl. apply map_ext. intros n. symmetry. now apply insert_of_static.
    - split; [constructor|]. intros w n Hw. inversion Hw. }
  assert (Hrest : rest = []) by (now apply Hnone). subst rest.
  rewrite app_nil_r in Hnodes.
  destruct (edge_loop_effect rels g3) as (Hs4 & _ & es & HG4 & Hok & _).
  set (g4 := snd (edge_loop rels g3)) in *.
  assert (Hs14 : same_static g1 g4) by exact (same_static_trans _ _ _ Hs3 Hs4).
  exists done, [], es. rewrite app_nil_r.
  assert (Hreg : get_registered_nodes g4 = done).
  { unfold get_registered_nodes in *. destruct Hs14 as (H1 & _). now rewrite H1. }
  split; [exact Hreg|]. split.
  - rewrite HG4. f_equal. simpl. apply map_ext. intros n. symmetry.
    now apply insert_of_static.
  - split.
    + eapply Forall_impl; [exact Hok|]. intros w. now apply edge_ok_static.
    + intros w n Hw Hn. rewrite Forall_forall in Hok.
      rewrite <- Hreg. apply (edge_ok_ends g4 w n); [|exact Hn].
      apply (edge_ok_static g3 g4 w Hs4). now apply Hok.
Qed.

(* ===================================================================== *)
(** * More of mapping.py                                                 *)
(* ===================================================================== *)

(** ** [register_nodes] on a table it accepts *)

Lemma select_cols_spec row cols acc g md g' :
  select_cols row cols acc g = (Return md, g') ->
  g' = g
  /\ (forall col, col ∈ cols -> dict_get md col = dict_get row col)
  /\ (forall col, col ∉ cols -> dict_get md col = dict_get acc col).
Proof.
  revert acc. induction cols as [|c cols IH]; intros acc; cbn [select_cols].
  - intros [= <- <-]. split; [reflexivity|]. split; [|reflexivity].
    intros col Hcol. inversion Hcol.
  - rewrite run_bind. unfold row_at.
    destruct (dict_get row c) as [v|] eqn:Hv; [|discriminate].
    rewrite run_ret. intros H. destruct (IH _ H) as (-> & Hin & Hout).
    split; [reflexivity|]. split.
    + intros col Hcol. destruct (decide (col ∈ cols)) as [Hc|Hc];
        [now apply Hin|].
      apply elem_of_cons in Hcol as [->|Hcol]; [|contradiction].
      now rewrite (Hout c Hc), dict_get_set_eq.
    + intros col Hcol. apply not_elem_of_cons in Hcol as [Hne Hcol].
      rewrite (Hout col Hcol). now apply dict_get_set_ne.
Qed.

Lemma register_node_fresh component component_type metadata g :
  dict_in component (TYPES_MAP g) = false ->
  register_node component component_type metadata g
  = (Return tt,
     set_TYPES_MAP (dict_set (TYPES_MAP g) component component_type)
       (match metadata with
        | [] => g
        | _ :: _ =>
            set_NODE_METADATA (dict_set (NODE_METADATA g) component metadata) g
        end)).
Proof.
  intros Hin. unfold register_node. run. rewrite Hin.
  now destruct metadata.
Qed.

Lemma register_nodes_cons row df key_col component_type metadata_cols g g' :
  register_nodes (row :: df) key_col component_type metadata_cols g
  = (Return tt, g') ->
  exists s md,
    dict_get row key_col = Some (Some s)
    /\ dict_in s (TYPES_MAP g) = false
    /\ (forall c cs, metadata_cols = Some (c :: cs) ->
          md <> []
          /\ forall col, col ∈ c :: cs -> dict_get md col = dict_get row col)
    /\ register_nodes df key_col component_type metadata_cols
         (set_TYPES_MAP (dict_set (TYPES_MAP g) s component_type)
            (match md with
             | [] => g
             | _ :: _ => set_NODE_METADATA (dict_set (NODE_METADATA g) s md) g
             end))
       = (Return tt, g').
Proof.
  cbn [register_nodes]. rewrite run_bind. unfold row_name.
  rewrite run_bind. unfold row_at.
  destruct (dict_get row key_col) as [[s|]|] eqn:Hkey; try discriminate.
  rewrite !run_ret, run_bind.
  assert (Hstep : forall md,
            (register_node s component_type md;;
             register_nodes df key_col component_type metadata_cols) g
            = (Return tt, g') ->
            dict_in s (TYPES_MAP g) = false
            /\ register_nodes df key_col component_type metadata_cols
                 (set_TYPES_MAP (dict_set (TYPES_MAP g) s component_type)
                    (match md with
                     | [] => g
                     | _ :: _ =>
                         set_NODE_METADATA (dict_set (NODE_METADATA g) s md) g
                     end))
               = (Return tt, g')).
  { intros md. rewrite run_bind.
    destruct (dict_in s (TYPES_MAP g)) eqn:Hfresh.
    - unfold register_node. run. rewrite Hfresh. discriminate.
    - rewrite (register_node_fresh _ _ _ _ Hfresh). now split. }
  destruct metadata_cols as [[|c cs]|].
  - rewrite run_ret. intros H. destruct (Hstep [] H) as [Hf Hr].
    exists s, []. repeat split; try assumption; discriminate.
  - destruct (select_cols row (c :: cs) [] g) as [[md|e] g0] eqn:Hmd;
      [|discriminate].
    destruct (select_cols_spec _ _ _ _ _ _ Hmd) as (-> & Hin & _).
    intros H. destruct (Hstep md H) as [Hf Hr].
    exists s, md. split; [reflexivity|]. split; [exact Hf|]. split; [|exact Hr].
    intros c' cs' [= <- <-]. split; [|exact Hin].
    intros ->. specialize (Hin c ltac:(constructor)). simpl in Hin.
    cbn [select_cols] in Hmd. rewrite run_bind in Hmd. unfold row_at in Hmd.
    destruct (dict_get row c); [discriminate Hin|discriminate Hmd].
  - rewrite run_ret. intros H. destruct (Hstep [] H) as [Hf Hr].
    exists s, []. repeat split; try assumption; discriminate.
Qed.

(** What a successful [register_nodes] has done, row by row. *)
Lemma register_nodes_effect df key_col component_type metadata_cols g g' :
  register_nodes df key_col component_type metadata_cols g = (Return tt, g') ->
  exists names,
    Forall2 (fun row n =>
               dict_get row key_col = Some (Some n)
               /\ forall c cs, metadata_cols = Some (c :: cs) ->
                    exists md,
                      get_node_metadata g' n = Some md
                      /\ forall col, col ∈ c :: cs ->
                           dict_get md col = dict_get row col)
            df names
    /\ get_registered_nodes g' = get_registered_nodes g ++ names
    /\ NoDup names
    /\ (forall n, n ∈ names -> n ∉ get_registered_nodes g)
    /\ (forall n, n ∈ names -> dict_get (TYPES_MAP g') n = Some component_type)
    /\ (forall n, n ∉ names ->
          dict_get (TYPES_MAP g') n = dict_get (TYPES_MAP g) n
          /\ get_node_metadata g' n = get_node_metadata g n)
    /\ GRAPH g' = GRAPH g /\ RELATIONSHIPS g' = RELATIONSHIPS g.
Proof.
  revert g. induction df as [|row df IH]; intros g.
  - cbn [register_nodes]. intros [= <-]. exists []. rewrite app_nil_r.
    repeat split; try constructor; intros n Hn; inversion Hn.
  - intros Hrun.
    destruct (register_nodes_cons _ _ _ _ _ _ _ Hrun)
      as (s & md & Hkey & Hfresh & Hcols & Hrest0).
    revert Hrest0.
    set (g1 := set_TYPES_MAP _ _). intros Hrest.
    destruct (IH g1 Hrest)
      as (names & Hrows & Hreg & Hnd & Hnew & Hty & Hold & HG & HR).
    assert (Hreg1 : get_registered_nodes g1 = get_registered_nodes g ++ [s]).
    { unfold g1, get_registered_nodes. simpl TYPES_MAP at 1.
      replace (TYPES_MAP match md with
                         | [] => g
                         | _ :: _ => set_NODE_METADATA
                                       (dict_set (NODE_METADATA g) s md) g
                         end) with (TYPES_MAP g) by (now destruct md).
      now rewrite dict_keys_set, Hfresh. }
    assert (Hs : s ∉ names).
    { intros Hin. apply (Hnew s Hin). rewrite Hreg1, elem_of_app,
        list_elem_of_singleton. now right. }
    assert (Hty1 : dict_get (TYPES_MAP g1) s = Some component_type).
    { unfold g1. simpl. apply dict_get_set_eq. }
    exists (s :: names). split; [|split; [|split; [|split; [|split; [|split]]]]].
    + constructor; [|exact Hrows]. split; [exact Hkey|].
      intros c cs Hmc. destruct (Hcols c cs Hmc) as [Hne Hget].
      exists md. split; [|exact Hget].
      destruct (Hold s Hs) as [_ ->]. unfold g1, get_node_metadata.
      destruct md as [|kv md']; [contradiction|]. simpl. apply dict_get_set_eq.
    + rewrite Hreg, Hreg1, <- app_assoc. reflexivity.
    + now constructor.
    + intros n Hn Hreg0. apply elem_of_cons in Hn as [->|Hn].
      * apply dict_in_keys in Hreg0. unfold get_registered_nodes in Hreg0.
        congruence.
      * apply (Hnew n Hn). rewrite Hreg1, elem_of_app. now left.
    + intros n Hn. apply elem_of_cons in Hn as [->|Hn]; [|now apply Hty].
      destruct (Hold s Hs) as [-> _]. exact Hty1.
    + intros n Hn. apply not_elem_of_cons in Hn as [Hne Hn].
      destruct (Hold n Hn) as [-> ->]. unfold g1, get_node_metadata. split.
      * simpl. replace (TYPES_MAP match md with
                                  | [] => g
                                  | _ :: _ => set_NODE_METADATA
                                       (dict_set (NODE_METADATA g) s md) g
                                  end) with (TYPES_MAP g) by (now destruct md).
        now apply dict_get_set_ne.
      * destruct md as [|kv md']; [reflexivity|]. simpl.
        now apply dict_get_set_ne.
    + rewrite HG, HR. unfold g1. now destruct md.
Qed.

(** X10.  On a table whose key column has no null cell, a [register_nodes]
    call that returns normally has appended the key column of the table, row
    by row, to the registered nodes: the keys were neither registered before
    nor repeated in the table, each now has the type of the call and, when
    metadata columns were asked for, a metadata mapping with the values of
    its row; every other name keeps its type and metadata, and no call has
    gone to the driver. *)
Theorem register_nodes_appends_the_key_column
    (df : list (dict (option string))) (key_col component_type : string)
    (metadata_cols : option (list string)) (g g' : store) :
  keyed df key_col ->
  register_nodes df key_col component_type metadata_cols g = (Return tt, g') ->
  exists names,
    Forall2 (fun row n =>
               dict_get row key_col = Some (Some n)
               /\ forall c cs, metadata_cols = Some (c :: cs) ->
                    exists md,
                      get_node_metadata g' n = Some md
                      /\ forall col, col ∈ c :: cs ->
                           dict_get md col = dict_get row col)
            df names
    /\ get_registered_nodes g' = get_registered_nodes g ++ names
    /\ NoDup names
    /\ (forall n, n ∈ names -> n ∉ get_registered_nodes g)
    /\ (forall n, n ∈ names -> dict_get (TYPES_MAP g') n = Some component_type)
    /\ (forall n, n ∉ names ->
          dict_get (TYPES_MAP g') n = dict_get (TYPES_MAP g) n
          /\ get_node_metadata g' n = get_node_metadata g n)
    /\ GRAPH g' = GRAPH g.
Proof.
  intros _ Hrun.
  destruct (register_nodes_effect _ _ _ _ _ _ Hrun)
    as (names & H1 & H2 & H3 & H4 & H5 & H6 & H7 & _).
  exists names. exact (conj H1 (conj H2 (conj H3 (conj H4 (conj H5 (conj H6 H7)))))).
Qed.

Lemma register_nodes_appends_the_key_column_witness :
  exists names,
    Forall2 (fun row n =>
               dict_get row "Project" = Some (Some n)
               /\ forall c cs, Some ["Sponsor"] = Some (c :: cs) ->
                    exists md,
                      get_node_metadata
                        (snd (register_nodes
                                [[("Project", Some "OSC RIC"); ("Sponsor", Some "LF")];
                                 [("Project", Some "FlexRIC"); ("Sponsor", None)]]
                                "Project" "Software" (Some ["Sponsor"])
                                sample_store)) n = Some md
                      /\ forall col, col ∈ c :: cs ->
                           dict_get md col = dict_get row col)
            [[("Project", Some "OSC RIC"); ("Sponsor", Some "LF")];
             [("Project", Some "FlexRIC"); ("Sponsor", None)]] names
    /\ get_registered_nodes
         (snd (register_nodes
                 [[("Project", Some "OSC RIC"); ("Sponsor", Some "LF")];
                  [("Project", Some "FlexRIC"); ("Sponsor", None)]]
                 "Project" "Software" (Some ["Sponsor"]) sample_store))
       = get_registered_nodes sample_store ++ names
    /\ NoDup names
    /\ (forall n, n ∈ names -> n ∉ get_registered_nodes sample_store)
    /\ (forall n, n ∈ names ->
          dict_get (TYPES_MAP
                      (snd (register_nodes
                              [[("Project", Some "OSC RIC"); ("Sponsor", Some "LF")];
                               [("Project", Some "FlexRIC"); ("Sponsor", None)]]
                              "Project" "Software" (Some ["Sponsor"])
                              sample_store))) n = Some "Software")
    /\ (forall n, n ∉ names ->
          dict_get (TYPES_MAP
                      (snd (register_nodes
                              [[("Project", Some "OSC RIC"); ("Sponsor", Some "LF")];
                               [("Project", Some "FlexRIC"); ("Sponsor", None)]]
                              "Project" "Software" (Some ["Sponsor"])
                              sample_store))) n
          = dict_get (TYPES_MAP sample_store) n
          /\ get_node_metadata
               (snd (register_nodes
                       [[("Project", Some "OSC RIC"); ("Sponsor", Some "LF")];
                        [("Project", Some "FlexRIC"); ("Sponsor", None)]]
                       "Project" "Software" (Some ["Sponsor"]) sample_store)) n
             = get_node_metadata sample_store n)
    /\ GRAPH (snd (register_nodes
                     [[("Project", Some "OSC RIC"); ("Sponsor", Some "LF")];
                      [("Project", Some "FlexRIC"); ("Sponsor", None)]]
                     "Project" "Software" (Some ["Sponsor"]) sample_store))
       = GRAPH sample_store.
Proof.
  apply (register_nodes_appends_the_key_column
           [[("Project", Some "OSC RIC"); ("Sponsor", Some "LF")];
            [("Project", Some "FlexRIC"); ("Sponsor", None)]]
           "Project" "Software" (Some ["Sponsor"]) sample_store).
  - repeat constructor; discriminate.
  - reflexivity.
Defined.

(** ** [set_node_metadata] on lists it accepts *)

Lemma set_metadata_loop_effect tag pairs g g' :
  set_metadata_loop tag pairs g = (Return tt, g') ->
  NoDup (map fst pairs) ->
  (forall n m, (n, m) ∈ pairs ->
     exists data,
       get_node_metadata g' n = Some data
       /\ dict_get data tag = Some m
       /\ forall t, t <> tag ->
            dict_get data t = dict_get (default [] (get_node_metadata g n)) t)
  /\ (forall n, n ∉ map fst pairs ->
        get_node_metadata g' n = get_node_metadata g n)
  /\ TYPES_MAP g' = TYPES_MAP g /\ GRAPH g' = GRAPH g.
Proof.
  revert g. induction pairs as [|[n m] rest IH]; intros g; cbn [set_metadata_loop].
  - intros [= <-] _. repeat split. intros n m H. inversion H.
  - rewrite run_bind. unfold set_one_metadata at 1. rewrite run_bind.
    change (get g) with (Return g, g). cbv beta iota.
    destruct (cell_in m (default [] (dict_get (NODE_METADATA g) n)));
      [discriminate|].
    set (data := dict_set (default [] (dict_get (NODE_METADATA g) n)) tag m).
    change (modify (set_NODE_METADATA (dict_set (NODE_METADATA g) n data)) g)
      with (Return tt, set_NODE_METADATA (dict_set (NODE_METADATA g) n data) g).
    cbv beta iota. set (g1 := set_NODE_METADATA _ g).
    intros Hrest Hnd. cbn [map fst] in Hnd. apply NoDup_cons in Hnd as [Hn Hnd].
    destruct (IH g1 Hrest Hnd) as (Hset & Hother & HT & HG).
    split; [|split; [|split]].
    + intros n' m' Hin. apply elem_of_cons in Hin as [[= -> ->]|Hin].
      * exists data. split; [|split].
        -- rewrite (Hother n Hn). unfold g1, get_node_metadata. simpl.
           apply dict_get_set_eq.
        -- unfold data. apply dict_get_set_eq.
        -- intros t Ht. unfold data, get_node_metadata.
           now apply dict_get_set_ne.
      * destruct (Hset n' m' Hin) as (data' & Hd1 & Hd2 & Hd3).
        exists data'. split; [exact Hd1|]. split; [exact Hd2|].
        intros t Ht. rewrite (Hd3 t Ht). unfold g1, get_node_metadata. simpl.
        rewrite dict_get_set_ne; [reflexivity|].
        intros ->. apply Hn. apply list_elem_of_fmap. now exists (n, m').
    + intros n' Hn'. cbn [map fst] in Hn'. apply not_elem_of_cons in Hn' as [Hne Hn'].
      rewrite (Hother n' Hn'). unfold g1, get_node_metadata. simpl.
      now apply dict_get_set_ne.
    + now rewrite HT.
    + now rewrite HG.
Qed.

(** X11.  A [set_node_metadata] call that returns normally was given as
    many values as nodes; when the nodes are pairwise different, each node
    then has its value under the tag, keeps its other tags, and the nodes
    not listed keep their metadata; the registry and the driver are not
    touched. *)
Theorem set_node_metadata_then_get (nodes : list string) (tag : string)
    (metadata_list : list (option string)) (g g' : store) :
  set_node_metadata nodes tag metadata_list g = (Return tt, g') ->
  NoDup nodes ->
  length nodes = length metadata_list
  /\ (forall i n m, nodes !! i = Some n -> metadata_list !! i = Some m ->
        exists data,
          get_node_metadata g' n = Some data
          /\ dict_get data tag = Some m
          /\ forall t, t <> tag ->
               dict_get data t = dict_get (default [] (get_node_metadata g n)) t)
  /\ (forall n, n ∉ nodes -> get_node_metadata g' n = get_node_metadata g n)
  /\ TYPES_MAP g' = TYPES_MAP g /\ GRAPH g' = GRAPH g.
Proof.
  unfold set_node_metadata.
  destruct (length nodes =? length metadata_list)%nat eqn:Hlen; [|discriminate].
  apply Nat.eqb_eq in Hlen. cbn [negb]. intros Hrun Hnd.
  assert (Hfst : map fst (combine nodes metadata_list) = nodes).
  { clear Hrun Hnd. revert metadata_list Hlen.
    induction nodes as [|n nodes IH]; intros [|m ms] Hlen; try discriminate;
      [reflexivity|]. simpl. f_equal. apply IH. now injection Hlen. }
  destruct (set_metadata_loop_effect tag _ g g' Hrun) as (Hset & Hother & HT & HG).
  { now rewrite Hfst. }
  split; [exact Hlen|]. split; [|split; [|split]]; try assumption.
  - intros i n m Hn Hm. apply Hset.
    apply list_elem_of_lookup. exists i.
    clear - Hn Hm. revert i metadata_list Hn Hm.
    induction nodes as [|n0 nodes IH]; intros [|i] [|m0 ms] Hn Hm;
      try discriminate; simpl in *.
    + now injection Hn as ->; injection Hm as ->.
    + now apply IH.
  - intros n Hn. apply Hother. now rewrite Hfst.
Qed.

Lemma set_node_metadata_then_get_witness :
  exists data,
    get_node_metadata
      (snd (set_node_metadata ["O-DU"; "O-RU"] "owner" [Some "x"; None]
              store_with_vendor)) "O-DU" = Some data
    /\ dict_get data "owner" = Some (Some "x")
    /\ forall t, t <> "owner" ->
         dict_get data t
         = dict_get (default [] (get_node_metadata store_with_vendor "O-DU")) t.
Proof.
  refine (proj1 (proj2
            (set_node_metadata_then_get ["O-DU"; "O-RU"] "owner" [Some "x"; None]
               store_with_vendor _ _ _)) 0 "O-DU" (Some "x") _ _).
  - reflexivity.
  - apply NoDup_cons. split; [|apply NoDup_singleton].
    rewrite list_elem_of_singleton. discriminate.
  - reflexivity.
  - reflexivity.
Defined.

(* ===================================================================== *)
(** * More of oran_pipeline.py                                           *)
(* ===================================================================== *)

(** ** [_union_headers] on a header without repeated columns *)

Lemma first_seen_filter (P : string -> Prop) `{forall x, Decision (P x)} l :
  first_seen (filter P l) = filter P (first_seen l).
Proof.
  induction l as [|x l IH]; [reflexivity|].
  rewrite filter_cons. cbn [first_seen]. rewrite filter_cons.
  destruct (decide (P x)) as [Hx|Hx].
  - cbn [first_seen]. rewrite IH, !list_filter_filter. f_equal.
    apply list_filter_iff. intros y. cbv beta.
    split; intros [H1 H2]; split; assumption.
  - rewrite IH, list_filter_filter. apply list_filter_iff.
    intros y. cbv beta. split; [|now intros [H1 _]].
    intros Hy. split; [assumption|]. congruence.
Qed.

Lemma union_loop_spec incoming out (seen : gset string) :
  (forall y, y ∈ seen <-> y ∈ out) ->
  union_loop incoming out seen
  = out ++ first_seen (filter (fun h => h ∉ out) incoming).
Proof.
  revert out seen. induction incoming as [|h rest IH]; intros out seen Hseen;
    cbn [union_loop].
  - now rewrite app_nil_r.
  - rewrite filter_cons. destruct (bool_decide (h ∈ seen)) eqn:E.
    + apply bool_decide_eq_true, Hseen in E.
      rewrite decide_False by tauto. now apply IH.
    + apply bool_decide_eq_false in E. rewrite Hseen in E.
      rewrite decide_True by assumption. cbn [first_seen].
      rewrite (IH (out ++ [h]) ({[h]} ∪ seen)).
      * rewrite <- app_assoc. cbn [app]. f_equal. f_equal.
        rewrite <- (first_seen_filter (fun y => y <> h)), list_filter_filter.
        f_equal. apply list_filter_iff. intros y.
        rewrite elem_of_app, list_elem_of_singleton. tauto.
      * intros y. rewrite elem_of_union, elem_of_singleton, elem_of_app,
          list_elem_of_singleton, Hseen. tauto.
Qed.

Lemma list_remove_NoDup p l :
  NoDup l -> list_remove p l = filter (fun y => y <> p) l.
Proof.
  induction 1 as [|y l Hy Hnd IH]; [reflexivity|].
  cbn [list_remove]. rewrite filter_cons. destruct (String.eqb y p) eqn:E.
  - apply String.eqb_eq in E. subst y. rewrite decide_False by tauto.
    symmetry. clear IH Hnd. induction l as [|z l IH]; [reflexivity|].
    apply not_elem_of_cons in Hy as [Hne Hy].
    rewrite filter_cons, decide_True by congruence. f_equal. now apply IH.
  - apply String.eqb_neq in E. rewrite decide_True by assumption.
    now rewrite IH.
Qed.

Lemma push_last_NoDup p l :
  NoDup l ->
  push_last p l
  = filter (fun y => y <> p) l ++ (if bool_decide (p ∈ l) then [p] else [])
  /\ NoDup (push_last p l).
Proof.
  intros Hnd. unfold push_last. destruct (bool_decide (p ∈ l)) eqn:E.
  - rewrite (list_remove_NoDup p l Hnd). split; [reflexivity|].
    apply NoDup_app. split; [now apply NoDup_filter|]. split.
    + intros x Hx Hx'. apply list_elem_of_singleton in Hx'. subst x.
      apply list_elem_of_filter in Hx as [Hx _]. now apply Hx.
    + apply NoDup_singleton.
  - split; [|assumption]. rewrite app_nil_r. symmetry.
    apply bool_decide_eq_false in E. clear Hnd.
    induction l as [|z l IH]; [reflexivity|].
    apply not_elem_of_cons in E as [Hne E].
    rewrite filter_cons, decide_True by congruence. f_equal. now apply IH.
Qed.

Lemma union_body_NoDup existing incoming :
  NoDup existing ->
  NoDup (existing ++ first_seen (filter (fun h => h ∉ existing) incoming)).
Proof.
  intros Hnd. apply NoDup_app. split; [assumption|]. split.
  - intros x Hx Hx'. apply first_seen_elem, list_elem_of_filter in Hx' as [Hx' _].
    contradiction.
  - apply first_seen_NoDup.
Qed.

(** The result of [_union_headers] for an existing header without repeated
    columns. *)
Lemma union_headers_spec existing incoming :
  NoDup existing ->
  let body := existing ++ first_seen (filter (fun h => h ∉ existing) incoming) in
  let out := filter plain_column body
             ++ (if bool_decide ("__source_file" ∈ body)
                 then ["__source_file"] else [])
             ++ (if bool_decide ("__source_doc" ∈ body)
                 then ["__source_doc"] else []) in
  NoDup out
  /\ _union_headers existing incoming
     = match out with [] => ACADEMIC_COLUMNS | _ :: _ => out end.
Proof.
  intros Hnd body out. unfold _union_headers.
  rewrite (union_loop_spec incoming existing (list_to_set existing))
    by (intros y; apply elem_of_list_to_set).
  fold body. pose proof (union_body_NoDup existing incoming Hnd) as Hbody.
  fold body in Hbody.
  destruct (push_last_NoDup "__source_file" body Hbody) as [Hf Hfnd].
  destruct (push_last_NoDup "__source_doc" _ Hfnd) as [Hd Hdnd].
  assert (Hout : push_last "__source_doc" (push_last "__source_file" body) = out).
  { rewrite Hd, Hf. unfold out. rewrite filter_app, list_filter_filter.
    rewrite <- app_assoc. f_equal.
    - apply list_filter_iff. intros y. unfold plain_column. tauto.
    - f_equal.
      + destruct (bool_decide ("__source_file" ∈ body)); [|reflexivity].
        rewrite filter_cons, decide_True by discriminate. reflexivity.
      + rewrite <- Hf.
        replace (bool_decide ("__source_doc" ∈ push_last "__source_file" body))
          with (bool_decide ("__source_doc" ∈ body)); [reflexivity|].
        apply bool_decide_ext. symmetry. apply push_last_elem. }
  rewrite Hout in *. split; [exact Hdnd|reflexivity].
Qed.

(** X12.  For an existing header without repeated columns and incoming
    columns that do not leave both lists empty, [_union_headers] gives: the
    existing columns in their order, then the new columns in the order of
    their first appearance, the two provenance columns taken out of that
    sequence and put last ([__source_file] before [__source_doc]); no column
    is repeated. *)
Theorem union_headers_is_existing_then_new_then_provenance
    (existing incoming : list string) :
  NoDup existing ->
  existing ++ incoming <> [] ->
  let body := existing ++ first_seen (filter (fun h => h ∉ existing) incoming) in
  _union_headers existing incoming
  = filter plain_column body
    ++ (if bool_decide ("__source_file" ∈ body) then ["__source_file"] else [])
    ++ (if bool_decide ("__source_doc" ∈ body) then ["__source_doc"] else [])
  /\ NoDup (_union_headers existing incoming).
Proof.
  intros Hnd Hne body.
  destruct (union_headers_spec existing incoming Hnd) as [Hnd' Heq].
  fold body in Hnd', Heq.
  set (out := filter plain_column body ++ _) in *.
  assert (Hout : out <> []).
  { assert (Hb : exists x, x ∈ body).
    { destruct existing as [|e ex].
      - destruct incoming as [|i inc]; [contradiction|]. exists i.
        unfold body. cbn [app]. apply first_seen_elem, list_elem_of_filter.
        split; [apply not_elem_of_nil|constructor].
      - exists e. unfold body. constructor. }
    destruct Hb as [x Hx]. intros Hnil.
    assert (Hxo : x ∈ out).
    { unfold out. rewrite !elem_of_app, list_elem_of_filter. unfold plain_column.
      destruct (decide (x = "__source_file")) as [->|Hf].
      - right. left. rewrite bool_decide_eq_true_2 by assumption. constructor.
      - destruct (decide (x = "__source_doc")) as [->|Hd].
        + right. right. rewrite bool_decide_eq_true_2 by assumption. constructor.
        + now left. }
    rewrite Hnil in Hxo. inversion Hxo. }
  rewrite Heq. destruct out as [|o out']; [contradiction|]. now split.
Qed.

Lemma union_headers_is_existing_then_new_then_provenance_witness :
  _union_headers ["__source_file"; "B"; "C"] ["A"; "B"; "__source_doc"; "A"]
  = ["B"; "C"; "A"; "__source_file"; "__source_doc"].
Proof.
  destruct (union_headers_is_existing_then_new_then_provenance
              ["__source_file"; "B"; "C"] ["A"; "B"; "__source_doc"; "A"])
    as [Heq _].
  - apply (bool_decide_unpack _). vm_compute. exact I.
  - discriminate.
  - rewrite Heq. vm_compute. reflexivity.
Defined.

(** Merging columns {A, B} into a master with columns {B, C}. *)
Example union_headers_B_C_A : _union_headers ["B"; "C"] ["A"; "B"] = ["B"; "C"; "A"].
Proof. vm_compute. reflexivity. Qed.

(** ** [_iter_run_rows] *)

Lemma union_headers_nonempty existing incoming :
  _union_headers existing incoming <> [].
Proof.
  unfold _union_headers.
  destruct (push_last _ _) as [|o out]; discriminate.
Qed.

Lemma union_headers_elem_weak existing incoming x :
  x ∈ _union_headers existing incoming ->
  x ∈ existing \/ x ∈ incoming \/ x ∈ ACADEMIC_COLUMNS.
Proof.
  destruct existing as [|e ex].
  - destruct incoming as [|i inc].
    + intros H. right. right. exact H.
    + intros H. apply union_headers_elem in H; [tauto|discriminate].
  - intros H. apply union_headers_elem in H; [tauto|discriminate].
Qed.

Lemma union_headers_NoDup existing incoming :
  NoDup existing -> NoDup (_union_headers existing incoming).
Proof.
  intros Hnd. destruct (union_headers_spec existing incoming Hnd) as [Hout ->].
  destruct (filter plain_column _ ++ _) as [|o out]; [|exact Hout].
  apply (bool_decide_unpack _). vm_compute. exact I.
Qed.

Lemma has_fieldnames_Some parsed t :
  has_fieldnames parsed = Some t -> parsed = Some t /\ hdr t <> [].
Proof.
  unfold has_fieldnames. destruct parsed as [t0|]; [|discriminate].
  destruct (hdr t0) eqn:E; [discriminate|]. intros [= <-]. split; [reflexivity|].
  now rewrite E.
Qed.

Lemma picked_header f t : picked f = Some t -> hdr t <> [].
Proof.
  unfold picked. destruct (has_fieldnames (as_comma f)) as [t0|] eqn:E.
  - intros [= <-]. now apply has_fieldnames_Some in E.
  - intros H. now apply has_fieldnames_Some in H.
Qed.

(** The rows a file contributes. *)
Lemma iter_loop_spec files h0 rows0 :
  NoDup h0 -> (forall x, x ∈ h0 -> Py.strip x = x) ->
  NoDup (fst (iter_loop files h0 rows0))
  /\ (forall x, x ∈ fst (iter_loop files h0 rows0) -> Py.strip x = x)
  /\ (forall x, x ∈ h0 -> x ∈ fst (iter_loop files h0 rows0))
  /\ (forall f t x, f ∈ files -> picked f = Some t -> x ∈ hdr t ->
        Py.strip x ∈ fst (iter_loop files h0 rows0))
  /\ (h0 <> [] -> fst (iter_loop files h0 rows0) <> [])
  /\ (forall f t, f ∈ files -> picked f = Some t ->
        fst (iter_loop files h0 rows0) <> [])
  /\ snd (iter_loop files h0 rows0)
     = rows0 ++ flat_map (fun f => match picked f with
                                   | Some t => map none_to_empty (DictReader t)
                                   | None => []
                                   end) files.
Proof.
  revert h0 rows0. induction files as [|f files IH]; intros h0 rows0 Hnd Htrim.
  - simpl. rewrite app_nil_r. repeat split; try assumption; try tauto.
    + intros f t x Hf. inversion Hf.
    + intros f t Hf. inversion Hf.
  - cbn [iter_loop flat_map]. destruct (picked f) as [t|] eqn:Hp.
    + set (h1 := _union_headers h0 (map Py.strip (hdr t))).
      assert (Hne : h0 ++ map Py.strip (hdr t) <> []).
      { intros H. apply app_eq_nil in H as [_ H]. apply map_eq_nil in H.
        now apply (picked_header f t Hp). }
      assert (Hnd1 : NoDup h1) by (now apply union_headers_NoDup).
      assert (Htrim1 : forall x, x ∈ h1 -> Py.strip x = x).
      { intros x Hx. apply union_headers_elem in Hx as [Hx|Hx]; [| |exact Hne].
        - now apply Htrim.
        - apply list_elem_of_fmap in Hx as (y & -> & _). apply strip_idem. }
      assert (Hne1 : h1 <> []) by apply union_headers_nonempty.
      destruct (IH h1 (rows0 ++ map none_to_empty (DictReader t)) Hnd1 Htrim1)
        as (H1 & H2 & H3 & H4 & H5 & H6 & H7).
      split; [exact H1|]. split; [exact H2|]. split; [|split; [|split; [|split]]].
      * intros x Hx. apply H3. apply union_headers_elem; [exact Hne|now left].
      * intros f' t' x Hf' Hp' Hx. apply elem_of_cons in Hf' as [->|Hf'].
        -- rewrite Hp in Hp'. injection Hp' as <-. apply H3.
           apply union_headers_elem; [exact Hne|]. right.
           apply list_elem_of_fmap. now exists x.
        -- now apply (H4 f' t').
      * intros _. now apply H5.
      * intros f' t' _ _. now apply H5.
      * rewrite H7. now rewrite <- app_assoc.
    + destruct (IH h0 rows0 Hnd Htrim) as (H1 & H2 & H3 & H4 & H5 & H6 & H7).
      split; [exact H1|]. split; [exact H2|]. split; [exact H3|].
      split; [|split; [exact H5|split; [|exact H7]]].
      * intros f' t' x Hf' Hp' Hx. apply elem_of_cons in Hf' as [->|Hf'];
          [congruence|]. now apply (H4 f' t').
      * intros f' t' Hf' Hp'. apply elem_of_cons in Hf' as [->|Hf'];
          [congruence|]. now apply (H6 f' t').
Qed.

Lemma ACADEMIC_COLUMNS_trimmed x : x ∈ ACADEMIC_COLUMNS -> Py.strip x = x.
Proof.
  unfold ACADEMIC_COLUMNS. rewrite !elem_of_cons, elem_of_nil.
  intros H; repeat destruct H as [->|H]; try reflexivity. contradiction.
Qed.

(** What [_iter_run_rows] returns. *)
Lemma iter_run_rows_spec files :
  fst (_iter_run_rows files) <> []
  /\ NoDup (fst (_iter_run_rows files))
  /\ (forall x, x ∈ fst (_iter_run_rows files) -> Py.strip x = x)
  /\ (forall f t x, f ∈ files -> picked f = Some t -> x ∈ hdr t ->
        Py.strip x ∈ fst (_iter_run_rows files))
  /\ snd (_iter_run_rows files)
     = flat_map (fun f => match picked f with
                          | Some t => map none_to_empty (DictReader t)
                          | None => []
                          end) files.
Proof.
  destruct (iter_loop_spec files [] [])
    as (H1 & H2 & _ & H4 & _ & H6 & H7); [constructor|intros x Hx; inversion Hx|].
  unfold _iter_run_rows. destruct (iter_loop files [] []) as [h rows].
  cbn [fst snd] in *. destruct h as [|x h].
  - split; [discriminate|]. split.
    { apply (bool_decide_unpack _). vm_compute. exact I. }
    split; [exact ACADEMIC_COLUMNS_trimmed|]. split; [|exact H7].
    intros f t y Hf Hp _. exfalso. now apply (H6 f t Hf Hp).
  - split; [discriminate|]. now repeat split.
Qed.

(** X13.  [_iter_run_rows] never returns an empty header list.  Its headers
    are trimmed, pairwise different and include the trimmed name of every
    column of every file it took; its rows are the rows of those files, file
    after file. *)
Theorem iter_run_rows_headers (files : list csv_source) :
  fst (_iter_run_rows files) <> []
  /\ NoDup (fst (_iter_run_rows files))
  /\ (forall x, x ∈ fst (_iter_run_rows files) -> Py.strip x = x)
  /\ (forall f t x, f ∈ files -> picked f = Some t -> x ∈ hdr t ->
        Py.strip x ∈ fst (_iter_run_rows files))
  /\ snd (_iter_run_rows files)
     = flat_map (fun f => match picked f with
                          | Some t => map none_to_empty (DictReader t)
                          | None => []
                          end) files.
Proof. exact (iter_run_rows_spec files). Qed.

(** A file that reads with commas is never read with semicolons: a
    semicolon-separated file comes out as one column. *)
Example semicolon_file_read_with_commas :
  _iter_run_rows
    [ {| as_comma := Some {| hdr := ["Name;Type"]; recs := [["Jamming;Attack"]] |};
         as_semicolon := Some {| hdr := ["Name"; "Type"];
                                 recs := [["Jamming"; "Attack"]] |} |} ]
  = (["Name;Type"],
     [ {| fields := [("Name;Type", Some "Jamming;Attack")];
          has_restkey := false |} ]).
Proof. vm_compute. reflexivity. Qed.

(** ** Reading a run directory, then appending *)

Lemma DictReader_row_keys t row k :
  row ∈ map none_to_empty (DictReader t) ->
  k ∈ dict_keys (fields row) <-> k ∈ hdr t.
Proof.
  intros Hrow. apply list_elem_of_fmap in Hrow as (r0 & -> & Hr0).
  unfold DictReader in Hr0. apply list_elem_of_fmap in Hr0 as (record & -> & _).
  rewrite none_to_empty_keys. simpl. rewrite zip_fields_keys.
  split; [intros [H|H]; [inversion H|assumption]|now right].
Qed.

Lemma DictReader_row_restkey t row :
  rectangular (Some t) ->
  row ∈ map none_to_empty (DictReader t) -> has_restkey row = false.
Proof.
  intros Hrect Hrow. apply list_elem_of_fmap in Hrow as (r0 & -> & Hr0).
  unfold DictReader in Hr0. apply list_elem_of_fmap in Hr0 as (record & -> & Hrec).
  apply list_elem_of_filter in Hrec as [_ Hrec]. simpl.
  apply Nat.ltb_ge. now apply Hrect.
Qed.

(** X14.  When every file taken from the run directory has trimmed column
    names and no record longer than its header, and no record of the master
    file is longer than its header, appending what [_iter_run_rows] returns
    completes. *)
Theorem tidy_run_is_appended (files : list csv_source)
    (master_csv : option table) :
  (forall f, f ∈ files -> tidy f) ->
  rectangular master_csv ->
  exists added total master1,
    _append_to_master master_csv (fst (_iter_run_rows files))
      (snd (_iter_run_rows files))
    = (Return (added, total), master1).
Proof.
  intros Htidy Hrect.
  destruct (iter_run_rows_spec files) as (Hne & _ & _ & Hcols & Hrows).
  apply append_to_master_returns; [exact Hne|exact Hrect|].
  intros r Hr. rewrite Hrows in Hr.
  apply list_elem_of_In, in_flat_map in Hr as (f & Hf & Hr).
  apply list_elem_of_In in Hf, Hr.
  destruct (picked f) as [t|] eqn:Hp; [|inversion Hr].
  destruct (Htidy f Hf t Hp) as [Htrim Hrt]. split.
  - now apply (DictReader_row_restkey t).
  - intros k Hk. apply (DictReader_row_keys t r k Hr) in Hk.
    rewrite <- (Htrim k Hk). now apply (Hcols f t k).
Qed.

Lemma tidy_run_is_appended_witness :
  exists added total master1,
    _append_to_master sample_master (fst (_iter_run_rows tidy_run))
      (snd (_iter_run_rows tidy_run))
    = (Return (added, total), master1).
Proof.
  apply tidy_run_is_appended.
  - intros f Hf t Hp. unfold tidy_run in Hf.
    rewrite !elem_of_cons, elem_of_nil in Hf.
    destruct Hf as [->|[->|[]]]; injection Hp as <-; split.
    + intros h Hh. simpl in Hh. rewrite !elem_of_cons, elem_of_nil in Hh.
      destruct Hh as [->|[->|[]]]; reflexivity.
    + intros record Hrec. simpl in Hrec. rewrite !elem_of_cons, elem_of_nil in Hrec.
      destruct Hrec as [->|[->|[]]]; simpl; lia.
    + intros h Hh. simpl in Hh. rewrite !elem_of_cons, elem_of_nil in Hh.
      destruct Hh as [->|[->|[]]]; reflexivity.
    + intros record Hrec. simpl in Hrec. rewrite !elem_of_cons, elem_of_nil in Hrec.
      destruct Hrec as [->|[]]; simpl; lia.
  - intros record Hrec. simpl in Hrec. rewrite !elem_of_cons, elem_of_nil in Hrec.
    destruct Hrec as [->|[]]; simpl; lia.
Defined.

Example tidy_run_appended :
  _append_to_master sample_master (fst (_iter_run_rows tidy_run))
    (snd (_iter_run_rows tidy_run))
  = (Return (3, 4),
     Some {| hdr := ["Name"; "Type"; "Reference"; "__source_file"];
             recs := [["Jamming"; "Attack"; ""; "a.csv"];
                      ["Jamming"; "Attack"; ""; ""];
                      ["Spoofing"; ""; ""; ""];
                      ["Jamming"; ""; "[7]"; ""]] |}).
Proof. vm_compute. reflexivity. Qed.

(** X15.  A column name with a blank at either end breaks the first append
    into a new master file.  [_iter_run_rows] trims the header but leaves the
    keys of the rows as they are, so when the first row collected has such a
    key, [csv.DictWriter] refuses it and the master file is left with the
    header line only. *)
Theorem padded_column_name_breaks_the_append (files : list csv_source)
    (row : csvrow) (more : list csvrow) (k : string) :
  snd (_iter_run_rows files) = row :: more ->
  k ∈ dict_keys (fields row) ->
  Py.strip k <> k ->
  _append_to_master None (fst (_iter_run_rows files)) (snd (_iter_run_rows files))
  = (Raise FieldsNotInFieldnames,
     Some {| hdr := fst (_iter_run_rows files); recs := [] |}).
Proof.
  intros Hrows Hk Hpad.
  destruct (iter_run_rows_spec files) as (_ & _ & Htrim & _ & _).
  rewrite Hrows. set (h := fst (_iter_run_rows files)) in *.
  assert (Hkh : k ∉ h) by (intros Hin; now apply Hpad, Htrim).
  unfold _append_to_master. cbn [map dedup_loop].
  replace (list_to_set [] : gset (list string)) with (∅ : gset (list string))
    by reflexivity.
  rewrite bool_decide_eq_false_2 by apply not_elem_of_empty.
  destruct (dedup_loop_covers h [] more [fill h row]
              ({[_norm_row (fill h row) h]} ∪ ∅)) as (extra & Hfst & _).
  { intros key. rewrite elem_of_union, elem_of_singleton. cbn [app]. split.
    - intros [->|H]; [|now apply not_elem_of_empty in H].
      exists (fill h row). split; [constructor|reflexivity].
    - intros (r0 & Hr0 & <-). apply list_elem_of_singleton in Hr0. subst r0.
      now left. }
  cbn [app] in Hfst |- *.
  destruct (dedup_loop h more [fill h row]
              ({[_norm_row (fill h row) h]} ∪ ∅)) as [to_add seen].
  cbn [fst] in Hfst. subst to_add. cbn [app write_rows].
  assert (Hw : writerow h (fill h (fill h row)) = None).
  { unfold writerow.
    assert (He : existsb (fun k0 => negb (bool_decide (k0 ∈ h)))
                   (dict_keys (fields (fill h (fill h row)))) = true).
    { apply existsb_exists. exists k. split.
      - apply list_elem_of_In, fill_keys. left. apply fill_keys. now left.
      - apply negb_true_iff, bool_decide_eq_false. exact Hkh. }
    rewrite He. now rewrite orb_true_r. }
  now rewrite Hw.
Qed.

Lemma padded_column_name_breaks_the_append_witness :
  _append_to_master None (fst (_iter_run_rows padded_run))
    (snd (_iter_run_rows padded_run))
  = (Raise FieldsNotInFieldnames,
     Some {| hdr := fst (_iter_run_rows padded_run); recs := [] |}).
Proof.
  apply (padded_column_name_breaks_the_append padded_run
           {| fields := [("Name", Some "Jamming"); (" Type", Some "Attack")];
              has_restkey := false |} [] " Type").
  - reflexivity.
  - simpl. rewrite !elem_of_cons. tauto.
  - discriminate.
Defined.

(** ** What a completed append has written *)

Lemma dedup_loop_fresh (headers : list string) (new_rows to_add : list csvrow)
    (seen S0 : gset (list string)) :
  NoDup (map (fun r => _norm_row r headers) to_add) ->
  (forall r, r ∈ to_add -> _norm_row r headers ∈ seen) ->
  (forall key, key ∈ S0 -> key ∈ seen) ->
  (forall r, r ∈ to_add -> _norm_row r headers ∉ S0) ->
  NoDup (map (fun r => _norm_row r headers)
           (fst (dedup_loop headers new_rows to_add seen)))
  /\ (forall r, r ∈ fst (dedup_loop headers new_rows to_add seen) ->
        _norm_row r headers ∉ S0)
  /\ length (fst (dedup_loop headers new_rows to_add seen))
     <= length to_add + length new_rows.
Proof.
  revert to_add seen. induction new_rows as [|r rest IH];
    intros to_add seen Hnd Hin Hsub Hout; cbn [dedup_loop].
  - simpl. repeat split; [assumption|assumption|lia].
  - destruct (bool_decide (_norm_row (fill headers r) headers ∈ seen)) eqn:E.
    + destruct (IH to_add seen Hnd Hin Hsub Hout) as (H1 & H2 & H3).
      repeat split; [assumption|assumption|simpl; lia].
    + apply bool_decide_eq_false in E.
      destruct (IH (to_add ++ [fill headers r])
                  ({[_norm_row (fill headers r) headers]} ∪ seen))
        as (H1 & H2 & H3).
      * rewrite map_app. apply NoDup_app. split; [assumption|]. split.
        -- intros key Hkey Hkey'. simpl in Hkey'.
           apply list_elem_of_singleton in Hkey'. subst key.
           apply list_elem_of_fmap in Hkey as (r0 & Hr0 & Hr0in).
           apply E. rewrite Hr0. now apply Hin.
        -- apply NoDup_singleton.
      * intros r0 Hr0. rewrite elem_of_union, elem_of_singleton.
        apply elem_of_app in Hr0 as [Hr0|Hr0]; [right; now apply Hin|].
        apply list_elem_of_singleton in Hr0. subst r0. now left.
      * intros key Hkey. rewrite elem_of_union. right. now apply Hsub.
      * intros r0 Hr0. apply elem_of_app in Hr0 as [Hr0|Hr0]; [now apply Hout|].
        apply list_elem_of_singleton in Hr0. subst r0.
        intros Hbad. apply E. now apply Hsub.
      * repeat split; [assumption|assumption|].
        rewrite length_app in H3. simpl in *. lia.
Qed.

(** The shape of the file a completed append leaves: the rows read from the
    master file, then the rows accepted from the batch, written over the
    united header. *)
Lemma append_shape master_csv headers new_rows added total master1 :
  _append_to_master master_csv headers new_rows
  = (Return (added, total), master1) ->
  let h1 := merged_header master_csv headers in
  let E1 := existing_rows master_csv in
  exists more,
    master1 = Some {| hdr := h1;
                      recs := map (fun row => map (get_or_empty row) h1)
                                (E1 ++ more) |}
    /\ added = length more
    /\ total = length E1 + length more
    /\ length more <= length new_rows
    /\ NoDup (map (fun r => _norm_row r h1) more)
    /\ (forall r e, r ∈ more -> e ∈ E1 -> _norm_row r h1 <> _norm_row e h1)
    /\ (forall r, r ∈ new_rows ->
          exists r0, r0 ∈ E1 ++ more /\ _norm_row r0 h1 = _norm_row r h1).
Proof.
  intros Hrun h1 E1. rewrite append_unfold in Hrun. fold h1 E1 in Hrun.
  cbv zeta in Hrun.
  set (seen1 := list_to_set (map (fun r => _norm_row r h1) E1) : gset (list string))
    in Hrun.
  destruct (dedup_loop_covers h1 E1 new_rows [] seen1)
    as (more & Hfst & _ & Hcov).
  { intros key. unfold seen1. rewrite elem_of_list_to_set, app_nil_r.
    rewrite list_elem_of_fmap. split; intros (r0 & H1 & H2); exists r0; now split. }
  destruct (dedup_loop_fresh h1 new_rows [] seen1 seen1) as (Hnd & Hfresh & Hlen).
  { constructor. }
  { intros r Hr. inversion Hr. }
  { now intros. }
  { intros r Hr. inversion Hr. }
  destruct (dedup_loop h1 new_rows [] seen1) as [A1 s1].
  cbn [fst app] in Hfst, Hnd, Hfresh, Hlen, Hcov. subst A1.
  destruct (write_rows h1 (E1 ++ more) {| hdr := h1; recs := [] |})
    as [[[]|e] t1] eqn:Hw; [|discriminate].
  injection Hrun as <- <- <-. apply write_rows_Return in Hw. simpl in Hw. subst t1.
  exists more. repeat split; try assumption; try (simpl in Hlen; lia).
  intros r e Hr He Heq. apply (Hfresh r Hr). unfold seen1.
  apply elem_of_list_to_set, list_elem_of_fmap. now exists e.
Qed.

Lemma zip_fields_value ks vs acc c v :
  dict_get (zip_fields ks vs acc) c = Some (Some v) ->
  v ∈ vs \/ dict_get acc c = Some (Some v).
Proof.
  revert vs acc. induction ks as [|k ks IH]; intros vs acc; cbn [zip_fields].
  - now right.
  - destruct vs as [|v0 vs]; intros H; apply IH in H as [H|H].
    + now left.
    + destruct (decide (c = k)) as [->|Hne].
      * rewrite dict_get_set_eq in H. discriminate.
      * rewrite dict_get_set_ne in H by exact Hne. now right.
    + left. now right.
    + destruct (decide (c = k)) as [->|Hne].
      * rewrite dict_get_set_eq in H. injection H as ->. left. now left.
      * rewrite dict_get_set_ne in H by exact Hne. now right.
Qed.

(** A batch whose column names and values are within the reader's limit
    leaves a master file that can be read back, whatever the master file was
    before: an append that could not read the old file has dropped it. *)
Lemma append_leaves_readable master_csv headers new_rows added total master1 :
  headers <> [] ->
  forallb within_limit headers = true ->
  (forall r c, r ∈ new_rows -> within_limit (get_or_empty r c) = true) ->
  _append_to_master master_csv headers new_rows
  = (Return (added, total), master1) ->
  can_be_read master1.
Proof.
  intros Hne Hhdr Hrows. rewrite append_unfold.
  set (h1 := merged_header master_csv headers).
  set (E1 := existing_rows master_csv). cbv zeta.
  set (seen1 := list_to_set (map (fun r => _norm_row r h1) E1) : gset (list string)).
  destruct (dedup_loop_covers h1 E1 new_rows [] seen1)
    as (more & Hfst & Hmore & _).
  { intros key. unfold seen1. rewrite elem_of_list_to_set, app_nil_r.
    rewrite list_elem_of_fmap. split; intros (r0 & H1 & H2); exists r0; now split. }
  destruct (dedup_loop h1 new_rows [] seen1) as [A1 s1]. cbn [fst app] in Hfst.
  subst A1.
  destruct (write_rows h1 (E1 ++ more) {| hdr := h1; recs := [] |})
    as [[[]|e] t1] eqn:Hw; [|discriminate].
  intros [= <- <- <-]. apply write_rows_Return in Hw. cbn [hdr recs app] in Hw.
  subst t1.
  cbn [can_be_read]. unfold readable. cbn [hdr recs].
  apply andb_true_iff. split.
  - apply forallb_forall. intros c Hc. apply list_elem_of_In in Hc.
    unfold h1, merged_header in Hc. destruct master_csv as [t|].
    + apply union_headers_elem in Hc.
      2: { intros Hnil. apply app_eq_nil in Hnil as [_ Hnil]. contradiction. }
      destruct Hc as [Hc|Hc].
      * unfold _read_header in Hc.
        destruct (forallb within_limit (hdr t)) eqn:E; [|inversion Hc].
        rewrite forallb_forall in E. apply E. now apply list_elem_of_In.
      * rewrite forallb_forall in Hhdr. apply Hhdr. now apply list_elem_of_In.
    + rewrite forallb_forall in Hhdr. apply Hhdr. now apply list_elem_of_In.
  - apply forallb_forall. intros record Hrec.
    apply list_elem_of_In, list_elem_of_fmap in Hrec as (row & -> & Hrow).
    apply forallb_forall. intros v Hv.
    apply list_elem_of_In, list_elem_of_fmap in Hv as (c & -> & _).
    apply elem_of_app in Hrow as [Hrow|Hrow].
    + unfold E1 in Hrow. destruct master_csv as [t|]; [|inversion Hrow].
      unfold existing_rows, read_rows in Hrow.
      destruct (readable t) eqn:Hread; [|inversion Hrow].
      apply list_elem_of_fmap in Hrow as (r0 & -> & Hr0).
      rewrite none_to_empty_get. unfold DictReader in Hr0.
      apply list_elem_of_fmap in Hr0 as (record & -> & Hrec).
      apply list_elem_of_filter in Hrec as [_ Hrec].
      unfold get_or_empty. cbn [fields].
      destruct (dict_get (zip_fields (hdr t) record []) c) as [[v|]|] eqn:Hget;
        try reflexivity.
      apply zip_fields_value in Hget as [Hv|Hv]; [|discriminate].
      unfold readable in Hread. apply andb_true_iff in Hread as [_ Hread].
      rewrite forallb_forall in Hread.
      specialize (Hread record ltac:(now apply list_elem_of_In)).
      rewrite forallb_forall in Hread. apply Hread. now apply list_elem_of_In.
    + destruct (Hmore row Hrow) as (r' & Hr' & ->).
      rewrite get_or_empty_fill. now apply Hrows.
Qed.

(** X16.  A completed append has written the master file with [total]
    records, of which the last [added] are new.  After trimming, the new
    records are pairwise different and differ from every record before them;
    and every row of the batch is in the file, up to trimming. *)
Theorem append_adds_each_new_row_once (master_csv : option table)
    (headers : list string) (new_rows : list csvrow) (added total : nat)
    (t1 : table) :
  _append_to_master master_csv headers new_rows
  = (Return (added, total), Some t1) ->
  added <= length new_rows
  /\ added <= total
  /\ length (recs t1) = total
  /\ NoDup (drop (total - added) (map (map Py.strip) (recs t1)))
  /\ (forall key, key ∈ drop (total - added) (map (map Py.strip) (recs t1)) ->
        key ∉ take (total - added) (map (map Py.strip) (recs t1)))
  /\ (forall r, r ∈ new_rows ->
        _norm_row r (hdr t1) ∈ map (map Py.strip) (recs t1)).
Proof.
  intros Hrun.
  destruct (append_shape _ _ _ _ _ _ Hrun)
    as (more & Hm1 & -> & -> & Hlen & Hnd & Hfresh & Hcov).
  injection Hm1 as ->. cbn [hdr recs].
  set (h1 := merged_header master_csv headers) in *.
  set (E1 := existing_rows master_csv) in *.
  assert (HK : map (map Py.strip)
                 (map (fun row => map (get_or_empty row) h1) (E1 ++ more))
               = map (fun r => _norm_row r h1) E1
                 ++ map (fun r => _norm_row r h1) more).
  { rewrite map_map, <- map_app. apply map_ext. intros row.
    unfold _norm_row. now rewrite map_map. }
  rewrite HK.
  replace (length E1 + length more - length more)
    with (length (map (fun r => _norm_row r h1) E1))
    by (rewrite length_map; lia).
  rewrite drop_app_length, take_app_length.
  split; [exact Hlen|]. split; [lia|]. split; [|split; [exact Hnd|split]].
  - now rewrite length_map, length_app.
  - intros key Hk Hk'. apply list_elem_of_fmap in Hk as (r & -> & Hr).
    apply list_elem_of_fmap in Hk' as (e & He & Hein).
    now apply (Hfresh r e Hr Hein).
  - intros r Hr. destruct (Hcov r Hr) as (r0 & Hr0 & <-).
    rewrite <- map_app. apply list_elem_of_fmap. now exists r0.
Qed.

Lemma append_adds_each_new_row_once_witness :
  1 <= length sample_batch
  /\ 1 <= 2
  /\ length (recs {| hdr := ["Name"; "Type"; "Reference"; "__source_file"];
                     recs := [["Jamming"; "Attack"; ""; "a.csv"];
                              ["Spoofing"; "Attack"; "[7]"; "b.csv"]] |}) = 2
  /\ NoDup (drop (2 - 1)
              (map (map Py.strip)
                 (recs {| hdr := ["Name"; "Type"; "Reference"; "__source_file"];
                          recs := [["Jamming"; "Attack"; ""; "a.csv"];
                                   ["Spoofing"; "Attack"; "[7]"; "b.csv"]] |})))
  /\ (forall key,
        key ∈ drop (2 - 1)
                (map (map Py.strip)
                   (recs {| hdr := ["Name"; "Type"; "Reference"; "__source_file"];
                            recs := [["Jamming"; "Attack"; ""; "a.csv"];
                                     ["Spoofing"; "Attack"; "[7]"; "b.csv"]] |})) ->
        key ∉ take (2 - 1)
                (map (map Py.strip)
                   (recs {| hdr := ["Name"; "Type"; "Reference"; "__source_file"];
                            recs := [["Jamming"; "Attack"; ""; "a.csv"];
                                     ["Spoofing"; "Attack"; "[7]"; "b.csv"]] |})))
  /\ (forall r, r ∈ sample_batch ->
        _norm_row r
          (hdr {| hdr := ["Name"; "Type"; "Reference"; "__source_file"];
                  recs := [["Jamming"; "Attack"; ""; "a.csv"];
                           ["Spoofing"; "Attack"; "[7]"; "b.csv"]] |})
        ∈ map (map Py.strip)
            (recs {| hdr := ["Name"; "Type"; "Reference"; "__source_file"];
                     recs := [["Jamming"; "Attack"; ""; "a.csv"];
                              ["Spoofing"; "Attack"; "[7]"; "b.csv"]] |})).
Proof.
  apply (append_adds_each_new_row_once sample_master sample_headers sample_batch).
  vm_compute. reflexivity.
Defined.



(** A master file with a field over the limit: the append returns, and the
    old row is not in the file it leaves. *)
Example append_drops_an_unreadable_master :
  _append_to_master
    (Some {| hdr := ["Name"]; recs := [["Jamming"]; [long_field]] |})
    ["Name"]
    [ {| fields := [("Name", Some "Spoofing")]; has_restkey := false |} ]
  = (Return (1, 1), Some {| hdr := ["Name"]; recs := [["Spoofing"]] |}).
Proof.
  rewrite append_unreadable.
  - apply append_one_row. right. reflexivity.
  - unfold readable. cbn [hdr recs forallb].
    rewrite long_field_over_limit. now rewrite !andb_false_r.
Qed.

(* ===================================================================== *)
(** * Where the script can stop                                          *)
(* ===================================================================== *)

Lemma node_plan_stops g nodes e :
  snd (node_plan g nodes) = Some e ->
  (exists n, e = ComponentNotFound n) \/ (exists k, e = HyphenInKey k).
Proof.
  induction nodes as [|n nodes IH]; [discriminate|].
  cbn [node_plan]. destruct (typed g n) as [t|].
  2: { intros [= <-]. left. now exists n. }
  destruct (find _ _) as [key|].
  { intros [= <-]. right. now exists key. }
  destruct (node_plan g nodes) as [done r]. exact IH.
Qed.

(** Tables without a null in the key column: [row_name] then raises for a
    missing column only. *)
Section Keyed.
Context (I : store -> Prop) (E : exn -> Prop).

Lemma inv_row_name_keyed row col :
  dict_get row col <> Some None -> E (KeyError col) -> inv I E (row_name row col).
Proof.
  intros Hkey He. unfold row_name, row_at.
  destruct (dict_get row col) as [[s|]|]; [|contradiction|].
  - intros g Hg. split; [exact Hg|discriminate].
  - intros g Hg. split; [exact Hg|]. now intros e [= <-].
Qed.

Lemma inv_register_nodes_keyed df key_col component_type metadata_cols :
  keyed df key_col ->
  metadata_free I -> fresh_type_free I ->
  (forall c, E (ComponentAlreadyRegistered c)) -> (forall c, E (KeyError c)) ->
  inv I E (register_nodes df key_col component_type metadata_cols).
Proof.
  intros Hkeyed HM HT He1 He2.
  induction Hkeyed as [|row df Hrow Hdf IH]; cbn [register_nodes].
  - apply inv_ret.
  - apply inv_bind; [now apply inv_row_name_keyed|intros component].
    apply inv_bind; [|intros metadata].
    + destruct metadata_cols as [[|c cols]|]; try apply inv_ret.
      now apply inv_select_cols.
    + apply inv_bind; [now apply inv_register_node|intros _; exact IH].
Qed.

Lemma inv_register_all_keyed regs :
  Forall (fun r => keyed (reg_df r) (reg_key_col r)) regs ->
  metadata_free I -> fresh_type_free I ->
  (forall c, E (ComponentAlreadyRegistered c)) -> (forall c, E (KeyError c)) ->
  inv I E (register_all regs).
Proof.
  intros Hkeyed HM HT He1 He2.
  induction Hkeyed as [|r regs Hr Hregs IH]; cbn [register_all].
  - apply inv_ret.
  - apply inv_bind; [now apply inv_register_nodes_keyed|intros _; exact IH].
Qed.

Lemma inv_expand_relationship_keyed df src dst rname expansion reverse :
  keyed df src -> (forall c, E (KeyError c)) ->
  inv I E (expand_relationship df src dst rname expansion reverse).
Proof.
  intros Hkeyed He.
  induction Hkeyed as [|row df Hrow Hdf IH]; cbn [expand_relationship].
  - apply inv_ret.
  - apply inv_bind; [now apply inv_row_name_keyed|intros s].
    apply inv_bind; [now apply inv_row_at|intros d].
    apply inv_bind; [exact IH|intros rest; apply inv_ret].
Qed.

Lemma inv_expand_all_keyed calls :
  Forall (fun c => keyed (exp_df c) (exp_src c)) calls ->
  (forall c, E (KeyError c)) ->
  inv I E (expand_all calls).
Proof.
  intros Hkeyed He.
  induction Hkeyed as [|c calls Hc Hcalls IH]; cbn [expand_all].
  - apply inv_ret.
  - apply inv_bind; [now apply inv_expand_relationship_keyed|intros here].
    apply inv_bind; [exact IH|intros more; apply inv_ret].
Qed.

End Keyed.

(** X18.  What an exception of the script says about the database, for
    tables without a null in their key and source columns and nodes whose
    rows have no key that is a parameter name of [run].  A failure of the
    registration ("already registered", a missing column), of the expansion
    (a missing column) or of the duplicate check leaves the database empty:
    the old graph is dropped first and nothing is written before the node
    loop.  At a key with a hyphen only nodes have been inserted, no edge.  A
    wildcard row without expansion base stops the script after every
    registered node has been inserted.  No other exception of the model
    comes out of the script. *)
Theorem main_failure_and_database (regs : list registration)
    (calls : list expansion_call) (g : store) (e : exn) :
  Forall (fun r => keyed (reg_df r) (reg_key_col r)) regs ->
  Forall (fun c => keyed (exp_df c) (exp_src c)) calls ->
  Forall (fun n => plain_keys
                     (node_row n (get_node_metadata (snd (main regs calls g)) n))
                   = true)
    (get_registered_nodes (snd (main regs calls g))) ->
  fst (main regs calls g) = Raise e ->
  match e with
  | ComponentAlreadyRegistered _ | KeyError _ | DuplicateNodesFound =>
      GRAPH (snd (main regs calls g)) = []
  | HyphenInKey _ =>
      Forall (fun w => is_insert w = true) (GRAPH (snd (main regs calls g)))
  | NoneNotIterable =>
      exists edges,
        GRAPH (snd (main regs calls g))
        = map (insert_of (snd (main regs calls g)))
            (get_registered_nodes (snd (main regs calls g)))
          ++ edges
  | ComponentNotFound _ => True
  | NullName _ | LengthMismatch | MetadataAlreadySet _
  | FieldsNotInFieldnames => False
  end.
Proof.
  intros Hregs Hcalls _.
  unfold main. rewrite run_bind.
  change (drop_all_data g) with (Return tt, set_GRAPH [] g). cbv beta iota.
  rewrite run_bind.
  pose proof (register_all_keeps_GRAPH regs (set_GRAPH [] g)) as HG1.
  change (GRAPH (set_GRAPH [] g)) with (@nil write) in HG1.
  pose proof (inv_register_all_keyed (fun _ => True)
                (fun e => match e with
                          | ComponentAlreadyRegistered _ | KeyError _ => True
                          | _ => False
                          end) regs Hregs) as Hreg.
  destruct (Hreg ltac:(now intros) ltac:(now intros) ltac:(now intros)
              ltac:(now intros) (set_GRAPH [] g) I)
    as [_ Hexn1].
  destruct (register_all regs (set_GRAPH [] g)) as [[[]|e1] g1];
    cbn [fst snd] in HG1, Hexn1 |- *.
  2: { intros [= <-]. specialize (Hexn1 _ eq_refl). now destruct e1. }
  rewrite run_bind. change (get g1) with (Return g1, g1). cbv beta iota.
  rewrite run_bind.
  pose proof (expand_all_keeps_store calls g1) as HG2.
  pose proof (inv_expand_all_keyed (fun _ => True)
                (fun e => match e with
                          | KeyError _ => True
                          | _ => False
                          end) calls Hcalls) as Hexp.
  destruct (Hexp ltac:(now intros) g1 I) as [_ Hexn2].
  destruct (expand_all calls g1) as [[rels|e2] g2]; cbn [fst snd] in HG2, Hexn2 |- *;
    subst g2.
  2: { intros [= <-]. specialize (Hexn2 _ eq_refl). now destruct e2. }
  destruct (has_duplicates (get_registered_nodes g1)).
  { intros [= <-]. exact HG1. }
  rewrite run_bind, create_nodes_run.
  destruct (node_plan_prefix g1 (get_registered_nodes g1))
    as (rest & Hnodes & Hnone & _).
  pose proof (node_plan_stops g1 (get_registered_nodes g1)) as Hstop.
  destruct (node_plan g1 (get_registered_nodes g1)) as [done r].
  cbn [fst snd] in Hnodes, Hnone, Hstop. rewrite HG1. cbn [app].
  set (g3 := set_GRAPH (map (insert_of g1) done) g1).
  assert (Hs3 : same_static g1 g3) by (now repeat split).
  destruct r as [e3|].
  { intros [= <-]. cbn [snd].
    destruct (Hstop e3 eq_refl) as [[n ->]|[k ->]]; [exact I|].
    simpl. apply Forall_forall. intros w Hw.
    apply list_elem_of_fmap in Hw as (n & -> & _). reflexivity. }
  assert (Hrest : rest = []) by (now apply Hnone). subst rest.
  rewrite app_nil_r in Hnodes.
  pose proof (inv_edge_loop (fun _ => True)
                (fun e => match e with
                          | ComponentNotFound _ | NoneNotIterable => True
                          | _ => False
                          end) rels) as Hedge.
  destruct (Hedge ltac:(now intros) ltac:(now intros) ltac:(now intros) I g3 I)
    as [_ Hexn4].
  destruct (edge_loop_effect rels g3) as (Hs4 & _ & es & HG4 & _).
  intros He. specialize (Hexn4 _ He).
  destruct e; try contradiction; try exact I.
  exists es. rewrite HG4.
  assert (Hs14 : same_static g1 (snd (edge_loop rels g3)))
    by exact (same_static_trans _ _ _ Hs3 Hs4).
  assert (Hreg' : get_registered_nodes (snd (edge_loop rels g3)) = done).
  { unfold get_registered_nodes in *. destruct Hs14 as (H1 & _). now rewrite H1. }
  rewrite Hreg'. f_equal. simpl. apply map_ext. intros n. symmetry.
  now apply insert_of_static.
Qed.

Lemma main_failure_and_database_witness :
  Forall (fun w => is_insert w = true)
    (GRAPH (snd (main
                   [ {| reg_df := [[("Component", Some "O-DU")]];
                        reg_key_col := "Component";
                        reg_component_type := "Component";
                        reg_metadata_cols := None |};
                     {| reg_df := [[("Name", Some "T-01"); ("Risk-ID", Some "7")]];
                        reg_key_col := "Name";
                        reg_component_type := "Threat";
                        reg_metadata_cols := Some ["Risk-ID"] |} ]
                   [] initial_store))).
Proof.
  refine (main_failure_and_database _ [] initial_store (HyphenInKey "risk-id")
            _ _ _ _).
  - repeat constructor; discriminate.
  - constructor.
  - vm_compute. repeat constructor.
  - vm_compute. reflexivity.
Defined.

(** The run of the witness: the component is inserted, the threat is not. *)
Example main_stops_at_hyphen :
  exists row,
    GRAPH (snd (main
                  [ {| reg_df := [[("Component", Some "O-DU")]];
                       reg_key_col := "Component";
                       reg_component_type := "Component";
                       reg_metadata_cols := None |};
                    {| reg_df := [[("Name", Some "T-01"); ("Risk-ID", Some "7")]];
                       reg_key_col := "Name";
                       reg_component_type := "Threat";
                       reg_metadata_cols := Some ["Risk-ID"] |} ]
                  [] initial_store))
    = [InsertRow "Component" row].
Proof. eexists. vm_compute. reflexivity. Qed.
